(** * decaf http: request parser, response writer, connection worker and
      WebSocket codec

    A shallow embedding of [modules/http/lib] (Request.js, Response.js,
    Child.js, WebSocket.js) and the properties of its specification.

    Conventions of the embedding.
    - A JavaScript string is a [string]: a sequence of 8-bit characters,
      the characters up to U+00FF. What depends on a charset or on the
      characters beyond (the bytes of a string in the charset of the Java
      runtime, the decoding of UTF-8, percent-decoding) is the host's.
    - A JavaScript number used as an integer is a [Z]; the 32-bit bitwise
      operators are written out with their wrap-around ([to_int32]).
    - Code that throws lives in a state-and-exception monad [M]; string-valued
      control-flow signals ('EOF', 'RES.STOP', 'THREAD.EXIT') are thrown
      strings, as in the source.
    - Loops of the source that have no syntactic bound take a fuel argument;
      running out of fuel is a separate outcome [Diverge] that no [try] of the
      program catches. *)

From Stdlib Require Import ZArith List String Ascii HexString Lia Bool.
From stdpp Require Import base option list gmap strings pretty.

Local Open Scope string_scope.
Local Open Scope Z_scope.

(** ** JavaScript integers and characters *)

Module JS.

(** ToInt32: the value every bitwise operator of JavaScript works on. *)
Definition to_int32 (z : Z) : Z := (z + 2 ^ 31) mod 2 ^ 32 - 2 ^ 31.

(** [a << n], [a >> n]: the shift count is taken modulo 32. *)
Definition shl (a n : Z) : Z := to_int32 (Z.shiftl (to_int32 a) (Z.land n 31)).
Definition shr (a n : Z) : Z := Z.shiftr (to_int32 a) (Z.land n 31).
Definition and (a b : Z) : Z := to_int32 (Z.land (to_int32 a) (to_int32 b)).
Definition or (a b : Z) : Z := to_int32 (Z.lor (to_int32 a) (to_int32 b)).
Definition xor (a b : Z) : Z := to_int32 (Z.lxor (to_int32 a) (to_int32 b)).

(** [s.charCodeAt(i)] of a one-character string, and [String.fromCharCode]
    on codes below 256. *)
Definition charCode (c : ascii) : Z := Z.of_N (N_of_ascii c).
Definition fromCharCode (z : Z) : ascii := ascii_of_N (Z.to_N z).

(** JavaScript truthiness of a number and of a string. *)
Definition truthy (z : Z) : bool := negb (z =? 0).
Definition nonempty (s : string) : bool :=
  match s with EmptyString => false | _ => true end.

(** [s.length] *)
Definition length (s : string) : Z := Z.of_nat (String.length s).

End JS.

(** ** Exceptions and the monad of effectful code *)

(** What the code throws: a string ([throw 'EOF']), a JavaScript [Error]
    object, a Java exception surfaced by the host (the only kind that
    carries [dumpText]), or one of the two values that have no properties
    at all ([throw null], [throw undefined]). *)
Inductive Exn : Type :=
| ThrownString (s : string)
| ThrownError (msg : string)
| ThrownJava (msg : string)
| ThrownNull
| ThrownUndefined.

(** Reading a property of [null] or [undefined] is a TypeError. *)
Definition nullish (e : Exn) : bool :=
  match e with
  | ThrownNull | ThrownUndefined => true
  | _ => false
  end.

Definition EOF : Exn := ThrownString "EOF".
Definition RES_STOP : Exn := ThrownString "RES.STOP".
Definition THREAD_EXIT : Exn := ThrownString "THREAD.EXIT".

Global Instance Exn_eq_dec : EqDecision Exn.
Proof. solve_decision. Defined.

Inductive result (A : Type) : Type :=
| Ok (a : A)
| Throw (e : Exn)
| Diverge.
Arguments Ok {A} a.
Arguments Throw {A} e.
Arguments Diverge {A}.

Section Monad.
Context {S : Type}.

Definition M (A : Type) : Type := S -> result A * S.

Definition ret {A} (a : A) : M A := fun s => (Ok a, s).
Definition throw {A} (e : Exn) : M A := fun s => (Throw e, s).
Definition diverge {A} : M A := fun s => (Diverge, s).

Definition bind {A B} (m : M A) (k : A -> M B) : M B :=
  fun s =>
    match m s with
    | (Ok a, s') => k a s'
    | (Throw e, s') => (Throw e, s')
    | (Diverge, s') => (Diverge, s')
    end.

(** [try { m } catch (e) { h e }] *)
Definition try_catch {A} (m : M A) (h : Exn -> M A) : M A :=
  fun s =>
    match m s with
    | (Throw e, s') => h e s'
    | r => r
    end.

(** [try { m } finally { f }]: [f] runs on both exits; an exception of
    [f] replaces the pending outcome. *)
Definition try_finally {A} (m : M A) (f : M unit) : M A :=
  fun s =>
    match m s with
    | (Diverge, s') => (Diverge, s')
    | (r, s') =>
        match f s' with
        | (Ok _, s'') => (r, s'')
        | (Throw e, s'') => (Throw e, s'')
        | (Diverge, s'') => (Diverge, s'')
        end
    end.

Definition get : M S := fun s => (Ok s, s).
Definition modify (f : S -> S) : M unit := fun s => (Ok tt, f s).

End Monad.
Arguments M : clear implicits.

Declare Scope m_scope.
Delimit Scope m_scope with M.
Notation "x <- m ; k" := (bind m (fun x => k))
  (at level 20, m at level 100, k at level 200, only parsing) : m_scope.
Notation "m ;; k" := (bind m (fun _ => k))
  (at level 100, k at level 200, only parsing, right associativity) : m_scope.
Local Open Scope m_scope.

(** ** JavaScript string built-ins used by the sources *)

Module JStr.

(** White space as matched by [\s] (among 8-bit characters). *)
Definition is_space (c : ascii) : bool :=
  let n := JS.charCode c in
  (n =? 9) || (n =? 10) || (n =? 11) || (n =? 12) || (n =? 13) || (n =? 32) || (n =? 160).

(** Value of a digit in radixes up to 36. *)
Definition digit_value (c : ascii) : option Z :=
  let n := JS.charCode c in
  if (48 <=? n) && (n <=? 57) then Some (n - 48)
  else if (97 <=? n) && (n <=? 122) then Some (n - 87)
  else if (65 <=? n) && (n <=? 90) then Some (n - 55)
  else None.

Fixpoint skip_space (s : string) : string :=
  match s with
  | String c rest => if is_space c then skip_space rest else s
  | EmptyString => s
  end.

(** The longest prefix of digits of the radix, as a number; [None] when
    there is no digit at all. *)
Fixpoint digits (radix : Z) (acc : option Z) (s : string) : option Z :=
  match s with
  | String c rest =>
      match digit_value c with
      | Some d =>
          if d <? radix then digits radix (Some (default 0 acc * radix + d)) rest
          else acc
      | None => acc
      end
  | EmptyString => acc
  end.

Definition strip_0x (radix : Z) (s : string) : string :=
  match s with
  | String "0" (String "x" rest) | String "0" (String "X" rest) =>
      if radix =? 16 then rest else s
  | _ => s
  end.

(** [parseInt(s, radix)] for an explicit radix; [None] is NaN. *)
Definition parseInt (s : string) (radix : Z) : option Z :=
  match skip_space s with
  | String "-" rest => Z.opp <$> digits radix None (strip_0x radix rest)
  | String "+" rest => digits radix None (strip_0x radix rest)
  | t => digits radix None (strip_0x radix t)
  end.

(** [String.fromCharCode(n)] where [n] may be NaN (character 0). *)
Definition fromCharCode (n : option Z) : ascii :=
  match n with
  | Some z => JS.fromCharCode z
  | None => JS.fromCharCode 0
  end.

(** [toLowerCase] and [toUpperCase] on the characters up to U+00FF: the
    letters of ASCII and of the Latin-1 supplement (U+00C0 to U+00DE
    without the multiplication sign, U+00E0 to U+00FE without the division
    sign); the capital of the sharp s is [SS]. The capitals of the micro
    sign and of the y with diaeresis are beyond U+00FF: these two stay as
    they are. *)
Definition lower (c : ascii) : ascii :=
  let n := JS.charCode c in
  if ((65 <=? n) && (n <=? 90)) || ((192 <=? n) && (n <=? 222) && negb (n =? 215))
  then JS.fromCharCode (n + 32) else c.
Definition upper (c : ascii) : string :=
  let n := JS.charCode c in
  if ((97 <=? n) && (n <=? 122)) || ((224 <=? n) && (n <=? 254) && negb (n =? 247))
  then String (JS.fromCharCode (n - 32)) EmptyString
  else if n =? 223 then "SS"
  else String c EmptyString.

Fixpoint map (f : ascii -> ascii) (s : string) : string :=
  match s with
  | String c rest => String (f c) (map f rest)
  | EmptyString => EmptyString
  end.

Definition toLowerCase : string -> string := map lower.
Fixpoint toUpperCase (s : string) : string :=
  match s with
  | String c rest => upper c +:+ toUpperCase rest
  | EmptyString => EmptyString
  end.

(** [s.indexOf(sub) !== -1] *)
Fixpoint contains (sub s : string) : bool :=
  String.prefix sub s ||
  match s with
  | String _ rest => contains sub rest
  | EmptyString => false
  end.

(** Length of the run of white space at the head of [s]. *)
Fixpoint space_run (s : string) : nat :=
  match s with
  | String c rest => if is_space c then Datatypes.S (space_run rest) else O
  | EmptyString => O
  end.

(** A separator of [split]: the length of its match at the head of the
    string, if it matches there. *)
Definition separator : Type := string -> option nat.

(** [split(sep)] for a non-empty string [sep]. *)
Definition sep_string (sep : string) : separator :=
  fun s => if String.prefix sep s then Some (String.length sep) else None.
(** [split(/\s+/)] *)
Definition sep_spaces : separator :=
  fun s => match space_run s with O => None | n => Some n end.
(** [split(/:\s+/)] *)
Definition sep_colon_spaces : separator :=
  fun s =>
    match s with
    | String ":" rest =>
        match space_run rest with O => None | n => Some (Datatypes.S n) end
    | _ => None
    end.
(** [split(/;\s*/)] *)
Definition sep_semicolon_spaces : separator :=
  fun s =>
    match s with
    | String ";" rest => Some (Datatypes.S (space_run rest))
    | _ => None
    end.

(** [String.prototype.split]: [skip] characters of a separator are still
    to be passed over, [cur] is the piece being collected. *)
Fixpoint split_go (sep : separator) (s : string) (skip : nat) (cur : string) : list string :=
  match s with
  | EmptyString => [cur]
  | String c rest =>
      match skip with
      | Datatypes.S k => split_go sep rest k cur
      | O =>
          match sep s with
          | Some (Datatypes.S k) => cur :: split_go sep rest k EmptyString
          | _ => split_go sep rest O (cur +:+ String c EmptyString)
          end
      end
  end.

Definition split (sep : separator) (s : string) : list string :=
  split_go sep s O EmptyString.

(** [s.replace(/c/g, by)] for a one-character pattern. *)
Fixpoint replace_char (c : ascii) (by_ : string) (s : string) : string :=
  match s with
  | String d rest =>
      if Ascii.eqb c d then by_ +:+ replace_char c by_ rest
      else String d (replace_char c by_ rest)
  | EmptyString => EmptyString
  end.

(** [s.substr(n)] for [n >= 0]. *)
Fixpoint substr (n : nat) (s : string) : string :=
  match n, s with
  | Datatypes.S k, String _ rest => substr k rest
  | _, _ => s
  end.

Definition hex_value (c : ascii) : option Z :=
  match digit_value c with
  | Some d => if d <? 16 then Some d else None
  | None => None
  end.

End JStr.

(** ** The host environment *)

(** Modelled from the spec: the external primitives the core consumes as
    interfaces (section 6 of the specification), and the built-ins of the
    JavaScript engine and of the Java runtime that the sources call: the
    clock and the date formatter and parser, the URI encoder and decoder,
    the charset conversions, the JSON parser, the MIME table, the gzip
    compressor, the file system, the unique-identifier generator, and what
    the engine adds to [Object.prototype]. None of them is part of these
    sources; the development holds for every host. *)
Class Host : Type := {
  (** [new Date().getTime()] *)
  now : Z;
  (** [new Date(ms).toGMTString()] and the string conversion of a [Date] *)
  toGMTString : Z -> string;
  dateToString : Z -> string;
  (** [Date.parse(s)]; [None] is NaN *)
  Date_parse : string -> option Z;
  encodeURIComponent : string -> string;
  (** [decodeURIComponent(s)]; [None] is a URIError *)
  decodeURIComponent : string -> option string;
  (** [decaf.toJavaByteArray(s)]: the bytes of a string in the default
      charset of the Java runtime; their number need not be the length of
      the string *)
  toJavaByteArray : string -> list ascii;
  (** [String(new java.lang.String(raw, 'utf8'))] *)
  utf8String : list ascii -> string;
  (** the properties the engine adds to [Object.prototype] beyond those of
      ECMAScript 5.1 (such as [__proto__]), by name: [Some true] is a
      function that returns when it is called with one argument,
      [Some false] a value that is truthy and throws a TypeError when it
      is called, [None] no such property *)
  engineProperty : string -> option bool;
  (** parsed JSON values, [JSON.parse] ([None] is a SyntaxError) and the
      properties [decaf.extend] copies from a parsed value *)
  JVal : Type;
  JSON_parse : string -> option JVal;
  JSON_props : JVal -> list (string * JVal);
  (** [mimeTypes[extension]] *)
  mimeTypes : string -> option string;
  (** [GZIP.compress] *)
  gzip_compress : list ascii -> list ascii;
  (** [java.io.File]: modification time in milliseconds and content of the
      files that exist *)
  files : string -> option (Z * list ascii);
  (** the n-th value of [uuid()] *)
  uuid : nat -> string
}.

(** ** The connection: input bytes, raw socket output, OutputStream log *)

(** One operation of the buffered [net.OutputStream] wrapper ([res.os]). *)
Inductive OsOp : Type :=
| Writeln (s : string)
| Write (s : string)
| WriteBytes (bs : list ascii)
| Flush.

(** What a connection has sent: the bytes written to the raw socket stream
    ([socket.getOutputStream()]), the sequence of calls made on the buffered
    [OutputStream] wrapper, and what [console.exception] and [dumpText]
    printed. *)
Record Out : Type := mkOut {
  o_sock : list ascii;
  o_os : list OsOp;
  o_console : list Exn
}.

(** Modelled from the spec: the ByteConnection (net.InputStream and
    net.OutputStream are not part of these sources). The input side is the
    finite sequence of bytes still to come from the peer: [readByte] throws
    at the end of the stream, [readLine] answers [false] there, [read(n)]
    hands out exactly [n] bytes. *)
Record Conn : Type := mkConn {
  c_is : list ascii;
  c_out : Out;
  c_serverPort : Z;
  c_remoteAddress : string
}.

Definition sock_write_byte (z : Z) (o : Out) : Out :=
  mkOut (o_sock o ++ [ascii_of_N (Z.to_N (Z.land z 255))]) (o_os o) (o_console o).
Definition sock_write_bytes (bs : list ascii) (o : Out) : Out :=
  mkOut (o_sock o ++ bs) (o_os o) (o_console o).
Definition os_op (op : OsOp) (o : Out) : Out :=
  mkOut (o_sock o) (o_os o ++ [op]) (o_console o).
Definition console_exception (e : Exn) (o : Out) : Out :=
  mkOut (o_sock o) (o_os o) (o_console o ++ [e]).

Definition set_is (i : list ascii) (c : Conn) : Conn :=
  mkConn i (c_out c) (c_serverPort c) (c_remoteAddress c).
Definition set_out (o : Out) (c : Conn) : Conn :=
  mkConn (c_is c) o (c_serverPort c) (c_remoteAddress c).

(** Code that only sends, run on a connection. *)
Definition sending {A} (m : M Out A) : M Conn A :=
  fun c => let '(r, o) := m (c_out c) in (r, set_out o c).

(** [is.readByte()] *)
Definition readByte : M Conn Z :=
  fun c =>
    match c_is c with
    | [] => (Throw EOF, c)
    | b :: rest => (Ok (JS.charCode b), set_is rest c)
    end.

(** The bytes of a line up to its line feed, and what follows it. *)
Fixpoint take_line (bs : list ascii) : string * list ascii :=
  match bs with
  | [] => (EmptyString, [])
  | c :: rest =>
      if Ascii.eqb c "010" then (EmptyString, rest)
      else let '(l, r) := take_line rest in (String c l, r)
  end.

Fixpoint chomp (s : string) : string :=
  match s with
  | String "013" EmptyString => EmptyString
  | String c rest => String c (chomp rest)
  | EmptyString => EmptyString
  end.

(** [is.readLine()]: the next line without its terminator; [None] is the
    [false] of the end of the stream. *)
Definition readLine : M Conn (option string) :=
  fun c =>
    match c_is c with
    | [] => (Ok None, c)
    | bs => let '(l, rest) := take_line bs in (Ok (Some (chomp l)), set_is rest c)
    end.

(** [is.read(n)] *)
Definition read (n : Z) : M Conn (list ascii) :=
  fun c =>
    if (0 <=? n) && (n <=? Z.of_nat (List.length (c_is c))) then
      (Ok (firstn (Z.to_nat n) (c_is c)), set_is (skipn (Z.to_nat n) (c_is c)) c)
    else (Throw EOF, c).

(** [String(new java.lang.String(raw, 'latin1'))]: every byte is the
    character of its value. *)
Definition latin1String (raw : list ascii) : string := string_of_list_ascii raw.

(** ** The handshake primitives: SHA-1 and base64 *)

(** Modelled from the spec: the SHA-1 primitive of the [support] module
    (FIPS 180-4), which is not part of these sources. [digest] is the 20-byte
    hash; [sha1] is its hexadecimal rendering, the form [makeAccept] consumes. *)
Module Sha1.

Definition w32 (z : Z) : Z := z mod 2 ^ 32.
Definition add (a b : Z) : Z := w32 (a + b).
Definition rotl (n x : Z) : Z := w32 (Z.lor (Z.shiftl x n) (Z.shiftr x (32 - n))).

Definition f (t : nat) (b c d : Z) : Z :=
  if (t <? 20)%nat then Z.lor (Z.land b c) (Z.land (w32 (Z.lnot b)) d)
  else if (t <? 40)%nat then Z.lxor (Z.lxor b c) d
  else if (t <? 60)%nat then Z.lor (Z.lor (Z.land b c) (Z.land b d)) (Z.land c d)
  else Z.lxor (Z.lxor b c) d.

Definition K (t : nat) : Z :=
  if (t <? 20)%nat then 0x5a827999
  else if (t <? 40)%nat then 0x6ed9eba1
  else if (t <? 60)%nat then 0x8f1bbcdc
  else 0xca62c1d6.

(** Big-endian words of a block of bytes. *)
Fixpoint words (bs : list Z) : list Z :=
  match bs with
  | a :: b :: c :: d :: rest =>
      (Z.shiftl a 24 + Z.shiftl b 16 + Z.shiftl c 8 + d) :: words rest
  | _ => []
  end.

(** The message schedule, most recent word first. *)
Fixpoint schedule (n : nat) (rev_w : list Z) : list Z :=
  match n with
  | O => rev_w
  | Datatypes.S n' =>
      let w := rotl 1 (Z.lxor (Z.lxor (Z.lxor (nth 2 rev_w 0) (nth 7 rev_w 0))
                                      (nth 13 rev_w 0)) (nth 15 rev_w 0)) in
      schedule n' (w :: rev_w)
  end.

Definition state : Type := Z * Z * Z * Z * Z.

Fixpoint rounds (t : nat) (ws : list Z) (s : state) : state :=
  match ws with
  | [] => s
  | w :: ws' =>
      let '(a, b, c, d, e) := s in
      let tmp := add (add (add (add (rotl 5 a) (f t b c d)) e) w) (K t) in
      rounds (Datatypes.S t) ws' (tmp, a, rotl 30 b, c, d)
  end.

Definition block (h : state) (bs : list Z) : state :=
  let ws := rev (schedule 64 (rev (words bs))) in
  let '(a, b, c, d, e) := rounds 0 ws h in
  let '(h0, h1, h2, h3, h4) := h in
  (add h0 a, add h1 b, add h2 c, add h3 d, add h4 e).

Fixpoint blocks (n : nat) (h : state) (bs : list Z) : state :=
  match n with
  | O => h
  | Datatypes.S n' => blocks n' (block h (firstn 64 bs)) (skipn 64 bs)
  end.

Definition be_bytes (count : nat) (z : Z) : list Z :=
  List.map (fun i => Z.land (Z.shiftr z (8 * Z.of_nat (count - 1 - i))) 255) (seq 0 count).

Definition pad (bs : list Z) : list Z :=
  let l := Z.of_nat (List.length bs) in
  let zeros := (55 - l) mod 64 in
  bs ++ [0x80] ++ repeat 0 (Z.to_nat zeros) ++ be_bytes 8 (8 * l).

Definition init : state :=
  (0x67452301, 0xefcdab89, 0x98badcfe, 0x10325476, 0xc3d2e1f0).

Definition digest (s : string) : list ascii :=
  let p := pad (List.map JS.charCode (list_ascii_of_string s)) in
  let '(h0, h1, h2, h3, h4) := blocks (List.length p / 64) init p in
  List.map JS.fromCharCode (concat (List.map (be_bytes 4) [h0; h1; h2; h3; h4])).

Definition hex_digit (z : Z) : ascii :=
  if z <? 10 then JS.fromCharCode (48 + z) else JS.fromCharCode (87 + z).

Fixpoint hex (bs : list ascii) : string :=
  match bs with
  | [] => EmptyString
  | b :: rest =>
      String (hex_digit (JS.charCode b / 16))
        (String (hex_digit (JS.charCode b mod 16)) (hex rest))
  end.

Definition sha1 (s : string) : string := hex (digest s).

End Sha1.

(** Modelled from the spec: the base64 primitive of the [support] module
    (RFC 4648, with padding), which is not part of these sources. *)
Module Base64.

Definition alphabet : string :=
  "ABCDEFGHIJKLMNOPQRSTUVWXYZabcdefghijklmnopqrstuvwxyz0123456789+/".

Definition sextet (z : Z) : ascii :=
  match String.get (Z.to_nat z) alphabet with
  | Some c => c
  | None => "="%char
  end.

Fixpoint encode (bs : list ascii) : string :=
  match bs with
  | [] => EmptyString
  | [a] =>
      let n := JS.charCode a * 65536 in
      String (sextet (n / 262144)) (String (sextet (n / 4096 mod 64)) "==")
  | [a; b] =>
      let n := JS.charCode a * 65536 + JS.charCode b * 256 in
      String (sextet (n / 262144)) (String (sextet (n / 4096 mod 64))
        (String (sextet (n / 64 mod 64)) "="))
  | a :: b :: c :: rest =>
      let n := JS.charCode a * 65536 + JS.charCode b * 256 + JS.charCode c in
      String (sextet (n / 262144)) (String (sextet (n / 4096 mod 64))
        (String (sextet (n / 64 mod 64)) (String (sextet (n mod 64)) (encode rest))))
  end.

(** [base64_encode(s)] on an 8-bit string. *)
Definition base64_encode (s : string) : string := encode (list_ascii_of_string s).

End Base64.
(** ** WebSocket.js: the frame codec *)

Module WebSocketCodec.

(** [rawSendPong]: [os.write(0x8a); os.write(0)] on the raw socket stream. *)
Definition rawSendPong : M Out unit :=
  modify (sock_write_byte 0x8a) ;; modify (sock_write_byte 0).

Definition rawSendPing : M Out unit :=
  modify (sock_write_byte 0x89) ;; modify (sock_write_byte 0).

(** [rawSendMessage(s)]: the length written is [s.length], the body is
    [decaf.toJavaByteArray(s)]. *)
Definition rawSendMessage {H : Host} (s : string) : M Out unit :=
  let len := JS.length s in
  modify (sock_write_byte 0x81) ;;
  (if len <? 126 then
     modify (sock_write_byte len)
   else if len <? 65536 then
     modify (sock_write_byte 0x7e) ;;
     modify (sock_write_byte (JS.and (JS.shr len 8) 0xff)) ;;
     modify (sock_write_byte (JS.and len 0xff))
   else
     modify (sock_write_byte 0x7f) ;;
     modify (sock_write_byte (JS.and (JS.shr len 56) 0xff)) ;;
     modify (sock_write_byte (JS.and (JS.shr len 48) 0xff)) ;;
     modify (sock_write_byte (JS.and (JS.shr len 40) 0xff)) ;;
     modify (sock_write_byte (JS.and (JS.shr len 32) 0xff)) ;;
     modify (sock_write_byte (JS.and (JS.shr len 24) 0xff)) ;;
     modify (sock_write_byte (JS.and (JS.shr len 16) 0xff)) ;;
     modify (sock_write_byte (JS.and (JS.shr len 8) 0xff)) ;;
     modify (sock_write_byte (JS.and (JS.shr len 0) 0xff))) ;;
  modify (sock_write_bytes (toJavaByteArray s)).

(** The 64-bit length: [for (i = 0; i < 8; i++) { len = len << 8; len |= next(); }] *)
Fixpoint readLen64 (n : nat) (len : Z) : M Conn Z :=
  match n with
  | O => ret len
  | Datatypes.S n' =>
      b <- readByte ;
      readLen64 n' (JS.or (JS.shl len 8) b)
  end.

(** The payload loops of [getMessage]:
    [for (i = 0; i < len; i++) { message += String.fromCharCode(next() ^ mask[ndx++]); ndx %= 4; }]
    and the unmasked variant. The recursion is on the bytes still to come:
    every iteration either reads one or throws. *)
Fixpoint readPayload (bytes : list ascii) (i len : Z) (mask : option (list Z))
    (ndx : Z) (message : string) : result string * list ascii :=
  if i <? len then
    match bytes with
    | [] => (Throw EOF, [])
    | b :: rest =>
        match mask with
        | Some m =>
            readPayload rest (i + 1) len mask ((ndx + 1) mod 4)
              (message +:+ String (JS.fromCharCode (JS.xor (JS.charCode b) (nth (Z.to_nat ndx) m 0))) "")
        | None =>
            readPayload rest (i + 1) len mask (ndx mod 4)
              (message +:+ String (JS.fromCharCode (JS.charCode b)) "")
        end
    end
  else (Ok message, bytes).

Definition payload (len : Z) (mask : option (list Z)) (message : string) : M Conn string :=
  fun c =>
    let '(r, rest) := readPayload (c_is c) 0 len mask 0 message in
    (r, set_is rest c).

(** One turn of the [while (!fin)] loop: [Some (fin, message)] when the
    frame has been read, [None] when it is a close frame
    ([return false] from inside the loop). *)
Definition frame (message : string) : M Conn (option (bool * string)) :=
  opCode <- readByte ;
  let fin := JS.truthy (JS.and opCode 0x80) in
  let opCode := JS.and opCode 0x7f in
  if opCode =? 0x8 then ret None
  else
    (if opCode =? 0x9 then sending rawSendPong else ret tt) ;;
    len <- readByte ;
    let masked := JS.truthy (JS.and len 0x80) in
    let len := JS.and len 0x7f in
    len <- (if len =? 0x7e then
              a <- readByte ; b <- readByte ; ret (JS.or (JS.shl a 8) b)
            else if len =? 0x7f then readLen64 8 0
            else ret len) ;
    message <- (if masked then
                  m0 <- readByte ; m1 <- readByte ; m2 <- readByte ; m3 <- readByte ;
                  payload len (Some [m0; m1; m2; m3]) message
                else payload len None message) ;
    ret (Some (if len =? 0 then false else fin, message)).

(** [while (!fin) { ... } return message;] *)
Fixpoint frames (fuel : nat) (message : string) : M Conn (option string) :=
  match fuel with
  | O => diverge
  | Datatypes.S fuel' =>
      r <- frame message ;
      match r with
      | None => ret None
      | Some (true, message') => ret (Some message')
      | Some (false, message') => frames fuel' message'
      end
  end.

(** [getMessage(is)]: [Some message], or [None] for [false]. Every turn of
    the loop reads at least two bytes or throws, so the number of bytes
    still to come bounds the number of turns. *)
Definition getMessage : M Conn (option string) :=
  fun c =>
    try_catch (frames (Datatypes.S (List.length (c_is c))) "")
              (fun _ => ret None) c.

End WebSocketCodec.

(** ** Request.js *)

Module Request.
Section WithHost.
Context {H : Host}.

(** A property value of a multipart part object. *)
Inductive JSV : Type :=
| VUndefined
| VString (s : string)
| VNumber (z : Z).

(** A value of [req.data]: a decoded string, a multipart part object, or a
    property of the parsed JSON body. *)
Inductive DataVal : Type :=
| DString (s : string)
| DPart (p : gmap string JSV)
| DJson (j : JVal).

(** [req.post] *)
Inductive Post : Type :=
| PostUnset
| PostString (s : string)
| PostJson (j : JVal).

Record t : Type := mk {
  queryParams : gmap string string;
  uri : string;
  method : string;
  proto : string;
  headers : gmap string (option string);
  host : string;
  port : string;
  remote_addr : string;
  cookies : gmap string string;
  post : Post;
  data : gmap string DataVal;
  gzip : bool
}.

(** [headers[name]]: [None] is [undefined] (the name is absent, or its
    line had no value). *)
Definition header (hs : gmap string (option string)) (name : string) : option string :=
  match hs !! name with
  | Some v => v
  | None => None
  end.

(** [v || d] on an optional string. *)
Definition or_else (v : option string) (d : string) : string :=
  match v with
  | Some s => if JS.nonempty s then s else d
  | None => d
  end.

Definition TypeError : Exn := ThrownError "TypeError".
Definition SyntaxError : Exn := ThrownError "SyntaxError".
Definition URIError : Exn := ThrownError "URIError".

(** One [name=value] pair of the query string; the [try] of the source
    swallows both the missing value and the malformed escape. *)
Definition queryPair (acc : gmap string string * gmap string DataVal) (part : string)
    : gmap string string * gmap string DataVal :=
  match JStr.split (JStr.sep_string "=") part with
  | name :: value :: _ =>
      match decodeURIComponent (JStr.replace_char "+" " " value) with
      | Some v => (<[name := v]> (fst acc), <[name := DString v]> (snd acc))
      | None => acc
      end
  | _ => acc
  end.

Definition parseQuery (q : string) (acc : gmap string string * gmap string DataVal)
    : gmap string string * gmap string DataVal :=
  fold_left queryPair (JStr.split (JStr.sep_string "&") q) acc.

(** [for (var i = 0; i < 64; i++)]: the header lines that are kept. The
    boolean is [done]. *)
Fixpoint readHeaders (n : nat) (hs : gmap string (option string))
    : M Conn (bool * gmap string (option string)) :=
  match n with
  | O => ret (false, hs)
  | Datatypes.S n' =>
      line <- readLine ;
      match line with
      | None => throw EOF
      | Some l =>
          if (String.length l =? 0)%nat then ret (true, hs)
          else
            let parts := JStr.split JStr.sep_colon_spaces l in
            readHeaders n' (<[JStr.toLowerCase (hd EmptyString parts) := parts !! 1%nat]> hs)
      end
  end.

(** [while (!done)]: the header lines beyond the 64th are read and dropped. *)
Fixpoint skipHeaders (fuel : nat) : M Conn unit :=
  match fuel with
  | O => diverge
  | Datatypes.S fuel' =>
      line <- readLine ;
      match line with
      | None => throw EOF
      | Some l => if (String.length l =? 0)%nat then ret tt else skipHeaders fuel'
      end
  end.

(** The cookies: the [try] surrounds the whole iteration, so the first
    cookie that fails ends it. *)
Fixpoint parseCookies (cs : list string) (acc : gmap string string * gmap string DataVal)
    : gmap string string * gmap string DataVal :=
  match cs with
  | [] => acc
  | cookie :: rest =>
      match JStr.split (JStr.sep_string "=") cookie with
      | name :: value :: _ =>
          match decodeURIComponent (JStr.replace_char "+" EmptyString value) with
          | Some v => parseCookies rest (<[name := v]> (fst acc), <[name := DString v]> (snd acc))
          | None => acc
          end
      | _ => acc
      end
  end.

(** *** The body: multipart/form-data *)

(** [contentType.replace(/^.*?boundary=/i, '')]: what follows the first
    [boundary=], when no line terminator comes before it. *)
Fixpoint afterBoundary (s : string) : option string :=
  if String.prefix "boundary=" (JStr.toLowerCase s) then Some (JStr.substr 9 s)
  else
    match s with
    | String c rest =>
        if Ascii.eqb c "010" || Ascii.eqb c "013" then None else afterBoundary rest
    | EmptyString => None
    end.

Definition boundaryOf (contentType : string) : string :=
  default contentType (afterBoundary contentType).

(** [s.slice(0, -2)] *)
Definition dropLast2 (s : string) : string :=
  String.substring 0 (String.length s - 2) s.

(** The pieces of a [Content-Disposition] value. *)
Definition disposition (part : gmap string JSV) (d : string) : gmap string JSV :=
  match JStr.split (JStr.sep_string "=") d with
  | key :: value :: _ => <[JStr.toLowerCase key := VString (JStr.replace_char "034" EmptyString value)]> part
  | _ => part
  end.

Definition jsv (v : option string) : JSV :=
  match v with Some s => VString s | None => VUndefined end.

(** The header block of one part: [while (true) { ... }]. Every turn but
    the last shortens [part]. *)
Fixpoint partHeaders (fuel : nat) (part : string) (mimePart : gmap string JSV)
    : result (string * gmap string JSV) :=
  match fuel with
  | O => Diverge
  | Datatypes.S fuel' =>
      let line := hd EmptyString (JStr.split (JStr.sep_string (String "013" (String "010" EmptyString))) part) in
      let len := String.length line in
      let part := JStr.substr (len + 2) part in
      if (len =? 0)%nat then Ok (part, mimePart)
      else
        let mimeparts := JStr.split (JStr.sep_string ": ") line in
        let mimeKey := hd EmptyString mimeparts in
        let mimeValue := mimeparts !! 1%nat in
        let key := JStr.toLowerCase mimeKey in
        if String.eqb key "content-disposition" then
          match mimeValue with
          | None => Throw TypeError
          | Some v =>
              partHeaders fuel' part
                (fold_left disposition (JStr.split JStr.sep_semicolon_spaces v) mimePart)
          end
        else if String.eqb key "content-type" then
          partHeaders fuel' part (<["contentType" := jsv mimeValue]> mimePart)
        else
          partHeaders fuel' part (<[key := jsv mimeValue]> mimePart)
  end.

(** The property name a value is stored under. *)
Definition propertyName (v : option JSV) : string :=
  match v with
  | Some (VString s) => s
  | Some (VNumber z) => pretty z
  | Some VUndefined | None => "undefined"
  end.

Definition mimePart (data : gmap string DataVal) (part : string) : result (gmap string DataVal) :=
  let part := dropLast2 (JStr.substr 2 part) in
  match partHeaders (Datatypes.S (String.length part)) part ∅ with
  | Ok (content, mp) =>
      let mp := <["content" := VString content]> mp in
      let mp := <["size" := VNumber (JS.length content)]> mp in
      Ok (<[propertyName (mp !! "name") := DPart mp]> data)
  | Throw e => Throw e
  | Diverge => Diverge
  end.

Fixpoint mimeParts (parts : list string) (data : gmap string DataVal)
    : result (gmap string DataVal) :=
  match parts with
  | [] => Ok data
  | part :: rest =>
      match mimePart data part with
      | Ok data' => mimeParts rest data'
      | r => r
      end
  end.

(** [mimeParts.shift(); mimeParts.pop();] *)
Definition shift_pop (l : list string) : list string := removelast (tl l).

Definition multipart (contentType post : string) (data : gmap string DataVal)
    : result (gmap string DataVal) :=
  mimeParts (shift_pop (JStr.split (JStr.sep_string ("--" +:+ boundaryOf contentType)) post)) data.

(** *** The body: application/x-www-form-urlencoded *)

(** One pair of the body. Nothing catches here: a pair without [=] is a
    TypeError, a malformed escape a URIError. *)
Definition formPair (data : gmap string DataVal) (part : string) : result (gmap string DataVal) :=
  match JStr.split (JStr.sep_string "=") part with
  | name :: value :: _ =>
      match decodeURIComponent (JStr.replace_char "+" " " value) with
      | Some v => Ok (<[name := DString v]> data)
      | None => Throw URIError
      end
  | _ => Throw TypeError
  end.

Fixpoint formPairs (parts : list string) (data : gmap string DataVal)
    : result (gmap string DataVal) :=
  match parts with
  | [] => Ok data
  | part :: rest =>
      match formPair data part with
      | Ok data' => formPairs rest data'
      | r => r
      end
  end.

Definition urlencoded (post : string) (data : gmap string DataVal)
    : result (gmap string DataVal) :=
  if JStr.contains "&" post && JStr.contains "=" post then
    formPairs (JStr.split (JStr.sep_string "&") post) data
  else Ok (<["post" := DString post]> data).

(** *** The body: dispatch on the content type *)

Definition lift {A} (r : result A) : M Conn A := fun c => (r, c).

Definition defaultMaxUpload : Z := 10 * 1024 * 1024.

(** [maxUpload || (10 * 1024 * 1024)] *)
Definition effectiveMaxUpload (maxUpload : option Z) : Z :=
  match maxUpload with
  | Some m => if JS.truthy m then m else defaultMaxUpload
  | None => defaultMaxUpload
  end.

Definition tooLarge (maxUpload : Z) : Exn :=
  ThrownError ("413 File upload exceeds " +:+ pretty maxUpload +:+ " bytes").

(** The decoding of the body that was read, by content type: yields
    [req.post] and [req.data]. The bytes are taken as Latin-1 for a
    multipart body and for a body of any other type, as UTF-8 for a
    urlencoded and for a JSON body. *)
Definition decode (hs : gmap string (option string)) (raw : list ascii)
    (data : gmap string DataVal) : result (Post * gmap string DataVal) :=
  let contentType := or_else (header hs "content-type") EmptyString in
  if JStr.contains "multipart/form-data" (JStr.toLowerCase contentType) then
    match multipart contentType (latin1String raw) data with
    | Ok data' => Ok (PostUnset, data')
    | Throw e => Throw e
    | Diverge => Diverge
    end
  else if JStr.contains "application/x-www-form-urlencoded" contentType then
    match urlencoded (utf8String raw) data with
    | Ok data' => Ok (PostUnset, data')
    | Throw e => Throw e
    | Diverge => Diverge
    end
  else if JStr.contains "application/json" contentType then
    match JSON_parse (utf8String raw) with
    | None => Throw SyntaxError
    | Some j =>
        Ok (PostJson j,
            fold_left (fun d kv => <[fst kv := DJson (snd kv)]> d) (JSON_props j) data)
    end
  else
    Ok (PostString (latin1String raw), <["post" := DString (latin1String raw)]> data).

(** The [// process POST data] part of the constructor: the declared
    length, the limit, the read and the decoding. *)
Definition body (maxUpload : Z) (hs : gmap string (option string))
    (data : gmap string DataVal) : M Conn (Post * gmap string DataVal) :=
  match JStr.parseInt (or_else (header hs "content-length") "0") 10 with
  | None => ret (PostUnset, data)
  | Some contentLength =>
      if JS.truthy contentLength then
        if contentLength >? maxUpload then throw (tooLarge maxUpload)
        else
          raw <- read contentLength ;
          lift (decode hs raw data)
      else ret (PostUnset, data)
  end.

(** *** The constructor *)

(** What the constructor has established when it reaches
    [// process POST data]. *)
Record Head : Type := mkHead {
  h_queryParams : gmap string string;
  h_uri : string;
  h_method : string;
  h_proto : string;
  h_headers : gmap string (option string);
  h_host : string;
  h_port : string;
  h_remote_addr : string;
  h_cookies : gmap string string;
  h_data : gmap string DataVal
}.

(** The request line, the header block, host and port, the cookies. *)
Definition head : M Conn Head :=
  line <- readLine ;
  match line with
  | None => throw EOF
  | Some line =>
      let parts := JStr.split JStr.sep_spaces line in
      match parts !! 1%nat with
      | None => throw TypeError
      | Some uri =>
          let uriParts := JStr.split (JStr.sep_string "?") uri in
          let qd :=
            match uriParts !! 1%nat with
            | Some q => if JS.nonempty q then parseQuery q (∅, ∅) else (∅, ∅)
            | None => (∅, ∅)
            end in
          hs <- readHeaders 64 ∅ ;
          c <- get ;
          (if fst hs then ret tt else skipHeaders (Datatypes.S (List.length (c_is c)))) ;;
          let hs := snd hs in
          let hostport :=
            match header hs "host" with
            | Some h =>
                if JS.nonempty h then
                  let hp := JStr.split (JStr.sep_string ":") h in
                  (hd EmptyString hp, or_else (hp !! 1%nat) "80")
                else ("localhost", pretty (c_serverPort c))
            | None => ("localhost", pretty (c_serverPort c))
            end in
          let cd :=
            match header hs "cookie" with
            | Some ck =>
                if JS.nonempty ck then
                  parseCookies (JStr.split JStr.sep_semicolon_spaces ck) (∅, snd qd)
                else (∅, snd qd)
            | None => (∅, snd qd)
            end in
          ret (mkHead (fst qd) (hd EmptyString uriParts)
                 (JStr.toUpperCase (hd EmptyString parts))
                 (JStr.toUpperCase (or_else (parts !! 2%nat) "http/0.9"))
                 hs (fst hostport) (snd hostport) (c_remoteAddress c)
                 (fst cd) (snd cd))
      end
  end.

(** The request object, from what the head and the body established. *)
Definition build (h : Head) (pd : Post * gmap string DataVal) : t :=
  mk (h_queryParams h) (h_uri h) (h_method h) (h_proto h) (h_headers h)
     (h_host h) (h_port h) (h_remote_addr h) (h_cookies h)
     (fst pd) (snd pd)
     (match header (h_headers h) "accept-encoding" with
      | Some g => JS.nonempty g && JStr.contains "gzip" g
      | None => false
      end).

(** [new Request(is, maxUpload)]; [maxUpload] is [None] when the argument
    is left out, as [handleRequest] does. *)
Definition Request (maxUpload : option Z) : M Conn t :=
  h <- head ;
  pd <- body (effectiveMaxUpload maxUpload) (h_headers h) (h_data h) ;
  ret (build h pd).

End WithHost.
End Request.
(** ** Response.js *)

Module Response.
Section WithHost.
Context {H : Host}.

Definition responseCodeText (status : Z) : option string :=
  match status with
  | 100 => Some "Continue"
  | 101 => Some "Switching Protocols"
  | 200 => Some "OK"
  | 201 => Some "Created"
  | 202 => Some "Accepted"
  | 203 => Some "Non-Authoritative Information"
  | 204 => Some "No Content"
  | 205 => Some "Reset Content"
  | 206 => Some "Partial Content"
  | 300 => Some "Multiple Choices"
  | 301 => Some "Moved Permanently"
  | 302 => Some "Found"
  | 303 => Some "See Other"
  | 304 => Some "Not Modified"
  | 305 => Some "Use Proxy"
  | 307 => Some "Temporary Redirect"
  | 400 => Some "Bad Request"
  | 401 => Some "Unauthorized"
  | 402 => Some "Payment Required"
  | 403 => Some "Forbidden"
  | 404 => Some "Not Found"
  | 405 => Some "Method Not Allowed"
  | 406 => Some "Not Acceptable"
  | 407 => Some "Proxy Authentication Required"
  | 408 => Some "Request Timeout"
  | 409 => Some "Conflict"
  | 410 => Some "Gone"
  | 411 => Some "Length Required"
  | 412 => Some "Precondition Failed"
  | 413 => Some "Request Entity Too Large"
  | 414 => Some "Request-URI Too Long"
  | 415 => Some "Unsupported Media Type"
  | 416 => Some "Request Range Not Satisfiable"
  | 417 => Some "Expectation Failed"
  | 500 => Some "Internal Server Error"
  | 501 => Some "Not Implemented"
  | 502 => Some "Bad Gateway"
  | 503 => Some "Service Unavailable"
  | 504 => Some "Gateway Timeout"
  | 505 => Some "HTTP Version Not Supported"
  | _ => None
  end.

(** A JavaScript object whose property order is observed ([for ... in]):
    assignment replaces in place or appends. *)
Fixpoint obj_set {V} (k : string) (v : V) (o : list (string * V)) : list (string * V) :=
  match o with
  | [] => [(k, v)]
  | (k', v') :: rest =>
      if String.eqb k k' then (k, v) :: rest else (k', v') :: obj_set k v rest
  end.

Fixpoint obj_get {V} (k : string) (o : list (string * V)) : option V :=
  match o with
  | [] => None
  | (k', v') :: rest => if String.eqb k k' then Some v' else obj_get k rest
  end.

(** [decaf.extend(o, more)] *)
Definition obj_extend {V} (o more : list (string * V)) : list (string * V) :=
  fold_left (fun o kv => obj_set (fst kv) (snd kv) o) more o.

Record Cookie : Type := mkCookie {
  value : option string;
  expires : option string;
  path : option string;
  domain : option string
}.

(** The response object. Header values are kept as the strings they are
    written as. [chunked] is [undefined] until [write] sets it; only its
    truthiness is observed. [headersKept] is no property of the object: it
    says whether [res.headers] is still the object the constructor
    created. The worker keeps a reference to that object
    ([headers = response.headers]) and writes to it; application code that
    assigns another object to [res.headers] parts the two. *)
Record t : Type := mk {
  req : Request.t;
  headersSent : bool;
  status : Z;
  contentLength : Z;
  cookies : option (list (string * Cookie));
  headers : list (string * string);
  proto : string;
  chunked : bool;
  headersKept : bool
}.

(** [new Response(os, req)] *)
Definition Response (r : Request.t) : t :=
  mk r false 200 0 None [] (Request.proto r) false true.

(** The state the methods of a response run in: the response object and
    the output side of the connection. *)
Record HS : Type := mkHS {
  hs_res : t;
  hs_out : Out
}.

Definition this : M HS t := fun s => (Ok (hs_res s), s).
Definition update (f : t -> t) : M HS unit := modify (fun s => mkHS (f (hs_res s)) (hs_out s)).
Definition os (o : OsOp) : M HS unit := modify (fun s => mkHS (hs_res s) (os_op o (hs_out s))).
Definition dumpText (e : Exn) : M HS unit :=
  modify (fun s => mkHS (hs_res s) (console_exception e (hs_out s))).

Definition set_status (z : Z) (r : t) : t :=
  mk (req r) (headersSent r) z (contentLength r) (cookies r) (headers r) (proto r) (chunked r) (headersKept r).
Definition set_header (k v : string) (r : t) : t :=
  mk (req r) (headersSent r) (status r) (contentLength r) (cookies r)
     (obj_set k v (headers r)) (proto r) (chunked r) (headersKept r).
Definition set_headers (hs : list (string * string)) (r : t) : t :=
  mk (req r) (headersSent r) (status r) (contentLength r) (cookies r) hs (proto r) (chunked r) (headersKept r).
Definition set_headersSent (b : bool) (r : t) : t :=
  mk (req r) b (status r) (contentLength r) (cookies r) (headers r) (proto r) (chunked r) (headersKept r).
Definition set_chunked (b : bool) (r : t) : t :=
  mk (req r) (headersSent r) (status r) (contentLength r) (cookies r) (headers r) (proto r) b (headersKept r).
(** [res.headers = hs], as application code may write it. *)
Definition assign_headers (hs : list (string * string)) (r : t) : t :=
  mk (req r) (headersSent r) (status r) (contentLength r) (cookies r) hs (proto r) (chunked r)
     false.
Definition set_cookie (k : string) (c : Cookie) (r : t) : t :=
  mk (req r) (headersSent r) (status r) (contentLength r)
     (Some (obj_set k c (default [] (cookies r)))) (headers r) (proto r) (chunked r) (headersKept r).

(** [res.flush()] *)
Definition flush : M HS unit := os Flush.

(** [res.destroy()] *)
Definition destroy : M HS unit :=
  me <- this ;
  (if chunked me then os (Writeln "0") ;; os (Writeln EmptyString) ;; flush else ret tt) ;;
  update (set_chunked false).

(** The [expires] argument of [setCookie]: a [Date] or a string. *)
Inductive Expires : Type :=
| ExpiresDate (ms : Z)
| ExpiresString (s : string).

Definition truthy_string (s : option string) : option string :=
  match s with
  | Some v => if JS.nonempty v then Some v else None
  | None => None
  end.

(** [res.setCookie(key, value, expires, path, domain)] *)
Definition setCookie (key value : string) (exp : option Expires) (path domain : option string)
    : M HS unit :=
  update (set_cookie key
    (mkCookie (Some value)
       (match exp with
        | Some (ExpiresDate ms) => Some (toGMTString ms)
        | Some (ExpiresString s) => truthy_string (Some s)
        | None => None
        end)
       (Some (default "/" (truthy_string path)))
       (truthy_string domain))).

(** [res.unsetCookie(key)]: the cookie expires one day before now. *)
Definition unsetCookie (key : string) : M HS unit :=
  me <- this ;
  let cookie := default (mkCookie None None None None)
                  (obj_get key (default [] (cookies me))) in
  update (set_cookie key
    (mkCookie (value cookie) (Some (toGMTString (now - 86400 * 1000)))
       (Some (default "/" (truthy_string (path cookie)))) (domain cookie))).


(** [res.setHeader(key, value)] *)
Definition setHeader (key value : string) : M HS unit := update (set_header key value).

Definition cookieLine (kc : string * Cookie) : string :=
  let c := snd kc in
  "Set-Cookie: " +:+ fst kc +:+ "=" +:+ encodeURIComponent (default "undefined" (value c))
  +:+ match truthy_string (expires c) with Some e => "; Expires=" +:+ e | None => EmptyString end
  +:+ match truthy_string (path c) with Some p => "; Path=" +:+ p | None => EmptyString end
  +:+ match truthy_string (domain c) with
      | Some d => "; Domain=" +:+ encodeURIComponent d
      | None => EmptyString
      end.

Fixpoint writelns (ls : list string) : M HS unit :=
  match ls with
  | [] => ret tt
  | l :: rest => os (Writeln l) ;; writelns rest
  end.

(** [res.sendHeaders()] *)
Definition sendHeaders : M HS unit :=
  me <- this ;
  if headersSent me then ret tt
  else
    os (Writeln (proto me +:+ " " +:+ pretty (status me) +:+ " "
                 +:+ default "undefined" (responseCodeText (status me)))) ;;
    os (Writeln ("Date: " +:+ toGMTString now)) ;;
    writelns (List.map (fun kv => fst kv +:+ ": " +:+ snd kv) (headers me)) ;;
    (match cookies me, truthy_string (obj_get "Set-Cookie" (headers me)) with
     | Some cs, None => writelns (List.map cookieLine cs)
     | _, _ => ret tt
     end) ;;
    os (Writeln EmptyString) ;;
    update (set_headersSent true).

(** [n.toString(16)] for a length. *)
Definition hexString (n : Z) : string :=
  match n with
  | Zpos p => HexString.Raw.of_pos p EmptyString
  | _ => "0"
  end.

(** [res.write(s)] *)
Definition write (s : string) : M HS unit :=
  me <- this ;
  (if headersSent me then ret tt
   else setHeader "Transfer-Encoding" "Chunked" ;; sendHeaders ;; update (set_chunked true)) ;;
  os (Writeln (hexString (JS.length s))) ;;
  os (Writeln s) ;;
  os Flush.

(** The [body] argument of [end]: a string or an array of lines. *)
Inductive Body : Type :=
| BodyString (s : string)
| BodyArray (lines : list string).

Definition join_lines (ls : list string) : string :=
  String.concat (String "010" EmptyString) ls.

(** [res.end(body, gzip)] *)
Definition end_ (body : option Body) (gzip : bool) : M HS unit :=
  let text :=
    match body with
    | Some (BodyString s) => truthy_string (Some s)
    | Some (BodyArray ls) => Some (join_lines ls)
    | None => None
    end in
  match text with
  | Some s =>
      let bytes := toJavaByteArray s in
      let bytes := if gzip then gzip_compress bytes else bytes in
      (if gzip then update (set_header "Content-Encoding" "gzip") else ret tt) ;;
      update (set_header "Content-Length" (pretty (Z.of_nat (List.length bytes)))) ;;
      sendHeaders ;;
      os Flush ;;
      os (WriteBytes bytes) ;;
      os Flush
  | None => sendHeaders ;; os Flush
  end.





(** [res.stop()] *)
Definition stop {A} : M HS A := throw RES_STOP.

(** [res.redirect(url)]. The comparison with the nine-character literal
    of the source never succeeds on an eight-character prefix, and
    [me.port] is undefined, so the port is always appended. *)
Definition redirect {A} (url : string) : M HS A :=
  update (set_status 303) ;;
  me <- this ;
  let url :=
    if negb (String.eqb (String.substring 0 7 url) "http://") then
      "http://" +:+ Request.host (req me) +:+ ":" +:+ Request.port (req me) +:+ url
    else url in
  update (set_header "Location" url) ;;
  end_ None false ;;
  stop.

(** The [modifiedSince] argument of [sendFile] and [sendBytes]: the text
    of an If-Modified-Since header, or a number. *)
Inductive ModifiedSince : Type :=
| SinceString (s : string)
| SinceNumber (n : Z).

Definition truthy_since (m : option ModifiedSince) : option ModifiedSince :=
  match m with
  | Some (SinceString s) => if JS.nonempty s then m else None
  | Some (SinceNumber n) => if JS.truthy n then m else None
  | None => None
  end.

(** [filename.indexOf('.') !== -1 ? filename.substr(filename.lastIndexOf('.') + 1) : ''] *)
Definition extension (filename : string) : string :=
  match JStr.split (JStr.sep_string ".") filename with
  | _ :: (_ :: _) as pieces => List.last pieces EmptyString
  | _ => EmptyString
  end.

(** The copy loop of [sendFile]: [inFile.read(buf)] fills the buffer of
    [4096 * 16] bytes as far as the file goes. *)
Fixpoint copyFile (fuel : nat) (content : list ascii) (remaining : Z) : M HS unit :=
  match fuel with
  | O => diverge
  | Datatypes.S fuel' =>
      if remaining >? 0 then
        let chunk := firstn (4096 * 16) content in
        let actual := if (List.length chunk =? 0)%nat then -1 else Z.of_nat (List.length chunk) in
        if actual <=? 0 then ret tt
        else
          os (WriteBytes chunk) ;;
          copyFile fuel' (skipn (4096 * 16) content) (remaining - actual)
      else ret tt
  end.

(** [modified < modifiedSince] of [sendFile], where [modified] is in whole
    seconds. A string is compared as [Date.parse(s) / 1000], which need not
    be whole: [a < ms / 1000] is [a * 1000 < ms]. A NaN compares false. *)
Definition fileNotModified (modified : Z) (since : ModifiedSince) : bool :=
  match since with
  | SinceString s =>
      match Date_parse s with
      | Some ms => modified * 1000 <? ms
      | None => false
      end
  | SinceNumber n => modified <? n
  end.

(** The [try] block of [sendFile]: status 200, the length, the headers,
    the content. Its [catch] prints the exception. *)
Definition sendFileContent (content : list ascii) (size : Z) : M HS unit :=
  try_catch
    (update (set_status 200) ;;
     update (set_header "Content-Length" (pretty size)) ;;
     sendHeaders ;;
     os Flush ;;
     copyFile (Datatypes.S (List.length content)) content size ;;
     os Flush)
    dumpText.

(** [res.sendFile(filename, modifiedSince)]. A file that does not exist
    has modification time 0 and length 0. *)
Definition sendFile (filename : string) (modifiedSince : option ModifiedSince) : M HS unit :=
  let file := default (0, []) (files filename) in
  let modified := fst file in
  let size := Z.of_nat (List.length (snd file)) in
  if modified =? 0 then throw (ThrownError "404")
  else
    update (set_header "Content-Type"
              (default "text/plain" (truthy_string (mimeTypes (extension filename))))) ;;
    let modified := Z.quot modified 1000 in
    update (set_header "last-modified" (toGMTString (modified * 1000))) ;;
    match truthy_since modifiedSince with
    | Some since =>
        if fileNotModified modified since then
          update (set_status 304) ;; sendHeaders
        else sendFileContent (snd file) size
    | None => sendFileContent (snd file) size
    end.

(** [parseInt(modifiedSince / 1000, 10)] of [sendBytes], after
    [Date.parse] on a string; [None] is NaN. *)
Definition sinceSeconds (since : ModifiedSince) : option Z :=
  match since with
  | SinceString s => (fun ms => Z.quot ms 1000) <$> Date_parse s
  | SinceNumber n => Some (Z.quot n 1000)
  end.

(** [lastModified <= modifiedSince] of [sendBytes], both in whole seconds. *)
Definition bytesNotModified (lastModified : Z) (since : ModifiedSince) : bool :=
  match sinceSeconds since with
  | Some seconds => lastModified <=? seconds
  | None => false
  end.

(** [res.sendBytes(bytes, mimeType, lastModified, modifiedSince)]; the
    [last-modified] header holds a [Date] object, written as its string
    conversion. *)
Definition sendBytes (bytes : list ascii) (mimeType : string) (lastModified : option Z)
    (modifiedSince : option ModifiedSince) : M HS unit :=
  let size := Z.of_nat (List.length bytes) in
  let content :=
    update (set_header "Content-Length" (pretty size)) ;;
    sendHeaders ;;
    flush ;;
    os (WriteBytes bytes) ;;
    os Flush in
  update (set_header "Content-Type" mimeType) ;;
  match lastModified with
  | Some lm =>
      if JS.truthy lm then
        let lastModified := Z.quot lm 1000 in
        update (set_header "last-modified" (dateToString (lastModified * 1000))) ;;
        match truthy_since modifiedSince with
        | Some since =>
            if bytesNotModified lastModified since then
              update (set_status 304) ;; sendHeaders ;; flush
            else content
        | None => content
        end
      else content
  | None => content
  end.

End WithHost.
End Response.
(** ** WebSocket.js: handshake, registry and message loop *)

Module WebSocket.
Section WithHost.
Context {H : Host}.

Definition GUID : string := "258EAFA5-E914-47DA-95CA-C5AB0DC85B11".

(** [while (hex.length) { buf += String.fromCharCode(parseInt(hex.substr(0, 2), 16)); hex = hex.substr(2); }] *)
Fixpoint unhex (hex buf : string) : string :=
  match hex with
  | EmptyString => buf
  | String a EmptyString =>
      buf +:+ String (JStr.fromCharCode (JStr.parseInt (String a EmptyString) 16)) EmptyString
  | String a (String b rest) =>
      unhex rest
        (buf +:+ String (JStr.fromCharCode (JStr.parseInt (String a (String b EmptyString)) 16))
                   EmptyString)
  end.

(** [makeAccept(key)]; an absent key concatenates as the text
    [undefined]. *)
Definition makeAccept (key : option string) : string :=
  let hex := Sha1.sha1 (default "undefined" key +:+ GUID) in
  Base64.base64_encode (unhex hex EmptyString).

(** The WebSocket object: its request and its identifier. *)
Record t : Type := mk {
  req : Request.t;
  uuid_of : string
}.

(** What the application attached to a socket: [onmessage] and the
    listeners of the [message] event, [onclose] and the listeners of the
    [close] event. They send; they do not read the connection. *)
Record Listeners : Type := mkListeners {
  onmessage : string -> M Out unit;
  fire_message : string -> M Out unit;
  onclose : M Out unit;
  fire_close : M Out unit
}.

(** [new WebSocket(req, res)], taking the [n]-th identifier. *)
Definition WebSocket (n : nat) : M Response.HS t :=
  res <- Response.this ;
  let req := Response.req res in
  Response.update (Response.set_status 101) ;;
  Response.update (fun r =>
    Response.set_headers
      (Response.obj_extend (Response.headers r)
         [("Upgrade", "websocket");
          ("Connection", "upgrade");
          ("Sec-WebSocket-Accept",
           makeAccept (Request.header (Request.headers req) "sec-websocket-key"))]) r) ;;
  Response.sendHeaders ;;
  Response.flush ;;
  ret (mk req (uuid n)).

(** What the worker thread fires. *)
Inductive Event : Type :=
| StartRequest (r : Request.t)
| EndRequest
| Destroyed.

(** The process as one worker sees it: its connection, the registry
    [webSockets] of WebSocket.js, the number of identifiers handed out,
    and the events fired so far. *)
Record Proc : Type := mkProc {
  p_conn : Conn;
  webSockets : gmap string t;
  p_uuids : nat;
  p_events : list Event
}.

Definition set_conn (c : Conn) (p : Proc) : Proc :=
  mkProc c (webSockets p) (p_uuids p) (p_events p).
Definition set_webSockets (r : gmap string t) (p : Proc) : Proc :=
  mkProc (p_conn p) r (p_uuids p) (p_events p).
Definition fire (e : Event) (p : Proc) : Proc :=
  mkProc (p_conn p) (webSockets p) (p_uuids p) (p_events p ++ [e]).
Definition next_uuid : M Proc nat :=
  fun p => (Ok (p_uuids p), mkProc (p_conn p) (webSockets p) (Datatypes.S (p_uuids p)) (p_events p)).

(** Code of one connection, run in the process. *)
Definition on_conn {A} (m : M Conn A) : M Proc A :=
  fun p => let '(r, c) := m (p_conn p) in (r, set_conn c p).

(** [while ((message = me.getMessage(is)) !== false) { try { ... } catch (e) { console.exception(e); } }] *)
Fixpoint messages (fuel : nat) (ls : Listeners) : M Conn unit :=
  match fuel with
  | O => diverge
  | Datatypes.S fuel' =>
      message <- WebSocketCodec.getMessage ;
      match message with
      | None => ret tt
      | Some m =>
          try_catch (sending (onmessage ls m ;; fire_message ls m))
                    (fun e => sending (modify (console_exception e))) ;;
          messages fuel' ls
      end
  end.

(** [ws.run()]: every message read takes bytes from the connection, so
    the bytes still to come bound the number of turns. *)
Definition run (ws : t) (ls : Listeners) : M Proc unit :=
  modify (fun p => set_webSockets (<[uuid_of ws := ws]> (webSockets p)) p) ;;
  try_finally
    (p <- get ;
     on_conn (messages (Datatypes.S (List.length (c_is (p_conn p)))) ls))
    (try_finally
       (on_conn (sending (onclose ls ;; fire_close ls)))
       (modify (fun p => set_webSockets (delete (uuid_of ws) (webSockets p)) p))).

End WithHost.
End WebSocket.

(** ** Child.js: the worker *)

Module Child.
Section WithHost.
Context {H : Host}.

(** What the request handler returns: [false], or anything else. *)
Inductive HandlerRet : Type :=
| RetFalse
| RetOther.

(** The request handler [fn(req, res)] of the server: application code
    that works on the response and sends; it does not read the connection. *)
Definition Handler : Type := Request.t -> M Response.HS HandlerRet.

(** An entry of [server.webSockets]: the connect callback of a path. It
    yields what it attached to the socket. *)
Definition OnConnect : Type := WebSocket.t -> M Out WebSocket.Listeners.

(** Code on the response [res], run in the process. *)
Definition responding {A} (m : M Response.HS A) (res : Response.t)
    : M WebSocket.Proc (A * Response.t) :=
  fun p =>
    let '(r, s) := m (Response.mkHS res (c_out (WebSocket.p_conn p))) in
    let p' := WebSocket.set_conn (set_out (Response.hs_out s) (WebSocket.p_conn p)) p in
    match r with
    | Ok a => (Ok (a, Response.hs_res s), p')
    | Throw e => (Throw e, p')
    | Diverge => (Diverge, p')
    end.

(** [parts[0] || parts[1]], as a property name. *)
Definition firstSegment (uri : string) : string :=
  let parts := JStr.split (JStr.sep_string "/") uri in
  match Response.truthy_string (parts !! 0%nat) with
  | Some p => p
  | None => default "undefined" (parts !! 1%nat)
  end.

(** A socket to which nothing has been attached: [onmessage] and
    [onclose] are the empty functions the constructor sets, and no
    listener is registered. *)
Definition noListeners : WebSocket.Listeners :=
  WebSocket.mkListeners (fun _ => ret tt) (fun _ => ret tt) (ret tt) (ret tt).

(** The properties every object inherits from [Object.prototype]
    (ECMAScript 5.1, 15.2.4): functions that return when they are called
    with a socket, and attach nothing to it. *)
Definition objectPrototype : list string :=
  ["constructor"; "toString"; "toLocaleString"; "valueOf"; "hasOwnProperty";
   "isPrototypeOf"; "propertyIsEnumerable"].

(** What [webSockets[part]] finds when [webSockets] has no property of
    its own under the name: an inherited property, as the callback it is
    when it is called with the socket. *)
Definition inherited (part : string) : option OnConnect :=
  if bool_decide (part ∈ objectPrototype) then Some (fun _ => ret noListeners)
  else
    match engineProperty part with
    | Some true => Some (fun _ => ret noListeners)
    | Some false => Some (fun _ => throw Request.TypeError)
    | None => None
    end.

(** [webSockets[part]] on the plain object [server.webSockets]: the
    callback registered under the name, or else what the object
    inherits. *)
Definition lookupRoute (routes : gmap string OnConnect) (part : string) : option OnConnect :=
  match routes !! part with
  | Some onConnect => Some onConnect
  | None => inherited part
  end.

(** The upgrade branch of [handleRequest]. *)
Definition upgrade (routes : gmap string OnConnect) (request : Request.t) (response : Response.t)
    : M WebSocket.Proc bool :=
  match Request.header (Request.headers request) "upgrade" with
  | None => throw Request.TypeError
  | Some u =>
      if negb (String.eqb (JStr.toLowerCase u) "websocket") then ret false
      else
        match lookupRoute routes (firstSegment (Request.uri request)) with
        | Some onConnect =>
            n <- WebSocket.next_uuid ;
            ws <- responding (WebSocket.WebSocket n) response ;
            ls <- WebSocket.on_conn (sending (onConnect (fst ws))) ;
            WebSocket.run (fst ws) ls ;;
            ret false
        | None => ret false
        end
  end.

(** The response as [handleRequest] hands it to the handler, and the
    [keepAlive] it has decided on by then. *)
Definition prepare (connection : string) (response : Response.t) : Response.t * bool :=
  if String.eqb connection "keep-alive" then
    (Response.set_header "keep-alive" "timeout: 5; max = 10000000"
       (Response.set_header "Connection" "Keep-Alive" response), true)
  else (Response.set_header "Connection" "close" response, false).

(** [headers[key] = value] by the worker, after the handler: [headers] is
    the object the response was constructed with, which the response
    still holds or not. *)
Definition set_held_header (key value : string) (response : Response.t) : Response.t :=
  if Response.headersKept response then Response.set_header key value response
  else response.

(** The branches of [handleRequest] that are not the upgrade: the headers
    by the [Connection] header of the request, the handler, [Connection:
    close] if it returned [false], and [response.destroy()]. It yields
    [keepAlive], and the response object as it is left when
    [handleRequest] returns (the thread keeps it as [this.res]). *)
Definition respond (fn : Handler) (connection : string) (request : Request.t)
    (response : Response.t) : M WebSocket.Proc (bool * Response.t) :=
  let '(response, keepAlive) := prepare connection response in
  r <- responding (fn request) response ;
  let '(response, keepAlive) :=
    match fst r with
    | RetFalse => (set_held_header "Connection" "close" (snd r), false)
    | RetOther => (snd r, keepAlive)
    end in
  d <- responding Response.destroy response ;
  ret (keepAlive, snd d).

(** [handleRequest(is, os, fn, webSockets)] *)
Definition handleRequest (fn : Handler) (routes : gmap string OnConnect)
    : M WebSocket.Proc bool :=
  request <- WebSocket.on_conn (Request.Request None) ;
  let response := Response.Response request in
  modify (WebSocket.fire (WebSocket.StartRequest request)) ;;
  let connection :=
    JStr.toLowerCase (Request.or_else (Request.header (Request.headers request) "connection")
                        EmptyString) in
  if String.eqb connection "upgrade" then upgrade routes request response
  else
    r <- respond fn connection request response ;
    ret (fst r).

(** Only a Java exception carries [dumpText]. *)
Definition hasDumpText (e : Exn) : bool :=
  match e with ThrownJava _ => true | _ => false end.

(** One turn of [while (keepAlive)]: the [try] and its [catch]. The
    answer is whether the loop takes another turn ([break] and
    [keepAlive = false] both end it). The catch clause reads [e.dumpText]
    of whatever was thrown but the two strings it tests first: on [null]
    and [undefined] that is a TypeError, thrown by the catch clause
    itself, which nothing around the loop catches. *)
Definition turn (fn : Handler) (routes : gmap string OnConnect) : M WebSocket.Proc bool :=
  try_catch
    (keepAlive <- handleRequest fn routes ;
     modify (WebSocket.fire WebSocket.EndRequest) ;;
     ret keepAlive)
    (fun e =>
       if decide (e = THREAD_EXIT) then throw e
       else if decide (e = EOF) then ret false
       else if nullish e then throw Request.TypeError
       else if hasDumpText e then
         WebSocket.on_conn (sending (modify (console_exception e))) ;; ret false
       else if decide (e = RES_STOP) then ret true
       else WebSocket.on_conn (sending (modify (console_exception e))) ;; ret false).

(** [var keepAlive = true; while (keepAlive) { ... }] *)
Fixpoint requests (fuel : nat) (fn : Handler) (routes : gmap string OnConnect)
    : M WebSocket.Proc unit :=
  match fuel with
  | O => diverge
  | Datatypes.S fuel' =>
      again <- turn fn routes ;
      if again then requests fuel' fn routes else ret tt
  end.

(** The service of one accepted connection: the request loop, then
    [is.destroy(); os.destroy(); sock.destroy();]. Every turn that is
    followed by another has read a request line, so the bytes still to
    come bound the number of turns. *)
Definition connection (fn : Handler) (routes : gmap string OnConnect) : M WebSocket.Proc unit :=
  p <- get ;
  requests (Datatypes.S (List.length (c_is (WebSocket.p_conn p)))) fn routes ;;
  modify (WebSocket.fire WebSocket.Destroyed).

End WithHost.
End Child.

(** ** Server.js *)

Module Server.
Section WithHost.
Context {H : Host}.

(** The server object: the request handler and the connect callbacks of
    the WebSocket paths. *)
Record t : Type := mk {
  fn : Child.Handler;
  webSockets : gmap string Child.OnConnect
}.

(** [new Server(func)] and [createServer(func)] *)
Definition Server (func : Child.Handler) : t := mk func ∅.
Definition createServer (func : Child.Handler) : t := Server func.

(** [server.webSocket(path, onConnect)] *)
Definition webSocket (path : string) (onConnect : Child.OnConnect) (server : t) : t :=
  mk (fn server) (<[path := onConnect]> (webSockets server)).

(** What a worker started by [listen] does with a connection it has
    accepted: [Child] takes [server.fn] and [server.webSockets]. *)
Definition serve (server : t) : M WebSocket.Proc unit :=
  Child.connection (fn server) (webSockets server).

End WithHost.
End Server.
(** * Properties *)

(** ** Vocabulary of the statements *)

(** [m] never puts bytes back on the input. *)
Definition reads {A} (m : M Conn A) : Prop :=
  forall c r c', m c = (r, c') -> (List.length (c_is c') <= List.length (c_is c))%nat.

(** [m] comes to an end: it does not run out of fuel. *)
Definition halts {S A} (m : M S A) : Prop := forall s, fst (m s) <> Diverge.

(** The three ways a frame header writes its payload length. *)
Inductive LengthForm : Type := Len7 | Len16 | Len64.

(** The length byte, and its extension, of a frame of payload length 0. *)
Definition zeroLength (form : LengthForm) (masked : bool) : list ascii :=
  ascii_of_N (Z.to_N ((if masked then 0x80 else 0)
                      + match form with Len7 => 0 | Len16 => 0x7e | Len64 => 0x7f end))
  :: repeat zero (match form with Len7 => 0 | Len16 => 2 | Len64 => 8 end)%nat.

(** A whole frame of payload length 0: its first byte (FIN bit and opcode),
    the length, and the mask if there is one. *)
Definition emptyFrame (first : ascii) (form : LengthForm) (mask : option (ascii * ascii * ascii * ascii))
    : list ascii :=
  first :: zeroLength form (bool_decide (is_Some mask))
  ++ match mask with Some (m0, m1, m2, m3) => [m0; m1; m2; m3] | None => [] end.

(** The opcode in the first byte of a frame. *)
Definition opCode (first : ascii) : Z := JS.and (JS.charCode first) 0x7f.

(** The connection after the automatic pong, if the frame was a ping. *)
Definition ponged (first : ascii) (c : Conn) : Conn :=
  if opCode first =? 0x9 then set_out (sock_write_byte 0 (sock_write_byte 0x8a (c_out c))) c else c.




(** The percent-decoding of the example host: an escape below [%80] is its
    character, the sequences [%C2%xx] and [%C3%xx] are the characters 128
    to 255, any other escape is refused. *)
Fixpoint percentDecode (s : string) : option string :=
  match s with
  | EmptyString => Some EmptyString
  | String "%" (String h (String l rest)) =>
      match JStr.hex_value h, JStr.hex_value l with
      | Some a, Some b =>
          let n := a * 16 + b in
          if n <? 128 then String (JS.fromCharCode n) <$> percentDecode rest
          else if (n =? 0xC2) || (n =? 0xC3) then
            match rest with
            | String "%" (String h2 (String l2 rest2)) =>
                match JStr.hex_value h2, JStr.hex_value l2 with
                | Some a2, Some b2 =>
                    let m := a2 * 16 + b2 in
                    if (128 <=? m) && (m <? 192) then
                      String (JS.fromCharCode ((n - 0xC0) * 64 + (m - 128)))
                        <$> percentDecode rest2
                    else None
                | _, _ => None
                end
            | _ => None
            end
          else None
      | _, _ => None
      end
  | String "%" _ => None
  | String c rest => String c <$> percentDecode rest
  end.

(** The charset of the example host is UTF-8: a character below 128 is one
    byte, any other character of a string two. Bytes that are not the
    UTF-8 form of a character up to U+00FF are read as a question mark. *)
Definition utf8Bytes (s : string) : list ascii :=
  flat_map (fun c =>
              let n := JS.charCode c in
              if n <? 128 then [c]
              else [JS.fromCharCode (0xC0 + n / 64); JS.fromCharCode (0x80 + n mod 64)])
           (list_ascii_of_string s).

Fixpoint utf8Text (bs : list ascii) : string :=
  match bs with
  | [] => EmptyString
  | b :: rest =>
      let n := JS.charCode b in
      if n <? 128 then String b (utf8Text rest)
      else
        match rest with
        | b2 :: rest2 =>
            let m := JS.charCode b2 in
            if ((n =? 0xC2) || (n =? 0xC3)) && (128 <=? m) && (m <? 192) then
              String (JS.fromCharCode ((n - 0xC0) * 64 + (m - 128))) (utf8Text rest2)
            else String "?" (utf8Text rest)
        | [] => String "?" EmptyString
        end
  end.

(** A host for the worked examples: dates are written as their number of
    milliseconds, the charset is UTF-8, there is one file, [index.html],
    last modified at 1000000 ms, no JSON, and an engine that adds
    [__proto__] to [Object.prototype]. *)
Definition exampleHost : Host := {|
  now := 0;
  toGMTString := fun ms => pretty ms;
  dateToString := fun ms => pretty ms;
  Date_parse := fun s => JStr.parseInt s 10;
  encodeURIComponent := fun s => s;
  decodeURIComponent := percentDecode;
  toJavaByteArray := utf8Bytes;
  utf8String := utf8Text;
  engineProperty := fun name => if String.eqb name "__proto__" then Some false else None;
  JVal := unit;
  JSON_parse := fun _ => None;
  JSON_props := fun _ => [];
  mimeTypes := fun ext => if String.eqb ext "html" then Some "text/html" else None;
  gzip_compress := fun bs => bs;
  files := fun name =>
    if String.eqb name "index.html" then Some (1000000, list_ascii_of_string "hello") else None;
  uuid := fun n => pretty n
|}.

Definition CRLF : string := String "013" (String "010" EmptyString).

(** A connection with the given bytes to come and nothing sent yet. *)
Definition incoming (s : string) : Conn :=
  mkConn (list_ascii_of_string s) (mkOut [] [] []) 8080 "127.0.0.1".

(** A parsed request for [/index.html] and the fresh response to it. *)
Definition exampleRequest : @Request.t exampleHost :=
  Request.mk ∅ "/index.html" "GET" "HTTP/1.1" ∅ "localhost" "80" "127.0.0.1" ∅
    Request.PostUnset ∅ false.

Definition exampleResponse : @Response.HS exampleHost :=
  Response.mkHS (Response.Response exampleRequest) (mkOut [] [] []).

(** What a response method left behind: its outcome, the status, and the
    calls made on the output stream. *)
Definition observed {H : Host} {A} (r : result A * Response.HS) : result A * Z * list OsOp :=
  (fst r, Response.status (Response.hs_res (snd r)), o_os (Response.hs_out (snd r))).

(** The string stored under a name of [req.data], if it is a string. *)
Definition dataString {H : Host} (data : gmap string Request.DataVal) (name : string)
    : option string :=
  match data !! name with
  | Some (Request.DString s) => Some s
  | _ => None
  end.

(** The headers of a request that only names the urlencoded content type. *)
Definition urlencodedHeaders : gmap string (option string) :=
  {[ "content-type" := Some "application/x-www-form-urlencoded" ]}.

(** The listeners of a socket all come to an end. *)
Definition listeners_halt (ls : WebSocket.Listeners) : Prop :=
  (forall m, halts (WebSocket.onmessage ls m)) /\
  (forall m, halts (WebSocket.fire_message ls m)) /\
  halts (WebSocket.onclose ls) /\
  halts (WebSocket.fire_close ls).

(** [m], run in the process, never puts bytes back on the input of the
    connection. *)
Definition preads {H : Host} {A} (m : M WebSocket.Proc A) : Prop :=
  forall p r p', m p = (r, p') ->
    (List.length (c_is (WebSocket.p_conn p')) <= List.length (c_is (WebSocket.p_conn p)))%nat.

(** The [Connection] header of a request as [handleRequest] reads it. *)
Definition connectionOf {H : Host} (req : Request.t) : string :=
  JStr.toLowerCase (Request.or_else (Request.header (Request.headers req) "connection")
                      EmptyString).

(** The response as the handler finds it. *)
Definition prepared {H : Host} (req : Request.t) : Response.t :=
  fst (Child.prepare (connectionOf req) (Response.Response req)).

(** The process once a request has been parsed, leaving the connection as
    [c1], and the code that followed has sent [out]. *)
Definition after_request {H : Host} (p : WebSocket.Proc) (c1 : Conn) (req : Request.t) (out : Out)
    : WebSocket.Proc :=
  WebSocket.set_conn (set_out out c1)
    (WebSocket.fire (WebSocket.StartRequest req) (WebSocket.set_conn c1 p)).

(** The response state [handleRequest] ends with, from the state [s] the
    handler left and what it returned: [Connection: close] if it returned
    [false], then [destroy]. *)
Definition finished {H : Host} (ret : Child.HandlerRet) (s : Response.HS) : Response.HS :=
  snd (Response.destroy
         (Response.mkHS
            (match ret with
             | Child.RetFalse => Child.set_held_header "Connection" "close" (Response.hs_res s)
             | Child.RetOther => Response.hs_res s
             end)
            (Response.hs_out s))).

(** Whether the request loop goes on after a handler has returned. *)
Definition keeps {H : Host} (req : Request.t) (ret : Child.HandlerRet) : bool :=
  String.eqb (connectionOf req) "keep-alive"
  && match ret with Child.RetOther => true | Child.RetFalse => false end.

(** Every exception [m] throws satisfies [P]. *)
Definition throws (P : Exn -> Prop) {S A} (m : M S A) : Prop :=
  forall s e s', m s = (Throw e, s') -> P e.

(** An exception the parser can throw: none of them is the stop signal. *)
Definition parse_error (e : Exn) : Prop := e <> RES_STOP /\ e <> THREAD_EXIT.

(** The events a worker has fired, in words. *)
Definition trace {H : Host} (p : WebSocket.Proc) : list string :=
  List.map (fun e => match e with
                     | WebSocket.StartRequest r => "startRequest " +:+ Request.uri r
                     | WebSocket.EndRequest => "endRequest"
                     | WebSocket.Destroyed => "destroyed"
                     end) (WebSocket.p_events p).

(** A worker that has just accepted a connection with the given bytes to
    come. *)
Definition accepted {H : Host} (s : string) : WebSocket.Proc :=
  WebSocket.mkProc (incoming s) ∅ 0 [].

(** Two requests on one connection: the first asks for keep-alive, the
    second does not. *)
Definition keepAliveRequest : string :=
  "GET /one HTTP/1.1" +:+ CRLF +:+ "Connection: Keep-Alive" +:+ CRLF +:+ CRLF.
Definition closeRequest : string :=
  "GET /two HTTP/1.1" +:+ CRLF +:+ "Connection: close" +:+ CRLF +:+ CRLF.

(** Handlers of the examples: one that returns at once, one that returns
    [false], one that calls [res.stop()] on [/two] and returns otherwise. *)
Definition idle {H : Host} : Child.Handler := fun _ => ret Child.RetOther.
Definition refusing {H : Host} : Child.Handler := fun _ => ret Child.RetFalse.
Definition stopping {H : Host} : Child.Handler :=
  fun req => if String.eqb (Request.uri req) "/two" then Response.stop else ret Child.RetOther.


(** ** Frames on the wire *)

(** What a piece of sending code writes to the raw socket of a fresh
    connection. *)
Definition sent (m : M Out unit) : list ascii := o_sock (snd (m (mkOut [] [] []))).

(** The FIN bit in the first byte of a frame. *)
Definition isFinal (first : ascii) : bool := JS.truthy (JS.and (JS.charCode first) 0x80).

(** The payload length in a frame header as a peer lays it out (RFC 6455,
    section 5.2): seven bits; or 126 and sixteen bits; or 127 and sixty-four
    bits, the most significant byte first. The mask bit is the top bit of the
    first of these bytes. *)
Definition wireLength (masked : bool) (n : Z) : list ascii :=
  let bit := if masked then 0x80 else 0 in
  if n <? 126 then [JS.fromCharCode (bit + n)]
  else if n <? 65536 then
    [JS.fromCharCode (bit + 126); JS.fromCharCode (n / 256); JS.fromCharCode (n mod 256)]
  else
    JS.fromCharCode (bit + 127)
    :: List.map (fun k => JS.fromCharCode ((n / 2 ^ (8 * k)) mod 256)) [7; 6; 5; 4; 3; 2; 1; 0].

(** A payload under a masking key: the byte at position [i] is combined
    with the byte [i mod 4] of the key. *)
Definition xorByte (b k : ascii) : ascii :=
  JS.fromCharCode (Z.lxor (JS.charCode b) (JS.charCode k)).

Fixpoint maskWith (key : list ascii) (i : nat) (bs : list ascii) : list ascii :=
  match bs with
  | [] => []
  | b :: rest => xorByte b (nth (i mod 4) key zero) :: maskWith key (Datatypes.S i) rest
  end.

(** A whole frame as a peer sends it: the first byte, the length, and the
    payload, under its key if there is one. *)
Definition wireFrame (first : ascii) (mask : option (ascii * ascii * ascii * ascii))
    (payload : string) : list ascii :=
  first :: wireLength (bool_decide (is_Some mask)) (JS.length payload)
  ++ match mask with
     | Some (m0, m1, m2, m3) =>
         [m0; m1; m2; m3] ++ maskWith [m0; m1; m2; m3] 0 (list_ascii_of_string payload)
     | None => list_ascii_of_string payload
     end.

(** The thirty-two bits of a length, most significant byte first. *)
Definition bigEndian32 (n : Z) : list ascii :=
  List.map (fun k => JS.fromCharCode ((n / 2 ^ (8 * k)) mod 256)) [3; 2; 1; 0].

(** The big-endian value of a run of bytes, after [acc]. *)
Definition bigEndian (bs : list ascii) (acc : Z) : Z :=
  fold_left (fun a b => a * 256 + JS.charCode b) bs acc.

(** A frame of a peer: its first byte, its masking key if it has one, its
    payload. *)
Definition Frame : Type := ascii * option (ascii * ascii * ascii * ascii) * string.

Definition wireFrames (fs : list Frame) : list ascii :=
  flat_map (fun f => wireFrame (fst (fst f)) (snd (fst f)) (snd f)) fs.

(** The payloads of a run of frames, one after the other. *)
Definition payloads (fs : list Frame) : string :=
  fold_right (fun f m => snd f +:+ m) EmptyString fs.

(** The connection after the pongs that answer the pings among the frames. *)
Definition pongedAll (fs : list Frame) (c : Conn) : Conn :=
  fold_left (fun c f => ponged (fst (fst f)) c) fs c.

(** A frame that does not end a message: it is not a close frame, and its
    FIN bit is clear or its payload is empty. *)
Definition nonFinal (f : Frame) : Prop :=
  opCode (fst (fst f)) <> 0x8 /\ JS.length (snd f) < 2 ^ 31 /\
  (isFinal (fst (fst f)) = false \/ snd f = EmptyString).

(** ** Responses *)

(** The output after further calls on the output stream. *)
Definition logged (ops : list OsOp) (o : Out) : Out :=
  mkOut (o_sock o) (o_os o ++ ops) (o_console o).

(** The lines of the header block of a response, as [sendHeaders] writes
    them: the status line, the date, the headers in the order they were
    first set, the cookies unless a [Set-Cookie] header was set by hand,
    and the empty line. *)
Definition headerBlock {H : Host} (r : Response.t) : list string :=
  (Response.proto r +:+ " " +:+ pretty (Response.status r) +:+ " "
   +:+ default "undefined" (Response.responseCodeText (Response.status r)))
  :: ("Date: " +:+ toGMTString now)
  :: List.map (fun kv => fst kv +:+ ": " +:+ snd kv) (Response.headers r)
  ++ match Response.cookies r,
           Response.truthy_string (Response.obj_get "Set-Cookie" (Response.headers r)) with
     | Some cs, None => List.map Response.cookieLine cs
     | _, _ => []
     end
  ++ [EmptyString].

(** The bytes handed to [os.writeBytes] among the calls on the output
    stream: the body of a response. *)
Definition bodyBytes (ops : list OsOp) : list ascii :=
  flat_map (fun op => match op with WriteBytes bs => bs | _ => [] end) ops.

(** One chunk of a chunked response. *)
Definition chunk (s : string) : list OsOp :=
  [Writeln (Response.hexString (JS.length s)); Writeln s; Flush].

(** [res.write(s1); ...; res.write(sn);] *)
Definition writes {H : Host} (ss : list string) : M Response.HS unit :=
  fold_right (fun s k => bind (Response.write s) (fun _ => k)) (ret tt) ss.




(** ** Requests *)

(** The exceptions the constructor of a request ends with, for an upload
    limit. *)
Definition request_error (limit : Z) (e : Exn) : Prop :=
  e = EOF \/ e = Request.TypeError \/ e = Request.URIError \/ e = Request.SyntaxError \/
  e = Request.tooLarge limit.

(** [m] changes nothing of the connection but the bytes still to come. *)
Definition only_reads {A} (m : M Conn A) : Prop :=
  forall c r c', m c = (r, c') -> c' = set_is (c_is c') c.

(** ** The worker *)


(** The process after [console.exception(e)]. *)
Definition reported {H : Host} (e : Exn) (p : WebSocket.Proc) : WebSocket.Proc :=
  WebSocket.set_conn
    (set_out (console_exception e (c_out (WebSocket.p_conn p))) (WebSocket.p_conn p)) p.

(** The request handler and the callbacks of the application all come to
    an end: the handler on every request, every connect callback on every
    socket, and the listeners a connect callback attaches. *)
Definition application_halts {H : Host} (fn : Child.Handler)
    (routes : gmap string Child.OnConnect) : Prop :=
  (forall req, halts (fn req)) /\
  (forall path onConnect, routes !! path = Some onConnect ->
     forall ws, halts (onConnect ws) /\
                forall o ls o', onConnect ws o = (Ok ls, o') -> listeners_halt ls).

(** A handler that throws an error and one that throws [null], an upgrade
    request for [/chat] and one for [/toString], and a connect callback
    that attaches listeners that do nothing. *)
Definition failing {H : Host} : Child.Handler := fun _ => throw (ThrownError "boom").
Definition throwingNull {H : Host} : Child.Handler := fun _ => throw ThrownNull.

Definition upgradeRequest : string :=
  "GET /chat HTTP/1.1" +:+ CRLF +:+ "Connection: Upgrade" +:+ CRLF
  +:+ "Upgrade: websocket" +:+ CRLF +:+ CRLF.

Definition quietSocket {H : Host} : Child.OnConnect :=
  fun _ => ret (WebSocket.mkListeners (fun _ => ret tt) (fun _ => ret tt) (ret tt) (ret tt)).

(** The first call a worker made on the output stream, if it made one. *)
Definition firstWritten {H : Host} (p : WebSocket.Proc) : option OsOp :=
  head (o_os (c_out (WebSocket.p_conn p))).
(** ** The monad *)

Section MonadFacts.
Context {S : Type}.
Implicit Types s : S.

Lemma bind_Ok {A B} (m : M S A) (k : A -> M S B) s a s' :
  m s = (Ok a, s') -> bind m k s = k a s'.
Proof. intros E. unfold bind. now rewrite E. Qed.

Lemma bind_Throw {A B} (m : M S A) (k : A -> M S B) s e s' :
  m s = (Throw e, s') -> bind m k s = (Throw e, s').
Proof. intros E. unfold bind. now rewrite E. Qed.

Lemma bind_Diverge {A B} (m : M S A) (k : A -> M S B) s s' :
  m s = (Diverge, s') -> bind m k s = (Diverge, s').
Proof. intros E. unfold bind. now rewrite E. Qed.

Lemma bind_ret {A B} (a : A) (k : A -> M S B) s : bind (ret a) k s = k a s.
Proof. reflexivity. Qed.

Lemma bind_get {B} (k : S -> M S B) s : bind get k s = k s s.
Proof. reflexivity. Qed.

Lemma bind_modify {B} (f : S -> S) (k : unit -> M S B) s :
  bind (modify f) k s = k tt (f s).
Proof. reflexivity. Qed.

(** The outcomes of a bind, taken apart. *)
Lemma bind_inv {A B} (m : M S A) (k : A -> M S B) s r s' :
  bind m k s = (r, s') ->
  (exists a s1, m s = (Ok a, s1) /\ k a s1 = (r, s')) \/
  (exists e, m s = (Throw e, s') /\ r = Throw e) \/
  (m s = (Diverge, s') /\ r = Diverge).
Proof.
  unfold bind. destruct (m s) as [[a | e |] s1]; intros E.
  - left. eauto.
  - right. left. inversion E. eauto.
  - right. right. inversion E. eauto.
Qed.

(** The outcomes of a [try ... finally]: either the body never ends, or
    it ends and the cleanup runs on the state it left. *)
Lemma try_finally_inv {A} (m : M S A) (f : M S unit) s r s' :
  try_finally m f s = (r, s') ->
  (m s = (Diverge, s') /\ r = Diverge) \/
  (exists r1 s1 rf,
     m s = (r1, s1) /\ r1 <> Diverge /\ f s1 = (rf, s') /\
     match rf with
     | Ok _ => r = r1
     | Throw e => r = Throw e
     | Diverge => r = Diverge
     end).
Proof.
  unfold try_finally. destruct (m s) as [[a | e |] s1] eqn:Em.
  - destruct (f s1) as [[[] | e' |] s2] eqn:Ef; intros [= <- <-]; right;
      exists (Ok a), s1; eexists; (split; [reflexivity |]); (split; [discriminate |]);
      (split; [exact Ef |]); reflexivity.
  - destruct (f s1) as [[[] | e' |] s2] eqn:Ef; intros [= <- <-]; right;
      exists (Throw e), s1; eexists; (split; [reflexivity |]); (split; [discriminate |]);
      (split; [exact Ef |]); reflexivity.
  - intros [= <- <-]. now left.
Qed.

End MonadFacts.

(** ** The input side only shrinks *)

Lemma reads_ret {A} (a : A) : reads (ret a).
Proof. intros c r c' E. inversion E. lia. Qed.

Lemma reads_throw {A} e : reads (@throw Conn A e).
Proof. intros c r c' E. inversion E. lia. Qed.

Lemma reads_diverge {A} : reads (@diverge Conn A).
Proof. intros c r c' E. inversion E. lia. Qed.

Lemma reads_bind {A B} (m : M Conn A) (k : A -> M Conn B) :
  reads m -> (forall a, reads (k a)) -> reads (bind m k).
Proof.
  intros Hm Hk c r c' E.
  destruct (bind_inv _ _ _ _ _ E) as [(a & c1 & E1 & E2) | [(e & E1 & _) | (E1 & _)]].
  - apply Hm in E1. apply Hk in E2. lia.
  - now apply Hm in E1.
  - now apply Hm in E1.
Qed.

Lemma reads_try_catch {A} (m : M Conn A) (h : Exn -> M Conn A) :
  reads m -> (forall e, reads (h e)) -> reads (try_catch m h).
Proof.
  intros Hm Hh c r c' E. unfold try_catch in E.
  destruct (m c) as [[a | e |] c1] eqn:E1; pose proof (Hm _ _ _ E1).
  - inversion E. now subst.
  - apply Hh in E. lia.
  - inversion E. now subst.
Qed.

Lemma reads_sending {A} (m : M Out A) : reads (sending m).
Proof.
  intros c r c' E. unfold sending in E.
  destruct (m (c_out c)) as [r0 o]. inversion E. simpl. lia.
Qed.

Lemma reads_get : reads (@get Conn).
Proof. intros c r c' E. inversion E. lia. Qed.

Lemma reads_readByte : reads readByte.
Proof.
  intros c r c' E. unfold readByte in E.
  destruct (c_is c) as [| b rest] eqn:Ei; inversion E; subst; simpl; rewrite ?Ei; simpl; lia.
Qed.

(** A byte that was read is gone from the input. *)
Lemma readByte_Ok c z c' :
  readByte c = (Ok z, c') -> (List.length (c_is c') < List.length (c_is c))%nat.
Proof.
  unfold readByte. destruct (c_is c) as [| b rest] eqn:Ei; intros E; inversion E; subst.
  simpl. lia.
Qed.

Lemma take_line_length bs :
  (List.length (snd (take_line bs)) <= List.length bs)%nat.
Proof.
  induction bs as [| b rest IH]; simpl; [lia |].
  destruct (Ascii.eqb b "010"); simpl; [lia |].
  destruct (take_line rest) as [l r]. simpl in *. lia.
Qed.

Lemma take_line_cons b bs :
  (List.length (snd (take_line (b :: bs))) < List.length (b :: bs))%nat.
Proof.
  simpl. destruct (Ascii.eqb b "010"); simpl; [lia |].
  pose proof (take_line_length bs). destruct (take_line bs) as [l r]. simpl in *. lia.
Qed.

Lemma reads_readLine : reads readLine.
Proof.
  intros c r c' E. unfold readLine in E.
  destruct (c_is c) as [| b rest] eqn:Ei.
  - inversion E; subst. rewrite Ei. simpl. lia.
  - pose proof (take_line_cons b rest) as Hl.
    destruct (take_line (b :: rest)) as [l r0]. inversion E; subst. simpl in *. lia.
Qed.

(** A line that was read is gone from the input. *)
Lemma readLine_Some c l c' :
  readLine c = (Ok (Some l), c') -> (List.length (c_is c') < List.length (c_is c))%nat.
Proof.
  unfold readLine. destruct (c_is c) as [| b rest] eqn:Ei; intros E; [inversion E |].
  pose proof (take_line_cons b rest) as Hl.
  destruct (take_line (b :: rest)) as [l0 r0]. inversion E; subst. simpl in *. lia.
Qed.

Lemma reads_read n : reads (read n).
Proof.
  intros c r c' E. unfold read in E.
  destruct ((0 <=? n) && (n <=? Z.of_nat (List.length (c_is c)))); inversion E; subst; simpl.
  - rewrite length_skipn. lia.
  - lia.
Qed.

Create HintDb reads.
#[local] Hint Resolve reads_ret reads_throw reads_diverge reads_sending reads_get
  reads_readByte reads_readLine reads_read : reads.

(** ** Coming to an end *)

Lemma halts_ret {S A} (a : A) : halts (@ret S A a).
Proof. intros s. discriminate. Qed.

Lemma halts_throw {S A} e : halts (@throw S A e).
Proof. intros s. discriminate. Qed.

Lemma halts_modify {S} (f : S -> S) : halts (modify f).
Proof. intros s. discriminate. Qed.

Lemma halts_get {S} : halts (@get S).
Proof. intros s. discriminate. Qed.

Lemma halts_bind {S A B} (m : M S A) (k : A -> M S B) :
  halts m -> (forall a, halts (k a)) -> halts (bind m k).
Proof.
  intros Hm Hk s. unfold bind. specialize (Hm s).
  destruct (m s) as [[a | e |] s1]; simpl in *; [apply Hk | discriminate | congruence].
Qed.

Lemma halts_try_catch {S A} (m : M S A) (h : Exn -> M S A) :
  halts m -> (forall e, halts (h e)) -> halts (try_catch m h).
Proof.
  intros Hm Hh s. unfold try_catch. specialize (Hm s).
  destruct (m s) as [[a | e |] s1]; simpl in *; [discriminate | apply Hh | congruence].
Qed.

Lemma halts_try_finally {S A} (m : M S A) (f : M S unit) :
  halts m -> halts f -> halts (try_finally m f).
Proof.
  intros Hm Hf s. unfold try_finally. specialize (Hm s).
  destruct (m s) as [[a | e |] s1]; simpl in *; try congruence;
    specialize (Hf s1); destruct (f s1) as [[[] | e' |] s2]; simpl in *;
    congruence.
Qed.

Lemma halts_sending {A} (m : M Out A) : halts m -> halts (sending m).
Proof.
  intros Hm c. unfold sending. specialize (Hm (c_out c)).
  now destruct (m (c_out c)) as [r o].
Qed.

Lemma halts_readByte : halts readByte.
Proof. intros c. unfold readByte. destruct (c_is c); discriminate. Qed.

Lemma halts_readLine : halts readLine.
Proof.
  intros c. unfold readLine. destruct (c_is c); [discriminate |].
  destruct (take_line _). discriminate.
Qed.

Lemma halts_read n : halts (read n).
Proof. intros c. unfold read. destruct (_ && _); discriminate. Qed.

Create HintDb halts.
#[local] Hint Resolve halts_ret halts_throw halts_modify halts_get halts_readByte
  halts_readLine halts_read : halts.

(** Structural steps for [reads] and [halts] goals; the leaves come from
    the hint databases. *)
Ltac reads_tac :=
  repeat first
    [ solve [auto with reads]
    | apply reads_bind | apply reads_try_catch
    | match goal with |- forall _, _ => intro end
    | match goal with
      | |- reads (if ?b then _ else _) => destruct b
      | |- reads (match ?x with Some _ => _ | None => _ end) => destruct x
      | |- reads (match ?x with (_, _) => _ end) => destruct x
      end ].

Ltac halts_tac :=
  repeat first
    [ solve [auto with halts]
    | apply halts_bind | apply halts_try_catch | apply halts_try_finally | apply halts_sending
    | match goal with |- forall _, _ => intro end
    | match goal with
      | |- halts (if ?b then _ else _) => destruct b
      | |- halts (match ?x with Some _ => _ | None => _ end) => destruct x
      | |- halts (match ?x with (_, _) => _ end) => destruct x
      end ].
(** ** The frame codec *)

Import WebSocketCodec.

Lemma fromCharCode_charCode b : JS.fromCharCode (JS.charCode b) = b.
Proof. unfold JS.fromCharCode, JS.charCode. rewrite N2Z.id. apply ascii_N_embedding. Qed.

Lemma append_cons c (m s : string) : String c m +:+ s = String c (m +:+ s).
Proof. reflexivity. Qed.

Lemma append_nil (s : string) : "" +:+ s = s.
Proof. reflexivity. Qed.

Lemma append_snoc (m : string) b s : (m +:+ String b "") +:+ s = m +:+ String b s.
Proof. induction m as [| c m IH]; [reflexivity | rewrite !append_cons; f_equal; exact IH]. Qed.

Lemma append_empty (m : string) : m +:+ "" = m.
Proof. induction m as [| c m IH]; [reflexivity | rewrite append_cons; f_equal; exact IH]. Qed.

Lemma readPayload_unmasked s : forall rest i len ndx msg,
len = i + JS.length s ->
readPayload (list_ascii_of_string s ++ rest) i len None ndx msg = (Ok (msg +:+ s), rest).
Proof.
induction s as [| b s IH]; intros rest i len ndx msg Hlen.
- simpl. unfold JS.length in Hlen. simpl in Hlen.
  destruct rest; simpl; replace (i <? len) with false by (symmetry; apply Z.ltb_ge; lia);
    now rewrite append_empty.
- unfold JS.length in *. simpl String.length in Hlen. rewrite Nat2Z.inj_succ in Hlen.
  simpl. replace (i <? len) with true by (symmetry; apply Z.ltb_lt; lia).
  rewrite IH by lia. now rewrite fromCharCode_charCode, append_snoc.
Qed.


Lemma payload_unmasked s rest len msg c :
len = JS.length s ->
payload len None msg (set_is (list_ascii_of_string s ++ rest) c)
= (Ok (msg +:+ s), set_is rest c).
Proof.
intros Hlen. unfold payload. simpl c_is.
rewrite (readPayload_unmasked s rest 0 len 0 msg) by lia. reflexivity.
Qed.

Lemma frames_S fuel msg :
frames (Datatypes.S fuel) msg =
bind (frame msg) (fun r => match r with
      | None => ret None
      | Some (true, message') => ret (Some message')
      | Some (false, message') => frames fuel message'
      end).
Proof. reflexivity. Qed.










Lemma readPayload_done bytes i len mask ndx msg :
  len <= i -> readPayload bytes i len mask ndx msg = (Ok msg, bytes).
Proof.
  intros Hle. destruct bytes; simpl;
    replace (i <? len) with false by (symmetry; apply Z.ltb_ge; lia); reflexivity.
Qed.

Lemma payload_zero mask msg c : payload 0 mask msg c = (Ok msg, c).
Proof.
  unfold payload. rewrite readPayload_done by lia. now destruct c.
Qed.

Lemma bind_readByte {B} (k : Z -> M Conn B) b rest c :
  bind readByte k (set_is (b :: rest) c) = k (JS.charCode b) (set_is rest c).
Proof. reflexivity. Qed.

Lemma frame_empty first form mask msg rest c :
  opCode first <> 0x8 ->
  frame msg (set_is (emptyFrame first form mask ++ rest) c)
  = (Ok (Some (false, msg)), set_is rest (ponged first c)).
Proof.
  intros Hop. apply Z.eqb_neq in Hop.
  unfold frame, emptyFrame. rewrite <- app_comm_cons, bind_readByte.
  fold (opCode first). cbv zeta. rewrite Hop. unfold ponged.
  destruct (opCode first =? 9); destruct form, mask as [[[[m0 m1] m2] m3] |];
    cbv -[payload]; rewrite payload_zero; reflexivity.
Qed.

Lemma readPayload_length bytes : forall i len mask ndx msg,
  (List.length (snd (readPayload bytes i len mask ndx msg)) <= List.length bytes)%nat.
Proof.
  induction bytes as [| b rest IH]; intros i len mask ndx msg; simpl.
  - destruct (i <? len); simpl; lia.
  - destruct (i <? len); simpl; [| lia].
    destruct mask; match goal with |- context [readPayload rest ?a ?b ?c ?d ?e] =>
      pose proof (IH a b c d e) end; lia.
Qed.

Lemma reads_payload len mask msg : reads (payload len mask msg).
Proof.
  intros c r c' E. unfold payload in E.
  pose proof (readPayload_length (c_is c) 0 len mask 0 msg) as Hl.
  destruct (readPayload (c_is c) 0 len mask 0 msg) as [r0 rest].
  inversion E; subst. simpl in *. lia.
Qed.

#[local] Hint Resolve reads_payload : reads.

Lemma reads_readLen64 n : forall len, reads (readLen64 n len).
Proof. induction n as [| n IH]; intros len; simpl; reads_tac; try apply IH. Qed.

Lemma reads_frame msg : reads (frame msg).
Proof. unfold frame. reads_tac; try apply reads_readLen64. Qed.

#[local] Hint Resolve reads_readLen64 reads_frame : reads.

(** A frame that was read is gone from the input. *)
Lemma frame_Ok msg c r c' :
  frame msg c = (Ok r, c') -> (List.length (c_is c') < List.length (c_is c))%nat.
Proof.
  unfold frame. intros E.
  destruct (bind_inv _ _ _ _ _ E) as [(z & c1 & E1 & E2) | [(e & _ & Hr) | (_ & Hr)]];
    [| discriminate Hr | discriminate Hr].
  apply readByte_Ok in E1.
  assert (Hk : (List.length (c_is c') <= List.length (c_is c1))%nat); [| lia].
  revert E2. match goal with |- ?k c1 = _ -> _ => assert (Hr : reads k) end.
  { reads_tac; try apply reads_readLen64. }
  apply Hr.
Qed.

(** Fuel beyond the bytes still to come changes nothing. *)
Lemma frames_fuel n : forall m msg c,
  (List.length (c_is c) < n)%nat -> (List.length (c_is c) < m)%nat ->
  frames n msg c = frames m msg c.
Proof.
  induction n as [| n IH]; intros m msg c Hn Hm; [lia |].
  destruct m as [| m]; [lia |].
  rewrite !frames_S. unfold bind.
  destruct (frame msg c) as [[[[[] msg'] |] | e |] c1] eqn:E; try reflexivity.
  apply frame_Ok in E. apply IH; lia.
Qed.

Lemma halts_payload len mask msg : halts (payload len mask msg).
Proof.
  intros c. unfold payload.
  assert (Hp : forall bytes i ndx m, fst (readPayload bytes i len mask ndx m) <> Diverge).
  { induction bytes as [| b rest IH]; intros i ndx m; simpl;
      destruct (i <? len); simpl; try discriminate.
    destruct mask; apply IH. }
  specialize (Hp (c_is c) 0 0 msg).
  now destruct (readPayload (c_is c) 0 len mask 0 msg).
Qed.

#[local] Hint Resolve halts_payload : halts.

Lemma halts_readLen64 n : forall len, halts (readLen64 n len).
Proof. induction n as [| n IH]; intros len; simpl; halts_tac; try apply IH. Qed.

Lemma halts_frame msg : halts (frame msg).
Proof. unfold frame. halts_tac; try apply halts_readLen64. Qed.

#[local] Hint Resolve halts_readLen64 halts_frame : halts.

Lemma frames_total n : forall msg c,
  (List.length (c_is c) < n)%nat -> fst (frames n msg c) <> Diverge.
Proof.
  induction n as [| n IH]; intros msg c Hn; [lia |].
  rewrite frames_S. unfold bind. pose proof (halts_frame msg c) as Hf.
  destruct (frame msg c) as [[[[[] msg'] |] | e |] c1] eqn:E; simpl in *;
    try discriminate; try congruence.
  apply frame_Ok in E. apply IH. lia.
Qed.

(** [getMessage] always comes to an end. *)
Lemma halts_getMessage : halts getMessage.
Proof.
  intros c. unfold getMessage, try_catch.
  pose proof (frames_total (Datatypes.S (List.length (c_is c))) "" c) as Hf.
  destruct (frames _ "" c) as [[a | e |] c1]; simpl in *; try discriminate.
  apply Hf. lia.
Qed.

Lemma reads_frames n : forall msg, reads (frames n msg).
Proof.
  induction n as [| n IH]; intros msg; simpl; [apply reads_diverge |].
  apply reads_bind; [apply reads_frame |].
  intros [[[] msg'] |]; [apply reads_ret | apply IH | apply reads_ret].
Qed.

Lemma reads_getMessage : reads getMessage.
Proof.
  intros c r c' E. unfold getMessage in E. revert E.
  apply reads_try_catch; [apply reads_frames | intros e; apply reads_ret].
Qed.

(** A message that was read is gone from the input. *)
Lemma getMessage_Some c m c' :
  getMessage c = (Ok (Some m), c') -> (List.length (c_is c') < List.length (c_is c))%nat.
Proof.
  unfold getMessage, try_catch. generalize (Datatypes.S (List.length (c_is c))) as n.
  intros n. revert c. generalize EmptyString as msg. 
  induction n as [| n IH]; intros msg c; [discriminate |].
  rewrite frames_S. unfold bind.
  destruct (frame msg c) as [[[[[] msg'] |] | e |] c1] eqn:E; try discriminate.
  - intros E'. inversion E'; subst. now apply frame_Ok in E.
  - intros E'. apply frame_Ok in E. apply IH in E'. lia.
Qed.

Lemma emptyFrame_length first form mask :
  (0 < List.length (emptyFrame first form mask))%nat.
Proof. unfold emptyFrame. simpl. lia. Qed.

Lemma c_is_ponged first c : c_is (ponged first c) = c_is c.
Proof. unfold ponged. now destruct (opCode first =? 9). Qed.


(** Against C10 as stated: a close frame of payload length 0, followed by
    a text frame. [getMessage] answers [false] at the first byte of the
    close frame: it does not read its length, and it does not go on to the
    frame that follows, which it would return if it were read. *)
Lemma empty_close_frame_ends_reading :
  let c := mkConn [] (mkOut [] [] []) 80 EmptyString in
  let text := List.map (fun z => ascii_of_N (Z.to_N z)) [0x81; 0x02; 104; 105] in
  getMessage (set_is (emptyFrame "136"%char Len7 None ++ text) c)
  = (Ok None, set_is (zero :: text) c) /\
  getMessage (set_is text c) = (Ok (Some "hi"), set_is [] c).
Proof. split; vm_compute; reflexivity. Qed.

(** C10, as the code has it. A frame of payload length 0 that is not a
    close frame is never final, whatever its FIN bit: [getMessage] drops it
    (answering a ping on the way), keeps the message collected so far and
    reads the next frame; a message that consists of one empty frame with
    FIN set is not returned, the decoder runs into the end of the stream
    and answers [false]. *)
Theorem empty_frame_is_never_final first form mask rest c :
  opCode first <> 0x8 ->
  (forall fuel msg,
     frames (Datatypes.S fuel) msg (set_is (emptyFrame first form mask ++ rest) c)
     = frames fuel msg (set_is rest (ponged first c))) /\
  getMessage (set_is (emptyFrame first form mask ++ rest) c)
  = getMessage (set_is rest (ponged first c)) /\
  getMessage (set_is (emptyFrame first form mask) c)
  = (Ok None, set_is [] (ponged first c)).
Proof.
  intros Hop.
  assert (Hframes : forall rest fuel msg,
     frames (Datatypes.S fuel) msg (set_is (emptyFrame first form mask ++ rest) c)
     = frames fuel msg (set_is rest (ponged first c))).
  { intros rest' fuel msg. rewrite frames_S.
    now rewrite (bind_Ok _ _ _ _ _ (frame_empty first form mask msg rest' c Hop)). }
  assert (Hget : forall rest,
     getMessage (set_is (emptyFrame first form mask ++ rest) c)
     = getMessage (set_is rest (ponged first c))).
  { intros rest'. unfold getMessage, try_catch. rewrite Hframes.
    pose proof (emptyFrame_length first form mask) as Hl.
    rewrite (frames_fuel _ (Datatypes.S (List.length (c_is (set_is rest' (ponged first c))))));
      [reflexivity | |]; simpl; rewrite ?length_app; lia. }
  split; [apply Hframes |]. split; [apply Hget |].
  rewrite <- (app_nil_r (emptyFrame first form mask)), Hget. reflexivity.
Qed.

Lemma empty_frame_is_never_final_witness :
  opCode "129"%char <> 0x8 /\
  getMessage (set_is (emptyFrame "129"%char Len7 (Some ("001", "002", "003", "004")%char))
                (mkConn [] (mkOut [] [] []) 80 ""))
  = (Ok None, set_is [] (ponged "129"%char (mkConn [] (mkOut [] [] []) 80 ""))).
Proof.
  assert (Hop : opCode "129"%char <> 0x8) by (vm_compute; discriminate).
  split; [exact Hop |].
  apply (empty_frame_is_never_final "129"%char Len7 (Some ("001", "002", "003", "004")%char) []
           (mkConn [] (mkOut [] [] []) 80 "") Hop).
Defined.

#[local] Hint Resolve reads_getMessage : reads.
#[local] Hint Resolve halts_getMessage : halts.

(** ** The handshake *)

Lemma hex_pair b :
  JStr.fromCharCode
    (JStr.parseInt (String (Sha1.hex_digit (JS.charCode b / 16))
                      (String (Sha1.hex_digit (JS.charCode b mod 16)) EmptyString)) 16) = b.
Proof. destruct b as [[] [] [] [] [] [] [] []]; vm_compute; reflexivity. Qed.

(** The loop of [makeAccept] undoes the hexadecimal rendering. *)
Lemma unhex_hex bs : forall buf,
  WebSocket.unhex (Sha1.hex bs) buf = buf +:+ string_of_list_ascii bs.
Proof.
  induction bs as [| b bs IH]; intros buf; simpl.
  - now rewrite append_empty.
  - rewrite IH, hex_pair. apply append_snoc.
Qed.

Lemma makeAccept_digest key :
  WebSocket.makeAccept (Some key) = Base64.encode (Sha1.digest (key +:+ WebSocket.GUID)).
Proof.
  unfold WebSocket.makeAccept, Sha1.sha1, Base64.base64_encode. simpl default.
  rewrite unhex_hex. change (EmptyString +:+ ?s) with s.
  now rewrite list_ascii_of_string_of_list_ascii.
Qed.

(** C2. The constructor of a WebSocket, run on the fresh response of an
    upgrade request that carries a Sec-WebSocket-Key, sets status 101 and
    the header Sec-WebSocket-Accept to the base64 of the SHA-1 digest of the
    key followed by the GUID, and sends exactly that 101 response; the key
    [dGhlIHNhbXBsZSBub25jZQ==] yields [s3pPLMBiTxaQ9kYGzzhZRbK+xOo=]. *)
Theorem handshake_accept {H : Host} (req : Request.t) (n : nat) (out : Out) (key : string) :
  Request.header (Request.headers req) "sec-websocket-key" = Some key ->
  let accept := Base64.encode (Sha1.digest (key +:+ WebSocket.GUID)) in
  (exists st,
    WebSocket.WebSocket n (Response.mkHS (Response.Response req) out)
    = (Ok (WebSocket.mk req (uuid n)), st) /\
    Response.status (Response.hs_res st) = 101 /\
    Response.obj_get "Sec-WebSocket-Accept" (Response.headers (Response.hs_res st)) = Some accept /\
    o_os (Response.hs_out st)
    = (o_os out ++ [Writeln (Request.proto req +:+ " 101 Switching Protocols");
                    Writeln ("Date: " +:+ toGMTString now);
                    Writeln "Upgrade: websocket";
                    Writeln "Connection: upgrade";
                    Writeln ("Sec-WebSocket-Accept: " +:+ accept);
                    Writeln EmptyString;
                    Flush])%list) /\
  WebSocket.makeAccept (Some "dGhlIHNhbXBsZSBub25jZQ==") = "s3pPLMBiTxaQ9kYGzzhZRbK+xOo=".
Proof.
  intros Hkey accept. split; [| vm_compute; reflexivity].
  assert (Hrun : WebSocket.WebSocket n (Response.mkHS (Response.Response req) out)
    = (Ok (WebSocket.mk req (uuid n)),
       Response.mkHS
         (Response.mk req true 101 0 None
            [("Upgrade", "websocket"); ("Connection", "upgrade"); ("Sec-WebSocket-Accept", accept)]
            (Request.proto req) false true)
         (mkOut (o_sock out)
            (o_os out ++ [Writeln (Request.proto req +:+ " 101 Switching Protocols");
                          Writeln ("Date: " +:+ toGMTString now);
                          Writeln "Upgrade: websocket";
                          Writeln "Connection: upgrade";
                          Writeln ("Sec-WebSocket-Accept: " +:+ accept);
                          Writeln EmptyString;
                          Flush])%list
            (o_console out)))).
  { cbv [WebSocket.WebSocket bind Response.update Response.sendHeaders Response.flush
         Response.this Response.os modify ret Response.writelns Response.set_status
         Response.set_headers Response.obj_extend Response.hs_res Response.hs_out
         Response.Response Response.headers Response.headersSent Response.status fold_left
         Response.obj_set fst snd Response.req Response.cookies Response.contentLength
         Response.proto Response.chunked List.map Response.truthy_string Response.obj_get
         String.eqb Ascii.eqb Bool.eqb Response.set_headersSent os_op o_os o_sock o_console].
    rewrite Hkey, makeAccept_digest. fold accept. generalize accept. intros a.
    rewrite <- !app_assoc. reflexivity. }
  exists (snd (WebSocket.WebSocket n (Response.mkHS (Response.Response req) out))).
  rewrite Hrun. simpl. repeat split; reflexivity.
Qed.

Lemma handshake_accept_witness :
  let req := Request.mk ∅ "/chat" "GET" "HTTP/1.1"
               {[ "sec-websocket-key" := Some "dGhlIHNhbXBsZSBub25jZQ==" ]}
               "localhost" "80" "127.0.0.1" ∅ Request.PostUnset ∅ false in
  Request.header (Request.headers req) "sec-websocket-key" = Some "dGhlIHNhbXBsZSBub25jZQ==" /\
  exists st,
    @WebSocket.WebSocket exampleHost 0 (Response.mkHS (Response.Response req) (mkOut [] [] []))
    = (Ok (WebSocket.mk req (pretty 0%nat)), st) /\
    Response.obj_get "Sec-WebSocket-Accept" (Response.headers (Response.hs_res st))
    = Some "s3pPLMBiTxaQ9kYGzzhZRbK+xOo=".
Proof.
  intros req.
  assert (Hkey : Request.header (Request.headers req) "sec-websocket-key"
                 = Some "dGhlIHNhbXBsZSBub25jZQ==") by (vm_compute; reflexivity).
  split; [exact Hkey |].
  destruct (@handshake_accept exampleHost req 0%nat (mkOut [] [] []) _ Hkey)
    as [(st & Hrun & _ & Hget & _) Hvec].
  exists st. split; [exact Hrun |].
  rewrite Hget, <- makeAccept_digest, Hvec. reflexivity.
Defined.

(** ** Conditional responses *)

(** The two tests, side by side, on a time in whole seconds and a date
    that parses to the same instant: [sendBytes] takes the content as not
    modified, [sendFile] does not. *)
Lemma same_instant_decisions {H : Host} (seconds : Z) (date : string) :
  Date_parse date = Some (seconds * 1000) ->
  Response.bytesNotModified seconds (Response.SinceString date) = true /\
  Response.fileNotModified seconds (Response.SinceString date) = false.
Proof.
  intros Hd. unfold Response.bytesNotModified, Response.fileNotModified, Response.sinceSeconds.
  rewrite Hd. simpl. rewrite Z.quot_mul by lia. split; [apply Z.leb_refl | apply Z.ltb_irrefl].
Qed.

(** [sendFile] answers 304 exactly when the file time, cut to seconds, is
    strictly before the given one. *)
Lemma fileNotModified_iff {H : Host} (seconds : Z) (date : string) :
  Response.fileNotModified seconds (Response.SinceString date) = true <->
  exists ms, Date_parse date = Some ms /\ seconds * 1000 < ms.
Proof.
  unfold Response.fileNotModified. destruct (Date_parse date) as [ms |].
  - rewrite Z.ltb_lt. split; [eauto | intros (ms' & E & Hlt); congruence].
  - split; [discriminate | intros (ms' & E & _); discriminate].
Qed.

(** A file that does not exist: the call fails with the 404 error and
    nothing is written. *)
Lemma sendFile_absent {H : Host} filename since st :
  files filename = None ->
  Response.sendFile filename since st = (Throw (ThrownError "404"), st).
Proof. intros Hf. unfold Response.sendFile. rewrite Hf. reflexivity. Qed.

(** C3. On the host of the examples, [index.html] was last modified at
    1000000 ms. Asked with a date of that same instant, [sendFile] answers
    200 and writes the whole file, where the property asks for 304 and no
    body; asked with a date one second later it answers 304 and writes no
    body. *)
Theorem sendFile_same_instant_is_200 :
  observed (@Response.sendFile exampleHost "index.html"
              (Some (Response.SinceString "1000000")) exampleResponse)
  = (Ok tt, 200,
     [Writeln "HTTP/1.1 200 OK"; Writeln "Date: 0"; Writeln "Content-Type: text/html";
      Writeln "last-modified: 1000000"; Writeln "Content-Length: 5"; Writeln EmptyString;
      Flush; WriteBytes (list_ascii_of_string "hello"); Flush]) /\
  observed (@Response.sendFile exampleHost "index.html"
              (Some (Response.SinceString "1001000")) exampleResponse)
  = (Ok tt, 304,
     [Writeln "HTTP/1.1 304 Not Modified"; Writeln "Date: 0"; Writeln "Content-Type: text/html";
      Writeln "last-modified: 1000000"; Writeln EmptyString]).
Proof. split; vm_compute; reflexivity. Qed.

(** C9. On the same input, a last-modified time of 1000000 ms and a date
    of that same instant, [sendBytes] takes the 304 short-circuit and
    [sendFile] sends the full body: the two do not decide by the same
    condition. *)
Theorem sendBytes_sendFile_differ_at_same_instant :
  observed (@Response.sendBytes exampleHost (list_ascii_of_string "hello") "text/html"
              (Some 1000000) (Some (Response.SinceString "1000000")) exampleResponse)
  = (Ok tt, 304,
     [Writeln "HTTP/1.1 304 Not Modified"; Writeln "Date: 0"; Writeln "Content-Type: text/html";
      Writeln "last-modified: 1000000"; Writeln EmptyString; Flush]) /\
  observed (@Response.sendFile exampleHost "index.html"
              (Some (Response.SinceString "1000000")) exampleResponse)
  = (Ok tt, 200,
     [Writeln "HTTP/1.1 200 OK"; Writeln "Date: 0"; Writeln "Content-Type: text/html";
      Writeln "last-modified: 1000000"; Writeln "Content-Length: 5"; Writeln EmptyString;
      Flush; WriteBytes (list_ascii_of_string "hello"); Flush]).
Proof. split; vm_compute; reflexivity. Qed.

(** ** The request parser *)

Section RequestFacts.
Context {H : Host}.

Lemma tooLarge_neq m e :
  e = Request.TypeError \/ e = Request.URIError \/ e = Request.SyntaxError \/ e = EOF ->
  e <> Request.tooLarge m.
Proof.
  unfold Request.tooLarge.
  change ("413 File upload exceeds " +:+ ?x) with (String "4" ("13 File upload exceeds " +:+ x)).
  intros [-> | [-> | [-> | ->]]]; discriminate.
Qed.

Lemma partHeaders_Throw fuel : forall part mp e,
  Request.partHeaders fuel part mp = Throw e -> e = Request.TypeError.
Proof.
  induction fuel as [| fuel IH]; intros part mp e; simpl; [discriminate |].
  destruct (_ =? 0)%nat; [discriminate |].
  destruct (String.eqb _ "content-disposition").
  - destruct (_ !! 1%nat); [apply IH | now intros [= <-]].
  - destruct (String.eqb _ "content-type"); apply IH.
Qed.

Lemma mimeParts_Throw parts : forall data e,
  Request.mimeParts parts data = Throw e -> e = Request.TypeError.
Proof.
  induction parts as [| part rest IH]; intros data e; simpl; [discriminate |].
  unfold Request.mimePart.
  destruct (Request.partHeaders _ _ _) as [[content mp] | e' |] eqn:E.
  - apply IH.
  - intros [= <-]. now apply partHeaders_Throw in E.
  - discriminate.
Qed.

Lemma formPairs_Throw parts : forall data e,
  Request.formPairs parts data = Throw e -> e = Request.TypeError \/ e = Request.URIError.
Proof.
  induction parts as [| part rest IH]; intros data e; simpl; [discriminate |].
  unfold Request.formPair.
  destruct (JStr.split _ part) as [| name [| value ?]]; try (intros [= <-]; now left).
  destruct (decodeURIComponent _); [apply IH | intros [= <-]; now right].
Qed.

Lemma body_too_large maxUpload hs data c n :
  JStr.parseInt (Request.or_else (Request.header hs "content-length") "0") 10 = Some n ->
  n <> 0 -> n > maxUpload ->
  Request.body maxUpload hs data c = (Throw (Request.tooLarge maxUpload), c).
Proof.
  intros Hn Hnz Hgt. unfold Request.body. rewrite Hn.
  unfold JS.truthy. replace (n =? 0) with false by (symmetry; now apply Z.eqb_neq).
  replace (n >? maxUpload) with true by (symmetry; rewrite Z.gtb_ltb; apply Z.ltb_lt; lia).
  reflexivity.
Qed.

Lemma decode_Throw hs raw data e :
  Request.decode hs raw data = Throw e ->
  e = Request.TypeError \/ e = Request.URIError \/ e = Request.SyntaxError.
Proof.
  unfold Request.decode.
  destruct (JStr.contains "multipart/form-data" _).
  { unfold Request.multipart.
    match goal with |- context [Request.mimeParts ?a ?b] =>
      destruct (Request.mimeParts a b) as [d | e' |] eqn:E end; try discriminate.
    intros [= <-]. left. now apply mimeParts_Throw in E. }
  destruct (JStr.contains "application/x-www-form-urlencoded" _).
  { unfold Request.urlencoded. destruct (_ && _); [| discriminate].
    match goal with |- context [Request.formPairs ?a ?b] =>
      destruct (Request.formPairs a b) as [d | e' |] eqn:E end; try discriminate.
    intros [= <-]. apply formPairs_Throw in E. tauto. }
  destruct (JStr.contains "application/json" _); [| discriminate].
  destruct (JSON_parse _); [discriminate | intros [= <-]; tauto].
Qed.

(** A declared length within the limit and within what the peer sent:
    exactly that many bytes are read and decoded. *)
Lemma body_within_limit maxUpload hs data c n :
  JStr.parseInt (Request.or_else (Request.header hs "content-length") "0") 10 = Some n ->
  0 < n -> n <= maxUpload -> n <= Z.of_nat (List.length (c_is c)) ->
  Request.body maxUpload hs data c
  = (Request.decode hs (firstn (Z.to_nat n) (c_is c)) data,
     set_is (skipn (Z.to_nat n) (c_is c)) c).
Proof.
  intros Hn Hpos Hle Hav. unfold Request.body. rewrite Hn.
  unfold JS.truthy. replace (n =? 0) with false by (symmetry; apply Z.eqb_neq; lia).
  replace (n >? maxUpload) with false by (symmetry; rewrite Z.gtb_ltb; apply Z.ltb_ge; lia).
  cbv beta iota delta [negb bind read].
  replace (0 <=? n) with true by (symmetry; apply Z.leb_le; lia).
  replace (n <=? Z.of_nat (List.length (c_is c))) with true by (symmetry; apply Z.leb_le; lia).
  reflexivity.
Qed.

(** *** The parse comes to an end, and takes what it reads *)

Lemma skipHeaders_total fuel : forall c,
  (List.length (c_is c) < fuel)%nat -> fst (Request.skipHeaders fuel c) <> Diverge.
Proof.
  induction fuel as [| fuel IH]; intros c Hf; [lia |].
  simpl. unfold bind. destruct (readLine c) as [[[l |] | e |] c1] eqn:E; simpl; try discriminate.
  - destruct (_ =? 0)%nat; [discriminate |]. apply readLine_Some in E. apply IH. lia.
  - pose proof (halts_readLine c) as Hh. rewrite E in Hh. now exfalso.
Qed.

Lemma reads_skipHeaders fuel : reads (Request.skipHeaders fuel).
Proof. induction fuel as [| fuel IH]; simpl; reads_tac. Qed.

Lemma reads_readHeaders n : forall hs, reads (Request.readHeaders n hs).
Proof. induction n as [| n IH]; intros hs; simpl; reads_tac. Qed.

Lemma halts_readHeaders n : forall hs, halts (Request.readHeaders n hs).
Proof. induction n as [| n IH]; intros hs; simpl; halts_tac. Qed.

Lemma halts_head : halts Request.head.
Proof.
  unfold Request.head.
  apply halts_bind; [apply halts_readLine |]. intros [line |]; [| apply halts_throw].
  destruct (_ !! 1%nat) as [uri |]; [| apply halts_throw].
  apply halts_bind; [apply halts_readHeaders |]. intros [done hs] c.
  rewrite bind_get. cbv beta. cbn [fst snd].
  destruct done; [discriminate |].
  pose proof (skipHeaders_total (Datatypes.S (List.length (c_is c))) c) as Hs.
  remember (Datatypes.S (List.length (c_is c))) as fuel.
  unfold bind. destruct (Request.skipHeaders fuel c) as [[[] | e |] c2];
    [simpl; discriminate | simpl; discriminate | exfalso; apply Hs; [lia | reflexivity]].
Qed.

(** What [head] does once it has its request line. *)
Ltac reads_after_line :=
  cbv zeta;
  match goal with |- reads (match ?x with Some _ => _ | None => _ end) => destruct x end;
  [| apply reads_throw];
  apply reads_bind; [apply reads_readHeaders |]; intros [done hs];
  apply reads_bind; [apply reads_get |]; intros c0;
  apply reads_bind; [| intros; apply reads_ret];
  cbn [fst]; destruct done; [apply reads_ret | apply reads_skipHeaders].

Lemma reads_head : reads Request.head.
Proof.
  unfold Request.head.
  apply reads_bind; [apply reads_readLine |]. intros [line |]; [| apply reads_throw].
  reads_after_line.
Qed.

(** A head that was parsed took at least its request line from the input. *)
Lemma head_Ok c h c' :
  Request.head c = (Ok h, c') -> (List.length (c_is c') < List.length (c_is c))%nat.
Proof.
  unfold Request.head. intros E.
  destruct (bind_inv _ _ _ _ _ E) as [(line & c1 & E1 & E2) | [(e & _ & Hr) | (_ & Hr)]];
    [| discriminate Hr | discriminate Hr].
  destruct line as [line |]; [| discriminate E2].
  apply readLine_Some in E1.
  assert (Hk : (List.length (c_is c') <= List.length (c_is c1))%nat); [| lia].
  revert E2. match goal with |- ?k c1 = _ -> _ => assert (Hr : reads k) end.
  { reads_after_line. }
  apply Hr.
Qed.

Lemma substr_length k : forall s,
  String.length (JStr.substr k s) = (String.length s - k)%nat.
Proof.
  induction k as [| k IH]; intros [| c s]; simpl; try reflexivity; try lia. apply IH.
Qed.

Lemma partHeaders_total fuel : forall part mp,
  (String.length part < fuel)%nat -> Request.partHeaders fuel part mp <> Diverge.
Proof.
  induction fuel as [| fuel IH]; intros part mp Hf; [lia |].
  simpl.
  set (line := hd EmptyString (JStr.split _ part)).
  destruct (String.length line =? 0)%nat eqn:El; [discriminate |].
  apply Nat.eqb_neq in El.
  assert (Hp : (String.length (JStr.substr (String.length line + 2) part) < fuel)%nat).
  { rewrite substr_length. destruct part as [| c part]; [now elim El |]. simpl in *. lia. }
  destruct (String.eqb _ "content-disposition").
  - destruct (_ !! 1%nat); [now apply IH | discriminate].
  - destruct (String.eqb _ "content-type"); now apply IH.
Qed.

Lemma mimeParts_total parts : forall data, Request.mimeParts parts data <> Diverge.
Proof.
  induction parts as [| part rest IH]; intros data; simpl; [discriminate |].
  unfold Request.mimePart.
  match goal with |- context [Request.partHeaders ?f ?p ?m] =>
    pose proof (partHeaders_total f p m) as Hp;
    destruct (Request.partHeaders f p m) as [[content mp] | e |] end.
  - apply IH.
  - discriminate.
  - exfalso. apply Hp; [lia | reflexivity].
Qed.

Lemma formPairs_total parts : forall data, Request.formPairs parts data <> Diverge.
Proof.
  induction parts as [| part rest IH]; intros data; simpl; [discriminate |].
  unfold Request.formPair.
  destruct (JStr.split _ part) as [| name [| value ?]]; try discriminate.
  destruct (decodeURIComponent _); [apply IH | discriminate].
Qed.

(** The decoding of a body always comes to an end. *)
Lemma decode_total hs raw data : Request.decode hs raw data <> Diverge.
Proof.
  unfold Request.decode.
  destruct (JStr.contains "multipart/form-data" _).
  { unfold Request.multipart.
    match goal with |- context [Request.mimeParts ?a ?b] =>
      pose proof (mimeParts_total a b); destruct (Request.mimeParts a b) end;
      congruence. }
  destruct (JStr.contains "application/x-www-form-urlencoded" _).
  { unfold Request.urlencoded. destruct (_ && _); [| discriminate].
    match goal with |- context [Request.formPairs ?a ?b] =>
      pose proof (formPairs_total a b); destruct (Request.formPairs a b) end;
      congruence. }
  destruct (JStr.contains "application/json" _); [| discriminate].
  destruct (JSON_parse _); discriminate.
Qed.

Lemma halts_body m hs data : halts (Request.body m hs data).
Proof.
  unfold Request.body. destruct (JStr.parseInt _ 10) as [n |]; [| apply halts_ret].
  destruct (JS.truthy n); [| apply halts_ret].
  destruct (n >? m); [apply halts_throw |].
  apply halts_bind; [apply halts_read |]. intros raw c. unfold Request.lift. simpl.
  apply decode_total.
Qed.

Lemma reads_body m hs data : reads (Request.body m hs data).
Proof.
  unfold Request.body. reads_tac. intros c r c' E. inversion E. lia.
Qed.

(** The constructor as a whole: it comes to an end, it
    never puts bytes back, and a request that was parsed took at least its
    request line. *)
Lemma halts_Request maxUpload : halts (Request.Request maxUpload).
Proof.
  unfold Request.Request. apply halts_bind; [apply halts_head |]. intros h.
  apply halts_bind; [apply halts_body |]. intros pd. apply halts_ret.
Qed.

Lemma reads_Request maxUpload : reads (Request.Request maxUpload).
Proof.
  unfold Request.Request. apply reads_bind; [apply reads_head |]. intros h.
  apply reads_bind; [apply reads_body |]. intros pd. apply reads_ret.
Qed.

Lemma Request_Ok maxUpload c r c' :
  Request.Request maxUpload c = (Ok r, c') ->
  (List.length (c_is c') < List.length (c_is c))%nat.
Proof.
  unfold Request.Request. intros E.
  destruct (bind_inv _ _ _ _ _ E) as [(h & c1 & E1 & E2) | [(e & _ & Hr) | (_ & Hr)]];
    [| discriminate Hr | discriminate Hr].
  apply head_Ok in E1.
  assert (Hk : (List.length (c_is c') <= List.length (c_is c1))%nat); [| lia].
  revert E2. match goal with |- ?k c1 = _ -> _ => assert (Hr : reads k) end.
  { apply reads_bind; [apply reads_body |]. intros pd. apply reads_ret. }
  apply Hr.
Qed.

(** *** What the constructor throws *)

Lemma throws_bind {S A B} P (m : M S A) (k : A -> M S B) :
  throws P m -> (forall a, throws P (k a)) -> throws P (bind m k).
Proof.
  intros Hm Hk s e s' E.
  destruct (bind_inv _ _ _ _ _ E) as [(a & s1 & E1 & E2) | [(e' & E1 & [= <-]) | (_ & Hr)]].
  - eapply Hk; eauto.
  - eapply Hm; eauto.
  - discriminate Hr.
Qed.

Lemma throws_ret {S A} P (a : A) : throws P (@ret S A a).
Proof. intros s e s' E. discriminate E. Qed.

Lemma throws_throw {S A} (P : Exn -> Prop) e : P e -> throws P (@throw S A e).
Proof. intros He s e' s' [= <- _]. exact He. Qed.

Lemma parse_error_EOF : parse_error EOF.
Proof. split; discriminate. Qed.

Lemma parse_error_TypeError : parse_error Request.TypeError.
Proof. split; discriminate. Qed.

Lemma throws_readLine : throws parse_error readLine.
Proof.
  intros c e c' E. unfold readLine in E. destruct (c_is c); [discriminate E |].
  destruct (take_line _). discriminate E.
Qed.

Lemma throws_read n : throws parse_error (read n).
Proof.
  intros c e c' E. unfold read in E. destruct (_ && _); [discriminate E |].
  inversion E. apply parse_error_EOF.
Qed.

Lemma throws_readHeaders n : forall hs, throws parse_error (Request.readHeaders n hs).
Proof.
  induction n as [| n IH]; intros hs; simpl; [apply throws_ret |].
  apply throws_bind; [apply throws_readLine |]. intros [l |].
  - destruct (_ =? 0)%nat; [apply throws_ret | apply IH].
  - apply throws_throw, parse_error_EOF.
Qed.

Lemma throws_skipHeaders fuel : throws parse_error (Request.skipHeaders fuel).
Proof.
  induction fuel as [| fuel IH]; simpl; [intros c e c' E; discriminate E |].
  apply throws_bind; [apply throws_readLine |]. intros [l |].
  - destruct (_ =? 0)%nat; [apply throws_ret | apply IH].
  - apply throws_throw, parse_error_EOF.
Qed.

Lemma throws_head : throws parse_error Request.head.
Proof.
  unfold Request.head.
  apply throws_bind; [apply throws_readLine |]. intros [line |];
    [| apply throws_throw, parse_error_EOF].
  cbv zeta. destruct (_ !! 1%nat); [| apply throws_throw, parse_error_TypeError].
  apply throws_bind; [apply throws_readHeaders |]. intros [done hs].
  apply throws_bind; [intros c e c' E; discriminate E |]. intros c0.
  apply throws_bind; [| intros; apply throws_ret].
  cbn [fst]. destruct done; [apply throws_ret | apply throws_skipHeaders].
Qed.

Lemma throws_body m hs data : throws parse_error (Request.body m hs data).
Proof.
  unfold Request.body. destruct (JStr.parseInt _ 10) as [n |]; [| apply throws_ret].
  destruct (JS.truthy n); [| apply throws_ret].
  destruct (n >? m).
  - apply throws_throw. unfold Request.tooLarge. split; discriminate.
  - apply throws_bind; [apply throws_read |]. intros raw c e c' E.
    unfold Request.lift in E. inversion E as [[E' Hc]].
    apply decode_Throw in E'. destruct E' as [-> | [-> | ->]]; split; discriminate.
Qed.

Lemma throws_Request maxUpload : throws parse_error (Request.Request maxUpload).
Proof.
  unfold Request.Request. apply throws_bind; [apply throws_head |]. intros h.
  apply throws_bind; [apply throws_body |]. intros pd. apply throws_ret.
Qed.

End RequestFacts.

#[local] Hint Resolve reads_Request : reads.
#[local] Hint Resolve halts_Request : halts.

(** Against C5 as stated: a maximum of 0 is no maximum. The constructor
    takes [maxUpload || (10 * 1024 * 1024)]: given 0, the limit in force is
    10 MiB, and a declared body of four bytes, larger than the maximum that
    was given, is read and stored. *)
Lemma zero_maximum_is_the_default :
  Request.effectiveMaxUpload (Some 0) = 10 * 1024 * 1024 /\
  match @Request.Request exampleHost (Some 0)
          (incoming ("POST /upload HTTP/1.1" +:+ CRLF +:+ "Content-Length: 4" +:+ CRLF
                     +:+ CRLF +:+ "abcdef")) with
  | (Ok req, c') => Some (dataString (Request.data req) "post", string_of_list_ascii (c_is c'))
  | _ => None
  end = Some (Some "abcd", "ef").
Proof. split; vm_compute; reflexivity. Qed.

(** C5, as the code has it. The limit in force is the maximum the
    constructor is given, and 10 MiB when it is given none or 0. When the
    head of a request
    declares, in Content-Length, a body larger than the limit in force, the
    constructor fails with the 413 error and the connection is as the head
    left it: no byte of the body has been read. When the declared length is
    positive, within the limit, and the peer has sent that many bytes, exactly
    that many bytes are read and decoded, and the outcome is not the 413
    error. *)
Theorem payload_too_large {H : Host} (maxUpload : option Z) (c c1 : Conn)
    (h : Request.Head) (n : Z) :
  Request.head c = (Ok h, c1) ->
  JStr.parseInt (Request.or_else (Request.header (Request.h_headers h) "content-length") "0") 10
  = Some n ->
  let limit := Request.effectiveMaxUpload maxUpload in
  Request.effectiveMaxUpload None = 10 * 1024 * 1024 /\
  (n <> 0 -> n > limit ->
   Request.Request maxUpload c = (Throw (Request.tooLarge limit), c1)) /\
  (0 < n -> n <= limit -> n <= Z.of_nat (List.length (c_is c1)) ->
   let decoded := Request.decode (Request.h_headers h) (firstn (Z.to_nat n) (c_is c1))
                    (Request.h_data h) in
   Request.Request maxUpload c
   = (match decoded with
      | Ok pd => Ok (Request.build h pd)
      | Throw e => Throw e
      | Diverge => Diverge
      end, set_is (skipn (Z.to_nat n) (c_is c1)) c1) /\
   decoded <> Throw (Request.tooLarge limit) /\ decoded <> Diverge) /\
  limit = match maxUpload with
          | Some m => if m =? 0 then 10 * 1024 * 1024 else m
          | None => 10 * 1024 * 1024
          end.
Proof.
  intros Hh Hn limit. split; [reflexivity |]. split; [| split].
  - intros Hnz Hgt. unfold Request.Request.
    rewrite (bind_Ok _ _ _ _ _ Hh).
    now rewrite (bind_Throw _ _ _ _ _ (body_too_large limit _ _ c1 n Hn Hnz Hgt)).
  - intros Hpos Hle Hav decoded. split; [| split].
    + unfold Request.Request. rewrite (bind_Ok _ _ _ _ _ Hh).
      unfold bind. rewrite (body_within_limit limit _ _ c1 n Hn Hpos Hle Hav).
      fold decoded. now destruct decoded.
    + intros E. apply decode_Throw in E.
      apply (tooLarge_neq limit (Request.tooLarge limit)); [tauto | reflexivity].
    + apply decode_total.
  - unfold limit, Request.effectiveMaxUpload, JS.truthy.
    destruct maxUpload as [m |]; [| reflexivity]. now destruct (m =? 0).
Qed.

(** A body of four bytes: over a maximum of three, within a maximum of
    four; and a body of 10 MiB and one byte when no maximum is given. *)
Lemma payload_too_large_witness :
  let c := incoming ("POST /upload HTTP/1.1" +:+ CRLF +:+ "Content-Length: 10485761" +:+ CRLF
                     +:+ CRLF +:+ "abc") in
  let c4 := incoming ("POST /upload HTTP/1.1" +:+ CRLF +:+ "Content-Length: 4" +:+ CRLF
                      +:+ CRLF +:+ "abcdef") in
  @Request.Request exampleHost None c
  = (Throw (Request.tooLarge 10485760), set_is (list_ascii_of_string "abc") c) /\
  @Request.Request exampleHost (Some 3) c4
  = (Throw (Request.tooLarge 3), set_is (list_ascii_of_string "abcdef") c4) /\
  (fst (@Request.Request exampleHost (Some 4) c4) <> Throw (Request.tooLarge 4) /\
   snd (@Request.Request exampleHost (Some 4) c4) = set_is (list_ascii_of_string "ef") c4).
Proof.
  intros c c4. split; [| split].
  - assert (Hok : match fst (@Request.head exampleHost c) with
                  | Ok h =>
                      JStr.parseInt
                        (Request.or_else (Request.header (Request.h_headers h) "content-length") "0")
                        10
                  | _ => None
                  end = Some 10485761) by (vm_compute; reflexivity).
    assert (Hc1 : snd (@Request.head exampleHost c) = set_is (list_ascii_of_string "abc") c)
      by (vm_compute; reflexivity).
    destruct (@Request.head exampleHost c) as [[h | e |] c1] eqn:Hh;
      cbn [fst snd] in Hok, Hc1; [| discriminate Hok | discriminate Hok].
    destruct (payload_too_large None c c1 h 10485761 Hh Hok) as (_ & Hbig & _).
    rewrite <- Hc1. apply Hbig; [discriminate | vm_compute; reflexivity].
  - assert (Hok : match fst (@Request.head exampleHost c4) with
                  | Ok h =>
                      JStr.parseInt
                        (Request.or_else (Request.header (Request.h_headers h) "content-length") "0")
                        10
                  | _ => None
                  end = Some 4) by (vm_compute; reflexivity).
    assert (Hc1 : snd (@Request.head exampleHost c4) = set_is (list_ascii_of_string "abcdef") c4)
      by (vm_compute; reflexivity).
    destruct (@Request.head exampleHost c4) as [[h | e |] c1] eqn:Hh;
      cbn [fst snd] in Hok, Hc1; [| discriminate Hok | discriminate Hok].
    destruct (payload_too_large (Some 3) c4 c1 h 4 Hh Hok) as (_ & Hbig & _ & Hlimit).
    rewrite <- Hc1. rewrite Hlimit in Hbig. apply Hbig; [discriminate | vm_compute; reflexivity].
  - assert (Hok : match fst (@Request.head exampleHost c4) with
                  | Ok h =>
                      JStr.parseInt
                        (Request.or_else (Request.header (Request.h_headers h) "content-length") "0")
                        10
                  | _ => None
                  end = Some 4) by (vm_compute; reflexivity).
    assert (Hc1 : snd (@Request.head exampleHost c4) = set_is (list_ascii_of_string "abcdef") c4)
      by (vm_compute; reflexivity).
    destruct (@Request.head exampleHost c4) as [[h | e |] c1] eqn:Hh;
      cbn [fst snd] in Hok, Hc1; [| discriminate Hok | discriminate Hok].
    destruct (payload_too_large (Some 4) c4 c1 h 4 Hh Hok) as (_ & _ & Hfit & Hlimit).
    rewrite Hlimit in Hfit.
    destruct Hfit as (Hr & Hne & _);
      [lia | vm_compute; discriminate | rewrite Hc1; vm_compute; discriminate |].
    rewrite Hr. cbn [fst snd]. split.
    + destruct (Request.decode _ _ _) as [pd | e |]; [discriminate | | discriminate].
      intros [= ->]. now apply Hne.
    + rewrite Hc1. reflexivity.
Defined.

(** *** The urlencoded body against the query string *)


(** C6. The urlencoded body [a=1], a single pair, is not decoded: the
    request has no [data.a], only the whole body under [data.post];
    the same pair in the query string does set [data.a]. *)
Lemma urlencoded_single_pair_not_decoded :
  match fst (@Request.Request exampleHost None
               (incoming ("POST /form HTTP/1.1" +:+ CRLF
                          +:+ "Content-Type: application/x-www-form-urlencoded" +:+ CRLF
                          +:+ "Content-Length: 3" +:+ CRLF +:+ CRLF +:+ "a=1"))) with
  | Ok req => Some (dataString (Request.data req) "a", dataString (Request.data req) "post")
  | _ => None
  end = Some (None, Some "a=1") /\
  match fst (@Request.Request exampleHost None
               (incoming ("GET /form?a=1 HTTP/1.1" +:+ CRLF +:+ CRLF))) with
  | Ok req => dataString (Request.data req) "a"
  | _ => None
  end = Some "1" /\
  match @Request.decode exampleHost urlencodedHeaders (list_ascii_of_string "a=1") ∅ with
  | Ok (_, data) => Some (dataString data "a", dataString data "post")
  | _ => None
  end = Some (None, Some "a=1") /\
  dataString (snd (@Request.parseQuery exampleHost "a=1" (∅, ∅))) "a" = Some "1".
Proof. repeat split; vm_compute; reflexivity. Qed.



(** ** The message loop and the registry *)

Section MessageLoop.
Context {H : Host}.


Lemma sending_is {A} (m : M Out A) c r c' :
  sending m c = (r, c') -> c_is c' = c_is c.
Proof.
  unfold sending. destruct (m (c_out c)) as [r0 o]. intros [= _ <-]. reflexivity.
Qed.

Lemma reads_messages fuel ls : reads (WebSocket.messages fuel ls).
Proof. induction fuel as [| fuel IH]; simpl; reads_tac. Qed.

(** With listeners that come to an end, the bytes still to come are fuel
    enough for the loop. *)
Lemma messages_total ls fuel : forall c,
  listeners_halt ls ->
  (List.length (c_is c) < fuel)%nat -> fst (WebSocket.messages fuel ls c) <> Diverge.
Proof.
  induction fuel as [| fuel IH]; intros c Hls Hf; [lia |].
  destruct Hls as (Hm & Hfm & Hc & Hfc).
  simpl. unfold bind at 1.
  pose proof (halts_getMessage c) as Hg.
  destruct (WebSocketCodec.getMessage c) as [[[m |] | e |] c1] eqn:Eg; simpl in Hg;
    try discriminate; try congruence.
  apply getMessage_Some in Eg.
  set (listen := try_catch _ _).
  assert (Hl : halts listen).
  { unfold listen. apply halts_try_catch.
    - apply halts_sending. apply halts_bind; [apply Hm | intros; apply Hfm].
    - intros e. apply halts_sending. apply halts_modify. }
  assert (Hr : reads listen).
  { unfold listen. apply reads_try_catch; [apply reads_sending | intros; apply reads_sending]. }
  unfold bind. specialize (Hl c1).
  destruct (listen c1) as [[[] | e |] c2] eqn:El; simpl in Hl; try discriminate; try congruence.
  apply Hr in El. apply IH; [repeat split; assumption | lia].
Qed.


End MessageLoop.

(** ** The worker *)

Section Worker.
Context {H : Host}.
Variable fn : Child.Handler.
Variable routes : gmap string Child.OnConnect.

Lemma destroy_Ok (s : Response.HS) : fst (Response.destroy s) = Ok tt.
Proof.
  unfold Response.destroy, Response.this, bind.
  destruct (Response.chunked (Response.hs_res s)); reflexivity.
Qed.

Lemma responding_destroy res p :
  Child.responding Response.destroy res p
  = (Ok (tt, Response.hs_res (snd (Response.destroy (Response.mkHS res (c_out (WebSocket.p_conn p)))))),
     WebSocket.set_conn
       (set_out (Response.hs_out (snd (Response.destroy
                                         (Response.mkHS res (c_out (WebSocket.p_conn p))))))
          (WebSocket.p_conn p)) p).
Proof.
  unfold Child.responding.
  pose proof (destroy_Ok (Response.mkHS res (c_out (WebSocket.p_conn p)))) as Hd.
  destruct (Response.destroy _) as [r s]. simpl in Hd. subst r. reflexivity.
Qed.

(** [respond] when the handler returns: what it yields, and the response
    object it leaves. *)
Lemma respond_returned connection req res p answer s :
  fn req (Response.mkHS (fst (Child.prepare connection res)) (c_out (WebSocket.p_conn p)))
  = (Ok answer, s) ->
  Child.respond fn connection req res p
  = (Ok (snd (Child.prepare connection res)
         && match answer with Child.RetOther => true | Child.RetFalse => false end,
         Response.hs_res (finished answer s)),
     WebSocket.set_conn (set_out (Response.hs_out (finished answer s)) (WebSocket.p_conn p)) p).
Proof.
  intros Hfn. unfold Child.respond, finished.
  destruct (Child.prepare connection res) as [res0 ka0]. cbn [fst snd] in *.
  unfold bind at 1. unfold Child.responding at 1. rewrite Hfn.
  destruct answer; cbn [fst snd]; rewrite bind_Ok with (1 := responding_destroy _ _);
    unfold ret; cbn [fst snd WebSocket.p_conn WebSocket.set_conn c_out set_out];
    rewrite ?andb_true_r, ?andb_false_r; destruct p as [[] ? ? ?]; reflexivity.
Qed.

Lemma respond_threw connection req res p e s :
  fn req (Response.mkHS (fst (Child.prepare connection res)) (c_out (WebSocket.p_conn p)))
  = (Throw e, s) ->
  Child.respond fn connection req res p
  = (Throw e, WebSocket.set_conn (set_out (Response.hs_out s) (WebSocket.p_conn p)) p).
Proof.
  intros Hfn. unfold Child.respond.
  destruct (Child.prepare connection res) as [res0 ka0]. cbn [fst snd] in *.
  unfold bind at 1. unfold Child.responding at 1. now rewrite Hfn.
Qed.

(** [destroy] leaves the headers of the response as they are. *)
Lemma destroy_headers (st : Response.HS) :
  Response.headers (Response.hs_res (snd (Response.destroy st)))
  = Response.headers (Response.hs_res st).
Proof.
  unfold Response.destroy, Response.this, bind.
  destruct (Response.chunked (Response.hs_res st)); reflexivity.
Qed.

Lemma obj_get_set_same {V} k (v : V) l : Response.obj_get k (Response.obj_set k v l) = Some v.
Proof.
  induction l as [| [k' v'] rest IH]; cbn [Response.obj_set Response.obj_get].
  - now rewrite String.eqb_refl.
  - destruct (String.eqb k k') eqn:E; cbn [Response.obj_get].
    + now rewrite String.eqb_refl.
    + now rewrite E.
Qed.

Lemma left_header_close (s : Response.HS) :
  Response.headersKept (Response.hs_res s) = true ->
  Response.obj_get "Connection"
    (Response.headers (Response.hs_res (finished Child.RetFalse s))) = Some "close".
Proof.
  intros Hk. unfold finished, Child.set_held_header. rewrite destroy_headers, Hk.
  apply obj_get_set_same.
Qed.

Lemma left_headers_parted (s : Response.HS) :
  Response.headersKept (Response.hs_res s) = false ->
  Response.headers (Response.hs_res (finished Child.RetFalse s))
  = Response.headers (Response.hs_res s).
Proof.
  intros Hk. unfold finished, Child.set_held_header. now rewrite destroy_headers, Hk.
Qed.

Lemma left_headers_kept (s : Response.HS) :
  Response.headers (Response.hs_res (finished Child.RetOther s))
  = Response.headers (Response.hs_res s).
Proof. unfold finished. now rewrite destroy_headers. Qed.

Lemma prepare_keepAlive connection res :
  snd (Child.prepare connection res) = String.eqb connection "keep-alive".
Proof. unfold Child.prepare. now destruct (String.eqb connection "keep-alive"). Qed.

(** A request that is not an upgrade, and whose handler returns. *)
Lemma handleRequest_returned p req c1 answer s :
  Request.Request None (WebSocket.p_conn p) = (Ok req, c1) ->
  connectionOf req <> "upgrade" ->
  fn req (Response.mkHS (prepared req) (c_out c1)) = (Ok answer, s) ->
  Child.handleRequest fn routes p
  = (Ok (keeps req answer), after_request p c1 req (Response.hs_out (finished answer s))).
Proof.
  intros Hreq Hup Hfn. unfold Child.handleRequest.
  assert (Hon : WebSocket.on_conn (Request.Request None) p = (Ok req, WebSocket.set_conn c1 p))
    by (unfold WebSocket.on_conn; now rewrite Hreq).
  rewrite (bind_Ok _ _ _ _ _ Hon). rewrite bind_modify. fold (connectionOf req).
  apply String.eqb_neq in Hup. rewrite Hup.
  rewrite bind_Ok with
    (1 := respond_returned (connectionOf req) req (Response.Response req)
            (WebSocket.fire (WebSocket.StartRequest req) (WebSocket.set_conn c1 p)) answer s Hfn).
  unfold ret, keeps, after_request. cbn [fst]. now rewrite prepare_keepAlive.
Qed.

(** A request that is not an upgrade, and whose handler throws. *)
Lemma handleRequest_threw p req c1 e s :
  Request.Request None (WebSocket.p_conn p) = (Ok req, c1) ->
  connectionOf req <> "upgrade" ->
  fn req (Response.mkHS (prepared req) (c_out c1)) = (Throw e, s) ->
  Child.handleRequest fn routes p = (Throw e, after_request p c1 req (Response.hs_out s)).
Proof.
  intros Hreq Hup Hfn. unfold Child.handleRequest.
  assert (Hon : WebSocket.on_conn (Request.Request None) p = (Ok req, WebSocket.set_conn c1 p))
    by (unfold WebSocket.on_conn; now rewrite Hreq).
  rewrite (bind_Ok _ _ _ _ _ Hon). rewrite bind_modify. fold (connectionOf req).
  apply String.eqb_neq in Hup. rewrite Hup.
  now rewrite bind_Throw with
    (1 := respond_threw (connectionOf req) req (Response.Response req)
            (WebSocket.fire (WebSocket.StartRequest req) (WebSocket.set_conn c1 p)) e s Hfn).
Qed.

(** *** One turn of the loop *)

Lemma turn_returned p req c1 answer s :
  Request.Request None (WebSocket.p_conn p) = (Ok req, c1) ->
  connectionOf req <> "upgrade" ->
  fn req (Response.mkHS (prepared req) (c_out c1)) = (Ok answer, s) ->
  Child.turn fn routes p
  = (Ok (keeps req answer),
     WebSocket.fire WebSocket.EndRequest
       (after_request p c1 req (Response.hs_out (finished answer s)))).
Proof.
  intros Hreq Hup Hfn. unfold Child.turn, try_catch.
  rewrite (bind_Ok _ _ _ _ _ (handleRequest_returned p req c1 answer s Hreq Hup Hfn)).
  reflexivity.
Qed.

Lemma turn_stopped p req c1 s :
  Request.Request None (WebSocket.p_conn p) = (Ok req, c1) ->
  connectionOf req <> "upgrade" ->
  fn req (Response.mkHS (prepared req) (c_out c1)) = (Throw RES_STOP, s) ->
  Child.turn fn routes p = (Ok true, after_request p c1 req (Response.hs_out s)).
Proof.
  intros Hreq Hup Hfn. unfold Child.turn, try_catch.
  rewrite (bind_Throw _ _ _ _ _ (handleRequest_threw p req c1 RES_STOP s Hreq Hup Hfn)).
  reflexivity.
Qed.

(** *** The input only shrinks, and a turn that is followed by another has
    taken a request line *)

Lemma preads_ret {A} (a : A) : preads (ret a).
Proof. intros p r p' [= _ <-]. lia. Qed.

Lemma preads_throw {A} e : preads (@throw _ A e).
Proof. intros p r p' [= _ <-]. lia. Qed.

Lemma preads_get : preads get.
Proof. intros p r p' [= _ <-]. lia. Qed.

Lemma preads_bind {A B} (m : M WebSocket.Proc A) (k : A -> M WebSocket.Proc B) :
  preads m -> (forall a, preads (k a)) -> preads (bind m k).
Proof.
  intros Hm Hk p r p' E.
  destruct (bind_inv _ _ _ _ _ E) as [(a & p1 & E1 & E2) | [(e & E1 & _) | (E1 & _)]].
  - apply Hm in E1. apply Hk in E2. lia.
  - now apply Hm in E1.
  - now apply Hm in E1.
Qed.

Lemma preads_modify (f : WebSocket.Proc -> WebSocket.Proc) :
  (forall p, WebSocket.p_conn (f p) = WebSocket.p_conn p) -> preads (modify f).
Proof. intros Hf p r p' [= _ <-]. rewrite Hf. lia. Qed.

Lemma preads_try_catch {A} (m : M WebSocket.Proc A) h :
  preads m -> (forall e, preads (h e)) -> preads (try_catch m h).
Proof.
  intros Hm Hh p r p' E. unfold try_catch in E.
  destruct (m p) as [[a | e |] p1] eqn:E1; pose proof (Hm _ _ _ E1).
  - inversion E. now subst.
  - apply Hh in E. lia.
  - inversion E. now subst.
Qed.

Lemma preads_try_finally {A} (m : M WebSocket.Proc A) f :
  preads m -> preads f -> preads (try_finally m f).
Proof.
  intros Hm Hf p r p' E. apply try_finally_inv in E.
  destruct E as [[E1 _] | (r1 & p1 & rf & E1 & _ & E2 & _)].
  - now apply Hm in E1.
  - apply Hm in E1. apply Hf in E2. lia.
Qed.

Lemma preads_on_conn {A} (m : M Conn A) : reads m -> preads (WebSocket.on_conn m).
Proof.
  intros Hm p r p' E. unfold WebSocket.on_conn in E.
  destruct (m (WebSocket.p_conn p)) as [r0 c] eqn:E0. inversion E; subst.
  apply Hm in E0. exact E0.
Qed.

Lemma preads_responding {A} (m : M Response.HS A) res : preads (Child.responding m res).
Proof.
  intros p r p' E. unfold Child.responding in E.
  destruct (m _) as [[a | e |] s]; inversion E; subst; simpl; lia.
Qed.

Lemma preads_run ws ls : preads (WebSocket.run ws ls).
Proof.
  unfold WebSocket.run.
  apply preads_bind; [now apply preads_modify |]. intros _.
  apply preads_try_finally.
  - apply preads_bind; [apply preads_get |]. intros p0.
    apply preads_on_conn, reads_messages.
  - apply preads_try_finally; [apply preads_on_conn, reads_sending | now apply preads_modify].
Qed.

Lemma preads_upgrade req res : preads (Child.upgrade routes req res).
Proof.
  unfold Child.upgrade. destruct (Request.header _ "upgrade"); [| apply preads_throw].
  destruct (negb _); [apply preads_ret |].
  destruct (Child.lookupRoute routes _); [| apply preads_ret].
  apply preads_bind; [intros p r p' [= _ <-]; simpl; lia |]. intros n.
  apply preads_bind; [apply preads_responding |]. intros ws.
  apply preads_bind; [apply preads_on_conn, reads_sending |]. intros ls.
  apply preads_bind; [apply preads_run |]. intros _. apply preads_ret.
Qed.

Lemma preads_respond connection req res : preads (Child.respond fn connection req res).
Proof.
  unfold Child.respond. destruct (Child.prepare _ _) as [res0 ka0].
  apply preads_bind; [apply preads_responding |]. intros [answer res1].
  cbn [fst snd]. destruct answer;
    (apply preads_bind; [apply preads_responding | intros; apply preads_ret]).
Qed.

(** What [handleRequest] ends with: it has taken a request line, or the
    parser threw, or it never ends. *)
Lemma handleRequest_progress p r p' :
  Child.handleRequest fn routes p = (r, p') ->
  (List.length (c_is (WebSocket.p_conn p')) < List.length (c_is (WebSocket.p_conn p)))%nat \/
  (exists e, r = Throw e /\ parse_error e) \/
  r = Diverge.
Proof.
  unfold Child.handleRequest. intros E.
  destruct (bind_inv _ _ _ _ _ E) as [(req & p1 & E1 & E2) | [(e & E1 & ->) | (_ & ->)]];
    [left | right; left | right; right; reflexivity].
  - unfold WebSocket.on_conn in E1.
    destruct (Request.Request None (WebSocket.p_conn p)) as [r0 c1] eqn:Er.
    inversion E1; subst r0 p1. apply Request_Ok in Er.
    assert (Hk : (List.length (c_is (WebSocket.p_conn p'))
                  <= List.length (c_is (WebSocket.p_conn (WebSocket.set_conn c1 p))))%nat);
      [| simpl in Hk; lia].
    revert E2. match goal with |- ?k _ = _ -> _ => assert (Hr : preads k) end; [| apply Hr].
    apply preads_bind; [now apply preads_modify |]. intros _.
    destruct (String.eqb _ "upgrade"); [apply preads_upgrade |].
    apply preads_bind; [apply preads_respond | intros; apply preads_ret].
  - exists e. split; [reflexivity |].
    unfold WebSocket.on_conn in E1.
    destruct (Request.Request None (WebSocket.p_conn p)) as [r0 c1] eqn:Er.
    inversion E1; subst r0. eapply throws_Request; eauto.
Qed.

(** A turn that asks for another has taken a request line. *)
Lemma turn_again p p' :
  Child.turn fn routes p = (Ok true, p') ->
  (List.length (c_is (WebSocket.p_conn p')) < List.length (c_is (WebSocket.p_conn p)))%nat.
Proof.
  unfold Child.turn, try_catch.
  destruct (Child.handleRequest fn routes p) as [r p1] eqn:E.
  pose proof (handleRequest_progress _ _ _ E) as Hp.
  unfold bind at 1. rewrite E. destruct r as [ka | e |].
  - rewrite bind_modify. intros [= _ <-]. simpl.
    destruct Hp as [Hp | [(e & He & _) | He]]; [exact Hp | discriminate He | discriminate He].
  - destruct (decide (e = THREAD_EXIT)); [discriminate |].
    destruct (decide (e = EOF)); [discriminate |].
    destruct (nullish e); [discriminate |].
    destruct (Child.hasDumpText e); [discriminate |].
    destruct (decide (e = RES_STOP)) as [-> |]; [| discriminate].
    intros [= <-].
    destruct Hp as [Hp | [(e & [= <-] & He & _) | He]];
      [exact Hp | now elim He | discriminate He].
  - discriminate.
Qed.

Lemma requests_S fuel :
  Child.requests (Datatypes.S fuel) fn routes
  = bind (Child.turn fn routes)
      (fun again => if again then Child.requests fuel fn routes else ret tt).
Proof. reflexivity. Qed.

(** Fuel beyond the bytes still to come changes nothing. *)
Lemma requests_fuel n : forall m p,
  (List.length (c_is (WebSocket.p_conn p)) < n)%nat ->
  (List.length (c_is (WebSocket.p_conn p)) < m)%nat ->
  Child.requests n fn routes p = Child.requests m fn routes p.
Proof.
  induction n as [| n IH]; intros m p Hn Hm; [lia |].
  destruct m as [| m]; [lia |].
  rewrite !requests_S. unfold bind.
  destruct (Child.turn fn routes p) as [[[] | e |] p1] eqn:E; try reflexivity.
  apply turn_again in E. apply IH; lia.
Qed.

(** *** The service of a connection, turn by turn *)

Lemma connection_again p p' :
  Child.turn fn routes p = (Ok true, p') ->
  Child.connection fn routes p = Child.connection fn routes p'.
Proof.
  intros E. unfold Child.connection. rewrite !bind_get.
  pose proof (turn_again _ _ E) as Hlt.
  assert (Hreq : Child.requests (Datatypes.S (List.length (c_is (WebSocket.p_conn p)))) fn routes p
                 = Child.requests (Datatypes.S (List.length (c_is (WebSocket.p_conn p'))))
                     fn routes p').
  { rewrite requests_S. unfold bind. rewrite E. apply requests_fuel; lia. }
  unfold bind. now rewrite Hreq.
Qed.

Lemma connection_over p p' :
  Child.turn fn routes p = (Ok false, p') ->
  Child.connection fn routes p = (Ok tt, WebSocket.fire WebSocket.Destroyed p').
Proof.
  intros E. unfold Child.connection. rewrite bind_get.
  rewrite requests_S. unfold bind. now rewrite E.
Qed.

End Worker.

(** *** Keep-alive *)

(** Against C1 as stated. The advisory header the worker sets is
    [timeout: 5; max = 10000000], not [timeout=5; max=10000000]; a handler
    that returns [false] on a keep-alive request ends the service of the
    connection, and the request that follows is not served; a handler that
    stops a [Connection: close] request leaves the connection open, and the
    request that follows is served. *)
Lemma keep_alive_counterexample :
  Response.obj_get "keep-alive"
    (Response.headers (fst (@Child.prepare exampleHost "keep-alive"
                              (Response.Response exampleRequest))))
  = Some "timeout: 5; max = 10000000" /\
  (let p := snd (@Child.connection exampleHost refusing ∅
                   (accepted (keepAliveRequest +:+ keepAliveRequest))) in
   (trace p, string_of_list_ascii (c_is (WebSocket.p_conn p))))
  = (["startRequest /one"; "endRequest"; "destroyed"], keepAliveRequest) /\
  trace (snd (@Child.connection exampleHost stopping ∅
                (accepted (closeRequest +:+ keepAliveRequest))))
  = ["startRequest /two"; "startRequest /one"; "endRequest"; "destroyed"].
Proof. repeat split; vm_compute; reflexivity. Qed.

(** C1, as the code has it. For a parsed request that is not an upgrade and
    whose handler returns: if its Connection header, in lower case, is
    [keep-alive], the handler finds the response with exactly the headers
    [Connection: Keep-Alive] and [keep-alive: timeout: 5; max = 10000000],
    and, unless the handler returns [false], the service of the connection
    goes on with the bytes that follow as if it had just begun there; for
    any other value, or none, the handler finds exactly [Connection: close],
    and when it has returned the loop ends and the connection is
    destroyed. A handler that returns [false] ends the loop as well, and
    the worker then sets [Connection: close] on the headers of the
    response: that is the header of the response object it leaves, unless
    the handler has put another object in the place of [res.headers];
    after any other return it leaves the headers as the handler left
    them. *)
Theorem connection_header_decides {H : Host} (fn : Child.Handler)
    (routes : gmap string Child.OnConnect) (p : WebSocket.Proc) (req : Request.t) (c1 : Conn)
    (answer : Child.HandlerRet) (s : Response.HS) :
  Request.Request None (WebSocket.p_conn p) = (Ok req, c1) ->
  connectionOf req <> "upgrade" ->
  fn req (Response.mkHS (prepared req) (c_out c1)) = (Ok answer, s) ->
  let p' := WebSocket.fire WebSocket.EndRequest
              (after_request p c1 req (Response.hs_out (finished answer s))) in
  (connectionOf req = "keep-alive" ->
   Response.headers (prepared req)
   = [("Connection", "Keep-Alive"); ("keep-alive", "timeout: 5; max = 10000000")]) /\
  (connectionOf req <> "keep-alive" ->
   Response.headers (prepared req) = [("Connection", "close")]) /\
  (connectionOf req = "keep-alive" -> answer = Child.RetOther ->
   Child.connection fn routes p = Child.connection fn routes p') /\
  (connectionOf req <> "keep-alive" \/ answer = Child.RetFalse ->
   Child.connection fn routes p = (Ok tt, WebSocket.fire WebSocket.Destroyed p')) /\
  c_is (WebSocket.p_conn p') = c_is c1 /\
  (exists response,
     Child.respond fn (connectionOf req) req (Response.Response req)
       (WebSocket.fire (WebSocket.StartRequest req) (WebSocket.set_conn c1 p))
     = (Ok (keeps req answer, response),
        after_request p c1 req (Response.hs_out (finished answer s))) /\
     (answer = Child.RetFalse -> Response.headersKept (Response.hs_res s) = true ->
      Response.obj_get "Connection" (Response.headers response) = Some "close") /\
     (answer = Child.RetOther \/ Response.headersKept (Response.hs_res s) = false ->
      Response.headers response = Response.headers (Response.hs_res s))).
Proof.
  intros Hreq Hup Hfn p'.
  pose proof (turn_returned fn routes p req c1 answer s Hreq Hup Hfn) as Hturn.
  fold p' in Hturn. unfold prepared, Child.prepare.
  split; [| split; [| split; [| split; [| split]]]].
  - intros ->. reflexivity.
  - intros Hne. apply String.eqb_neq in Hne. now rewrite Hne.
  - intros Hka ->. apply connection_again. rewrite Hturn. unfold keeps.
    now rewrite Hka.
  - intros Hor. apply connection_over. rewrite Hturn. unfold keeps.
    destruct Hor as [Hne | ->]; [| now rewrite andb_false_r].
    apply String.eqb_neq in Hne. now rewrite Hne.
  - reflexivity.
  - exists (Response.hs_res (finished answer s)). split; [| split].
    + rewrite (respond_returned fn (connectionOf req) req (Response.Response req)
                 (WebSocket.fire (WebSocket.StartRequest req) (WebSocket.set_conn c1 p))
                 answer s Hfn).
      unfold keeps. now rewrite prepare_keepAlive.
    + intros ->. apply left_header_close.
    + intros [-> | Hk]; [apply left_headers_kept |].
      destruct answer; [now apply left_headers_parted | apply left_headers_kept].
Qed.

Lemma connection_header_decides_witness :
  exists p',
    string_of_list_ascii (c_is (WebSocket.p_conn p')) = closeRequest /\
    @Child.connection exampleHost idle ∅ (accepted (keepAliveRequest +:+ closeRequest))
    = @Child.connection exampleHost idle ∅ p'.
Proof.
  set (p := @accepted exampleHost (keepAliveRequest +:+ closeRequest)).
  assert (Hobs : match fst (@Request.Request exampleHost None (WebSocket.p_conn p)) with
                 | Ok req => connectionOf req
                 | _ => EmptyString
                 end = "keep-alive") by (vm_compute; reflexivity).
  assert (Hrest : string_of_list_ascii
                    (c_is (snd (@Request.Request exampleHost None (WebSocket.p_conn p))))
                  = closeRequest) by (vm_compute; reflexivity).
  destruct (@Request.Request exampleHost None (WebSocket.p_conn p)) as [[req | e |] c1] eqn:Hreq;
    cbn [fst snd] in Hobs, Hrest; [| discriminate Hobs | discriminate Hobs].
  assert (Hup : connectionOf req <> "upgrade") by (rewrite Hobs; discriminate).
  destruct (connection_header_decides idle ∅ p req c1 Child.RetOther
              (Response.mkHS (prepared req) (c_out c1)) Hreq Hup eq_refl)
    as (_ & _ & Hgo & _ & Hin & _).
  eexists. split; [| apply (Hgo Hobs eq_refl)].
  rewrite Hin. exact Hrest.
Defined.

(** *** Early termination *)

(** C7. [res.stop()] throws the signal [RES.STOP] and does nothing else.
    When the handler of a parsed request (not an upgrade) ends with that
    signal, the turn of the request loop catches it and asks for another
    turn: nothing is destroyed, no 'endRequest' is fired, the connection
    keeps the bytes that follow the request, and the service of the
    connection goes on with them as if it had just begun there. *)
Theorem stop_keeps_connection {H : Host} (fn : Child.Handler)
    (routes : gmap string Child.OnConnect) (p : WebSocket.Proc) (req : Request.t) (c1 : Conn)
    (s : Response.HS) :
  Request.Request None (WebSocket.p_conn p) = (Ok req, c1) ->
  connectionOf req <> "upgrade" ->
  fn req (Response.mkHS (prepared req) (c_out c1)) = (Throw RES_STOP, s) ->
  let p' := after_request p c1 req (Response.hs_out s) in
  (forall st : Response.HS, @Response.stop H Child.HandlerRet st = (Throw RES_STOP, st)) /\
  Child.turn fn routes p = (Ok true, p') /\
  Child.connection fn routes p = Child.connection fn routes p' /\
  WebSocket.p_events p' = (WebSocket.p_events p ++ [WebSocket.StartRequest req])%list /\
  c_is (WebSocket.p_conn p') = c_is c1.
Proof.
  intros Hreq Hup Hfn p'.
  pose proof (turn_stopped fn routes p req c1 s Hreq Hup Hfn) as Hturn.
  split; [reflexivity |]. split; [exact Hturn |].
  split; [now apply connection_again |]. split; reflexivity.
Qed.

Lemma stop_keeps_connection_witness :
  (exists p',
     string_of_list_ascii (c_is (WebSocket.p_conn p')) = keepAliveRequest /\
     @Child.connection exampleHost stopping ∅ (accepted (closeRequest +:+ keepAliveRequest))
     = @Child.connection exampleHost stopping ∅ p') /\
  trace (snd (@Child.connection exampleHost stopping ∅
                (accepted (closeRequest +:+ keepAliveRequest))))
  = ["startRequest /two"; "startRequest /one"; "endRequest"; "destroyed"].
Proof.
  split; [| vm_compute; reflexivity].
  set (p := @accepted exampleHost (closeRequest +:+ keepAliveRequest)).
  assert (Hobs : match fst (@Request.Request exampleHost None (WebSocket.p_conn p)) with
                 | Ok req => (connectionOf req, Request.uri req)
                 | _ => (EmptyString, EmptyString)
                 end = ("close", "/two")) by (vm_compute; reflexivity).
  assert (Hrest : string_of_list_ascii
                    (c_is (snd (@Request.Request exampleHost None (WebSocket.p_conn p))))
                  = keepAliveRequest) by (vm_compute; reflexivity).
  destruct (@Request.Request exampleHost None (WebSocket.p_conn p)) as [[req | e |] c1] eqn:Hreq;
    cbn [fst snd] in Hobs, Hrest; [| discriminate Hobs | discriminate Hobs].
  injection Hobs as Hconn Huri.
  assert (Hup : connectionOf req <> "upgrade") by (rewrite Hconn; discriminate).
  assert (Hfn : stopping req (Response.mkHS (prepared req) (c_out c1))
                = (Throw RES_STOP, Response.mkHS (prepared req) (c_out c1)))
    by (unfold stopping; rewrite Huri; reflexivity).
  destruct (stop_keeps_connection stopping ∅ p req c1 _ Hreq Hup Hfn)
    as (_ & _ & Hgo & _ & Hin).
  eexists. split; [| exact Hgo].
  rewrite Hin. exact Hrest.
Defined.

(** *** The registry *)


(** ** Bytes and the 32-bit operators *)

Lemma charCode_range b : 0 <= JS.charCode b < 256.
Proof. unfold JS.charCode. pose proof (N_ascii_bounded b). lia. Qed.

Lemma charCode_fromCharCode z : 0 <= z < 256 -> JS.charCode (JS.fromCharCode z) = z.
Proof.
  intros Hz. unfold JS.charCode, JS.fromCharCode. rewrite N_ascii_embedding by lia. lia.
Qed.

Lemma to_int32_small z : - 2 ^ 31 <= z < 2 ^ 31 -> JS.to_int32 z = z.
Proof. intros Hz. unfold JS.to_int32. rewrite Z.mod_small; lia. Qed.

Lemma to_int32_range z : - 2 ^ 31 <= JS.to_int32 z < 2 ^ 31.
Proof. unfold JS.to_int32. pose proof (Z.mod_pos_bound (z + 2 ^ 31) (2 ^ 32)). lia. Qed.

(** [to_int32] moves its argument by a multiple of [2 ^ 32]. *)
Lemma to_int32_wrap z : exists k, JS.to_int32 z = z + k * 2 ^ 32.
Proof.
  exists (- ((z + 2 ^ 31) / 2 ^ 32)). unfold JS.to_int32.
  rewrite Z.mod_eq by lia. lia.
Qed.

Lemma to_int32_add_mul z k : JS.to_int32 (z + k * 2 ^ 32) = JS.to_int32 z.
Proof.
  unfold JS.to_int32. replace (z + k * 2 ^ 32 + 2 ^ 31) with (z + 2 ^ 31 + k * 2 ^ 32) by lia.
  now rewrite Z_mod_plus_full.
Qed.

Lemma lor_low_byte k b : 0 <= b < 256 -> Z.lor (k * 256) b = k * 256 + b.
Proof.
  intros Hb. symmetry. apply Z.add_nocarry_lor.
  apply Z.bits_inj'. intros n Hn. rewrite Z.land_spec, Z.bits_0.
  destruct (Z.lt_ge_cases n 8) as [Hlt | Hge].
  - change 256 with (2 ^ 8). rewrite Z.mul_pow2_bits_low by lia. reflexivity.
  - rewrite (Z.bits_above_log2 b n), andb_false_r; [reflexivity | lia |].
    destruct (Z.eq_dec b 0) as [-> | Hnz]; [simpl; lia |].
    apply Z.lt_le_trans with 8; [| lia]. apply Z.log2_lt_pow2; lia.
Qed.

(** [len = len << 8; len |= b] on a byte [b]. *)
Lemma or_shl_byte x b :
  0 <= b < 256 -> JS.or (JS.shl x 8) b = JS.to_int32 (x * 256 + b).
Proof.
  intros Hb. unfold JS.or, JS.shl. change (Z.land 8 31) with 8.
  rewrite Z.shiftl_mul_pow2 by lia. change (2 ^ 8) with 256.
  rewrite (to_int32_small (JS.to_int32 _)) by apply to_int32_range.
  rewrite (to_int32_small b) by lia.
  destruct (to_int32_wrap x) as [k Hk]. rewrite Hk.
  destruct (to_int32_wrap ((x + k * 2 ^ 32) * 256)) as [k' Hk']. rewrite Hk'.
  replace ((x + k * 2 ^ 32) * 256 + k' * 2 ^ 32) with ((x + k * 2 ^ 32 + k' * 2 ^ 24) * 256) by lia.
  rewrite lor_low_byte by lia.
  replace ((x + k * 2 ^ 32 + k' * 2 ^ 24) * 256 + b)
    with (x * 256 + b + (k * 256 + k') * 2 ^ 32) by lia.
  apply to_int32_add_mul.
Qed.

Lemma to_int32_or_shl y b :
  JS.to_int32 (JS.to_int32 y * 256 + b) = JS.to_int32 (y * 256 + b).
Proof.
  destruct (to_int32_wrap y) as [k Hk]. rewrite Hk.
  replace ((y + k * 2 ^ 32) * 256 + b) with (y * 256 + b + (k * 256) * 2 ^ 32) by lia.
  apply to_int32_add_mul.
Qed.

(** [(len >> k) & 0xff] on a length below [2 ^ 31]. *)
Lemma and_shr_byte n k :
  0 <= n < 2 ^ 31 -> 0 <= k ->
  JS.and (JS.shr n k) 0xff = (n / 2 ^ Z.land k 31) mod 256.
Proof.
  intros Hn Hk. unfold JS.and, JS.shr.
  assert (Hs : 0 <= Z.land k 31) by (apply Z.land_nonneg; lia).
  rewrite (to_int32_small n) by lia. rewrite Z.shiftr_div_pow2 by exact Hs.
  assert (Hq : 0 <= n / 2 ^ Z.land k 31 <= n).
  { split; [apply Z.div_pos; lia |]. apply Z.div_le_upper_bound; [lia |].
    assert (1 <= 2 ^ Z.land k 31) by (apply (Z.pow_le_mono_r 2 0); lia). nia. }
  rewrite (to_int32_small (n / _)) by lia. rewrite (to_int32_small 255) by lia.
  change 255 with (Z.ones 8). rewrite Z.land_ones by lia. change (2 ^ 8) with 256.
  apply to_int32_small. pose proof (Z.mod_pos_bound (n / 2 ^ Z.land k 31) 256). lia.
Qed.

(** A property of the numbers below a bound, checked on each of them. *)
Lemma below_all (P : Z -> bool) (N : nat) :
  forallb P (List.map Z.of_nat (seq 0 N)) = true ->
  forall n, 0 <= n < Z.of_nat N -> P n = true.
Proof.
  intros Hall n Hn. rewrite forallb_forall in Hall. apply Hall.
  apply in_map_iff. exists (Z.to_nat n). split; [lia |]. apply in_seq. lia.
Qed.

(** The length byte of a frame header, taken apart. *)
Lemma length_byte n :
  0 <= n < 128 ->
  JS.and n 0x7f = n /\ JS.and n 0x80 = 0 /\
  JS.and (0x80 + n) 0x7f = n /\ JS.and (0x80 + n) 0x80 = 0x80.
Proof.
  intros Hn.
  pose proof (below_all
    (fun n => (JS.and n 0x7f =? n) && (JS.and n 0x80 =? 0)
              && (JS.and (0x80 + n) 0x7f =? n) && (JS.and (0x80 + n) 0x80 =? 0x80)) 128
    eq_refl n Hn) as Hp.
  cbv beta in Hp. rewrite !andb_true_iff, !Z.eqb_eq in Hp. tauto.
Qed.

Lemma lxor_byte a b : 0 <= a < 256 -> 0 <= b < 256 -> 0 <= Z.lxor a b < 256.
Proof.
  intros Ha Hb. split; [apply Z.lxor_nonneg; lia |].
  destruct (Z.eq_dec (Z.lxor a b) 0) as [-> | Hnz]; [lia |].
  assert (Hl : Z.log2 (Z.lxor a b) < 8).
  { apply Z.le_lt_trans with (Z.max (Z.log2 a) (Z.log2 b)); [apply Z.log2_lxor; lia |].
    apply Z.max_lub_lt.
    - destruct (Z.eq_dec a 0) as [-> | ?]; [simpl; lia | apply Z.log2_lt_pow2; lia].
    - destruct (Z.eq_dec b 0) as [-> | ?]; [simpl; lia | apply Z.log2_lt_pow2; lia]. }
  change 256 with (2 ^ 8). apply Z.log2_lt_pow2; [| exact Hl].
  assert (0 <= Z.lxor a b) by (apply Z.lxor_nonneg; lia). lia.
Qed.

(** Unmasking undoes masking. *)
Lemma xor_xorByte b k :
  JS.fromCharCode (JS.xor (JS.charCode (xorByte b k)) (JS.charCode k)) = b.
Proof.
  pose proof (charCode_range b) as Hb. pose proof (charCode_range k) as Hk.
  pose proof (lxor_byte _ _ Hb Hk) as Hx.
  unfold xorByte. rewrite charCode_fromCharCode by exact Hx.
  unfold JS.xor. rewrite (to_int32_small (Z.lxor (JS.charCode b) (JS.charCode k))) by lia.
  rewrite (to_int32_small (JS.charCode k)) by lia.
  rewrite Z.lxor_assoc, Z.lxor_nilpotent, Z.lxor_0_r.
  rewrite to_int32_small by lia.
  unfold JS.fromCharCode, JS.charCode. rewrite N2Z.id. apply ascii_N_embedding.
Qed.

(** ** Frames of every form *)


Lemma bigEndian_cons b bs acc :
  bigEndian (b :: bs) acc = bigEndian bs (acc * 256 + JS.charCode b).
Proof. reflexivity. Qed.

Lemma bigEndian_wrap bs : forall acc k,
  exists k', bigEndian bs (acc + k * 2 ^ 32) = bigEndian bs acc + k' * 2 ^ 32.
Proof.
  induction bs as [| b bs IH]; intros acc k.
  - exists k. reflexivity.
  - rewrite !bigEndian_cons.
    replace ((acc + k * 2 ^ 32) * 256 + JS.charCode b)
      with (acc * 256 + JS.charCode b + (k * 256) * 2 ^ 32) by lia.
    destruct (IH (acc * 256 + JS.charCode b) (k * 256)) as [k' Hk'].
    exists k'. exact Hk'.
Qed.

Lemma readLen64_S n len :
  readLen64 (Datatypes.S n) len = bind readByte (fun b => readLen64 n (JS.or (JS.shl len 8) b)).
Proof. reflexivity. Qed.

Lemma fold_left_cons {A B} (f : A -> B -> A) b bs a :
  fold_left f (b :: bs) a = fold_left f bs (f a b).
Proof. reflexivity. Qed.

Lemma readLen64_bytes bs : forall len rest c,
  readLen64 (List.length bs) len (set_is (bs ++ rest) c)
  = (Ok (fold_left (fun acc b => JS.or (JS.shl acc 8) (JS.charCode b)) bs len), set_is rest c).
Proof.
  induction bs as [| b bs IH]; intros len rest c; [reflexivity |].
  cbn [List.length]. rewrite readLen64_S, <- app_comm_cons, bind_readByte, IH.
  now rewrite fold_left_cons.
Qed.

(** The loop of the 64-bit length keeps the low thirty-two bits of what it
    reads. *)
Lemma len64_value bs : forall acc,
  bs <> [] ->
  fold_left (fun acc b => JS.or (JS.shl acc 8) (JS.charCode b)) bs acc
  = JS.to_int32 (bigEndian bs acc).
Proof.
  induction bs as [| b bs IH]; intros acc Hne; [now elim Hne |].
  rewrite fold_left_cons, or_shl_byte by apply charCode_range.
  destruct bs as [| b' bs]; [now rewrite bigEndian_cons |].
  rewrite IH by discriminate. rewrite (bigEndian_cons b).
  destruct (to_int32_wrap (acc * 256 + JS.charCode b)) as [k Hk]. rewrite Hk.
  destruct (bigEndian_wrap (b' :: bs) (acc * 256 + JS.charCode b) k) as [k' Hk'].
  rewrite Hk'. exact (to_int32_add_mul _ k').
Qed.

Lemma bigEndian_app l1 l2 acc : bigEndian (l1 ++ l2) acc = bigEndian l2 (bigEndian l1 acc).
Proof. apply fold_left_app. Qed.

Lemma bigEndian_bigEndian32 n acc :
  0 <= n < 2 ^ 32 -> bigEndian (bigEndian32 n) acc = acc * 2 ^ 32 + n.
Proof.
  intros Hn. unfold bigEndian, bigEndian32. cbn [List.map fold_left].
  rewrite !charCode_fromCharCode by (apply Z.mod_pos_bound; lia).
  change (8 * 3) with 24. change (8 * 2) with 16. change (8 * 1) with 8. change (8 * 0) with 0.
  change (2 ^ 0) with 1. rewrite Z.div_1_r.
  change (2 ^ 24) with (256 * 256 * 256). change (2 ^ 16) with (256 * 256). change (2 ^ 8) with 256.
  rewrite <- !Z.div_div by lia.
  pose proof (Z.div_mod n 256 ltac:(lia)) as E0.
  pose proof (Z.div_mod (n / 256) 256 ltac:(lia)) as E1.
  pose proof (Z.div_mod (n / 256 / 256) 256 ltac:(lia)) as E2.
  pose proof (Z.mod_pos_bound n 256 ltac:(lia)).
  pose proof (Z.mod_pos_bound (n / 256) 256 ltac:(lia)).
  pose proof (Z.mod_pos_bound (n / 256 / 256) 256 ltac:(lia)).
  assert (E3 : 0 <= n / 256 / 256 / 256 < 256).
  { split; [repeat apply Z.div_pos; lia |].
    repeat (apply Z.div_lt_upper_bound; [lia |]). lia. }
  rewrite (Z.mod_small (n / 256 / 256 / 256)) by exact E3. lia.
Qed.

(** The length field of a frame header, read back. *)
Lemma wireLength_bytes n :
  65536 <= n < 2 ^ 31 ->
  wireLength false n = JS.fromCharCode 127 :: bigEndian32 0 ++ bigEndian32 n /\
  wireLength true n = JS.fromCharCode 255 :: bigEndian32 0 ++ bigEndian32 n.
Proof.
  intros Hn. unfold wireLength.
  replace (n <? 126) with false by (symmetry; apply Z.ltb_ge; lia).
  replace (n <? 65536) with false by (symmetry; apply Z.ltb_ge; lia).
  assert (Hhi : forall k, 32 <= k -> (n / 2 ^ k) mod 256 = 0).
  { intros k Hk. rewrite Z.div_small; [reflexivity |]. split; [lia |].
    apply Z.lt_le_trans with (2 ^ 32); [lia |]. apply Z.pow_le_mono_r; lia. }
  cbn [List.map]. rewrite !Hhi by lia. split; reflexivity.
Qed.

Lemma readPayload_S b rest i len mask ndx msg :
  i < len ->
  readPayload (b :: rest) i len mask ndx msg
  = match mask with
    | Some m =>
        readPayload rest (i + 1) len mask ((ndx + 1) mod 4)
          (msg +:+ String (JS.fromCharCode (JS.xor (JS.charCode b) (nth (Z.to_nat ndx) m 0))) "")
    | None =>
        readPayload rest (i + 1) len mask (ndx mod 4)
          (msg +:+ String (JS.fromCharCode (JS.charCode b)) "")
    end.
Proof.
  intros Hlt. cbn [readPayload]. now replace (i <? len) with true by (symmetry; apply Z.ltb_lt; lia).
Qed.

(** The payload loop undoes the masking of a peer. *)
Lemma readPayload_masked m0 m1 m2 m3 s : forall rest i len k msg,
  len = i + JS.length s ->
  readPayload (maskWith [m0; m1; m2; m3] k (list_ascii_of_string s) ++ rest) i len
    (Some [JS.charCode m0; JS.charCode m1; JS.charCode m2; JS.charCode m3])
    (Z.of_nat (k mod 4)) msg
  = (Ok (msg +:+ s), rest).
Proof.
  induction s as [| b s IH]; intros rest i len k msg Hlen.
  - unfold JS.length in Hlen. simpl in Hlen. cbn [list_ascii_of_string maskWith app].
    rewrite readPayload_done by lia. now rewrite append_empty.
  - unfold JS.length in *. cbn [String.length] in Hlen. rewrite Nat2Z.inj_succ in Hlen.
    cbn [list_ascii_of_string maskWith app]. rewrite readPayload_S by lia.
    rewrite Nat2Z.id.
    change [JS.charCode m0; JS.charCode m1; JS.charCode m2; JS.charCode m3]
      with (List.map JS.charCode [m0; m1; m2; m3]).
    change 0 with (JS.charCode zero) at 1. rewrite map_nth, xor_xorByte.
    replace ((Z.of_nat (k mod 4) + 1) mod 4) with (Z.of_nat (Datatypes.S k mod 4)).
    + change (JS.charCode zero) with 0. rewrite IH by lia. now rewrite append_snoc.
    + pose proof (Nat.mod_upper_bound k 4). 
      replace (Datatypes.S k) with (k + 1)%nat by lia.
      rewrite (Nat.Div0.add_mod k 1 4). 
      destruct (k mod 4)%nat as [| [| [| [| j]]]]; try reflexivity. lia.
Qed.

Lemma payload_masked m0 m1 m2 m3 s rest len msg c :
  len = JS.length s ->
  payload len (Some [JS.charCode m0; JS.charCode m1; JS.charCode m2; JS.charCode m3]) msg
    (set_is (maskWith [m0; m1; m2; m3] 0 (list_ascii_of_string s) ++ rest) c)
  = (Ok (msg +:+ s), set_is rest c).
Proof.
  intros Hlen. unfold payload. cbn [c_is set_is].
  pose proof (readPayload_masked m0 m1 m2 m3 s rest 0 len 0 msg) as Hp.
  change (Z.of_nat (0 mod 4)) with 0 in Hp. rewrite Hp by lia. reflexivity.
Qed.

(** The automatic pong. *)
Lemma bind_pong {B} first (k : unit -> M Conn B) l c :
  bind (if opCode first =? 0x9 then sending rawSendPong else ret tt) k (set_is l c)
  = k tt (set_is l (ponged first c)).
Proof. unfold ponged. destruct (opCode first =? 9); reflexivity. Qed.

(** What [frame] does once it has the first byte of a frame that is not a
    close frame. *)
Lemma frame_first first msg l c :
  opCode first <> 0x8 ->
  frame msg (set_is (first :: l) c)
  = bind readByte (fun len =>
      let masked := JS.truthy (JS.and len 0x80) in
      let len := JS.and len 0x7f in
      bind (if len =? 0x7e then
              bind readByte (fun a => bind readByte (fun b => ret (JS.or (JS.shl a 8) b)))
            else if len =? 0x7f then readLen64 8 0
            else ret len)
        (fun len =>
           bind (if masked then
                   bind readByte (fun m0 => bind readByte (fun m1 =>
                   bind readByte (fun m2 => bind readByte (fun m3 =>
                     payload len (Some [m0; m1; m2; m3]) msg))))
                 else payload len None msg)
             (fun message =>
                ret (Some (if len =? 0 then false else isFinal first, message)))))
      (set_is l (ponged first c)).
Proof.
  intros Hop. apply Z.eqb_neq in Hop.
  unfold frame. rewrite bind_readByte. fold (opCode first). fold (isFinal first).
  cbv zeta. rewrite Hop. now rewrite bind_pong.
Qed.

Lemma bool_decide_is_Some {A} (o : option A) :
  bool_decide (is_Some o) = match o with Some _ => true | None => false end.
Proof. destruct o; reflexivity. Qed.

Lemma bind_bind {S A B C} (m : M S A) (f : A -> M S B) (k : B -> M S C) s :
  bind (bind m f) k s = bind m (fun a => bind (f a) k) s.
Proof. unfold bind. destruct (m s) as [[a | e |] s1]; reflexivity. Qed.

Lemma app_one {A} (x : A) (l : list A) : ([x] ++ l = x :: l)%list.
Proof. reflexivity. Qed.

(** The payload of a frame, once its length is known. *)
Lemma frame_payload (fin : bool) mask s msg rest c :
  bind (if match mask with Some _ => true | None => false end then
          bind readByte (fun m0 => bind readByte (fun m1 =>
          bind readByte (fun m2 => bind readByte (fun m3 =>
            payload (JS.length s) (Some [m0; m1; m2; m3]) msg))))
        else payload (JS.length s) None msg)
    (fun message => ret (Some (fin, message)))
    (set_is (match mask with
             | Some (m0, m1, m2, m3) =>
                 [m0; m1; m2; m3] ++ maskWith [m0; m1; m2; m3] 0 (list_ascii_of_string s)
             | None => list_ascii_of_string s
             end ++ rest) c)
  = (Ok (Some (fin, msg +:+ s)), set_is rest c).
Proof.
  destruct mask as [[[[m0 m1] m2] m3] |].
  - rewrite <- app_assoc, <- !app_comm_cons, app_nil_l.
    rewrite bind_bind, bind_readByte, bind_bind, bind_readByte, bind_bind, bind_readByte,
      bind_bind, bind_readByte.
    unfold bind. now rewrite payload_masked.
  - unfold bind. now rewrite payload_unmasked.
Qed.

(** One frame as a peer sends it, whatever its opcode (close apart), its
    length form and its mask: [frame] answers a ping, appends the payload
    to the message, and takes the frame for final when its FIN bit is set
    and its payload is not empty. *)
Lemma frame_wireFrame first mask s msg rest c :
  opCode first <> 0x8 -> JS.length s < 2 ^ 31 ->
  frame msg (set_is (wireFrame first mask s ++ rest) c)
  = (Ok (Some (if JS.length s =? 0 then false else isFinal first, msg +:+ s)),
     set_is rest (ponged first c)).
Proof.
  intros Hop Hlen. unfold wireFrame. rewrite <- app_comm_cons, frame_first by exact Hop.
  rewrite bool_decide_is_Some, <- app_assoc.
  assert (Hn : 0 <= JS.length s) by (unfold JS.length; lia).
  pose proof (frame_payload (if JS.length s =? 0 then false else isFinal first)
                mask s msg rest (ponged first c)) as Hp.
  set (tail := (match mask with Some (m0, m1, m2, m3) => _ | None => _ end ++ rest)%list) in *.
  set (hasMask := match mask with Some _ => true | None => false end) in *.
  clearbody tail hasMask.
  destruct (Z.ltb_spec (JS.length s) 126) as [H7 | H7];
    [| destruct (Z.ltb_spec (JS.length s) 65536) as [H16 | H16]].
  - (* seven bits *)
    unfold wireLength. replace (JS.length s <? 126) with true by (symmetry; apply Z.ltb_lt; lia).
    rewrite app_one, bind_readByte. cbv zeta.
    destruct (length_byte (JS.length s) ltac:(lia)) as (A1 & A2 & A3 & A4).
    destruct hasMask; rewrite charCode_fromCharCode by lia.
    + rewrite A3, A4.
      replace (JS.length s =? 126) with false by (symmetry; apply Z.eqb_neq; lia).
      replace (JS.length s =? 127) with false by (symmetry; apply Z.eqb_neq; lia).
      rewrite bind_ret. change (JS.truthy 128) with true. exact Hp.
    + rewrite Z.add_0_l, A1, A2.
      replace (JS.length s =? 126) with false by (symmetry; apply Z.eqb_neq; lia).
      replace (JS.length s =? 127) with false by (symmetry; apply Z.eqb_neq; lia).
      rewrite bind_ret. change (JS.truthy 0) with false. exact Hp.
  - (* sixteen bits *)
    unfold wireLength. replace (JS.length s <? 126) with false by (symmetry; apply Z.ltb_ge; lia).
    replace (JS.length s <? 65536) with true by (symmetry; apply Z.ltb_lt; lia).
    rewrite <- !app_comm_cons, app_nil_l, bind_readByte. cbv zeta.
    assert (Hq : 0 <= JS.length s / 256 < 256).
    { split; [apply Z.div_pos; lia | apply Z.div_lt_upper_bound; lia]. }
    pose proof (Z.mod_pos_bound (JS.length s) 256 ltac:(lia)) as Hr.
    assert (Hv : JS.or (JS.shl (JS.length s / 256) 8) (JS.length s mod 256) = JS.length s).
    { rewrite or_shl_byte by lia. pose proof (Z.div_mod (JS.length s) 256 ltac:(lia)).
      rewrite to_int32_small; lia. }
    destruct hasMask.
    + change (JS.and (JS.charCode (JS.fromCharCode (128 + 126))) 127 =? 126) with true.
      change (JS.truthy (JS.and (JS.charCode (JS.fromCharCode (128 + 126))) 128)) with true.
      cbv iota. rewrite bind_bind, bind_readByte, bind_bind, bind_readByte, bind_ret.
      rewrite !charCode_fromCharCode by lia. rewrite Hv. exact Hp.
    + change (JS.and (JS.charCode (JS.fromCharCode (0 + 126))) 127 =? 126) with true.
      change (JS.truthy (JS.and (JS.charCode (JS.fromCharCode (0 + 126))) 128)) with false.
      cbv iota. rewrite bind_bind, bind_readByte, bind_bind, bind_readByte, bind_ret.
      rewrite !charCode_fromCharCode by lia. rewrite Hv. exact Hp.
  - (* sixty-four bits *)
    destruct (wireLength_bytes (JS.length s) ltac:(lia)) as [Wf Wt].
    assert (Hv : forall l c0,
      readLen64 8 0 (set_is ((bigEndian32 0 ++ bigEndian32 (JS.length s)) ++ l) c0)
      = (Ok (JS.length s), set_is l c0)).
    { intros l c0.
      change (readLen64 8 0)
        with (readLen64 (List.length (bigEndian32 0 ++ bigEndian32 (JS.length s))) 0).
      rewrite (readLen64_bytes (bigEndian32 0 ++ bigEndian32 (JS.length s)) 0 l c0).
      rewrite len64_value by discriminate.
      rewrite bigEndian_app, !bigEndian_bigEndian32 by lia.
      replace ((0 * 2 ^ 32 + 0) * 2 ^ 32 + JS.length s) with (JS.length s) by lia.
      rewrite to_int32_small by lia. reflexivity. }
    destruct hasMask.
    + rewrite Wt. rewrite <- app_comm_cons, bind_readByte. cbv zeta.
      change (JS.and (JS.charCode (JS.fromCharCode 255)) 127 =? 126) with false.
      change (JS.and (JS.charCode (JS.fromCharCode 255)) 127 =? 127) with true.
      change (JS.truthy (JS.and (JS.charCode (JS.fromCharCode 255)) 128)) with true.
      cbv iota. rewrite (bind_Ok _ _ _ _ _ (Hv _ _)). exact Hp.
    + rewrite Wf. rewrite <- app_comm_cons, bind_readByte. cbv zeta.
      change (JS.and (JS.charCode (JS.fromCharCode 127)) 127 =? 126) with false.
      change (JS.and (JS.charCode (JS.fromCharCode 127)) 127 =? 127) with true.
      change (JS.truthy (JS.and (JS.charCode (JS.fromCharCode 127)) 128)) with false.
      cbv iota. rewrite (bind_Ok _ _ _ _ _ (Hv _ _)). exact Hp.
Qed.

(** ** Messages *)

Lemma wireFrame_length first mask s : (2 <= List.length (wireFrame first mask s))%nat.
Proof.
  unfold wireFrame, wireLength. cbn [List.length]. rewrite length_app.
  destruct (_ <? 126); [cbn [List.length]; lia |].
  destruct (_ <? 65536); cbn [List.length]; lia.
Qed.

Lemma wireFrames_length fs : (List.length fs <= List.length (wireFrames fs))%nat.
Proof.
  induction fs as [| f fs IH]; [simpl; lia |].
  unfold wireFrames in *. cbn [flat_map List.length]. rewrite length_app.
  pose proof (wireFrame_length (fst (fst f)) (snd (fst f)) (snd f)). lia.
Qed.

(** A run of frames that do not end the message: the loop takes one turn
    for each, collects the payloads and answers the pings. *)
Lemma frames_nonFinal fs : forall msg fuel rest c,
  Forall nonFinal fs ->
  frames (List.length fs + fuel) msg (set_is (wireFrames fs ++ rest) c)
  = frames fuel (msg +:+ payloads fs) (set_is rest (pongedAll fs c)).
Proof.
  induction fs as [| [[first mask] s] fs IH]; intros msg fuel rest c Hfs.
  - cbn [List.length wireFrames flat_map app payloads fold_right pongedAll fold_left Nat.add].
    now rewrite append_empty.
  - inversion Hfs as [| f fs' (Hop & Hlen & Hnf) Hrest]; subst. cbn [fst snd] in *.
    unfold wireFrames. cbn [List.length flat_map Nat.add fst snd]. fold (wireFrames fs).
    rewrite frames_S, <- app_assoc.
    rewrite (bind_Ok _ _ _ _ _ (frame_wireFrame first mask s msg _ c Hop Hlen)).
    replace (if JS.length s =? 0 then false else isFinal first) with false.
    + rewrite IH by exact Hrest.
      cbn [payloads fold_right pongedAll fold_left fst snd]. fold (payloads fs).
      f_equal. clear. induction msg as [| a msg IHm]; [reflexivity |].
      rewrite !append_cons. f_equal. exact IHm.
    + destruct Hnf as [-> | ->]; [now destruct (_ =? 0) | reflexivity].
Qed.

Lemma getMessage_frames fuel c :
  (List.length (c_is c) < fuel)%nat ->
  getMessage c = try_catch (frames fuel EmptyString) (fun _ => ret None) c.
Proof.
  intros Hf. unfold getMessage, try_catch.
  rewrite (frames_fuel _ fuel); [reflexivity | lia | exact Hf].
Qed.

Lemma getMessage_run fs tail c :
  Forall nonFinal fs ->
  getMessage (set_is (wireFrames fs ++ tail) c)
  = try_catch (frames (Datatypes.S (List.length tail)) (payloads fs)) (fun _ => ret None)
      (set_is tail (pongedAll fs c)).
Proof.
  intros Hfs.
  rewrite (getMessage_frames
             (List.length fs + Datatypes.S (List.length (wireFrames fs ++ tail)))).
  - unfold try_catch. rewrite frames_nonFinal by exact Hfs. rewrite append_nil.
    rewrite (frames_fuel _ (Datatypes.S (List.length tail))); [reflexivity | |];
      cbn [c_is set_is]; rewrite ?length_app; lia.
  - cbn [c_is set_is]. lia.
Qed.

(** ** What [rawSendMessage] writes *)

Lemma o_sock_write_byte z o :
  o_sock (sock_write_byte z o) = (o_sock o ++ [JS.fromCharCode (Z.land z 255)])%list.
Proof. reflexivity. Qed.

Lemma o_sock_write_bytes bs o : o_sock (sock_write_bytes bs o) = (o_sock o ++ bs)%list.
Proof. reflexivity. Qed.

Lemma land_255 z : 0 <= z < 256 -> Z.land z 255 = z.
Proof.
  intros Hz. change 255 with (Z.ones 8). rewrite Z.land_ones by lia. apply Z.mod_small. lia.
Qed.

Lemma and_shr_byte_255 n k :
  0 <= n < 2 ^ 31 -> 0 <= k ->
  Z.land (JS.and (JS.shr n k) 0xff) 255 = (n / 2 ^ Z.land k 31) mod 256.
Proof.
  intros Hn Hk. rewrite and_shr_byte by assumption. apply land_255. apply Z.mod_pos_bound. lia.
Qed.

Lemma and_byte_255 n : 0 <= n < 2 ^ 31 -> Z.land (JS.and n 0xff) 255 = n mod 256.
Proof.
  intros Hn. unfold JS.and. rewrite (to_int32_small n), (to_int32_small 255) by lia.
  change 255 with (Z.ones 8). rewrite !Z.land_ones by lia. change (2 ^ 8) with 256.
  pose proof (Z.mod_pos_bound n 256 ltac:(lia)).
  rewrite to_int32_small by lia. apply Z.mod_small. apply Z.mod_pos_bound. lia.
Qed.

(** The header of the frame [rawSendMessage] writes, by the length of the
    message, and its body: the bytes of the message in the charset of the
    runtime. *)
Lemma rawSendMessage_sent {H : Host} s :
  JS.length s < 2 ^ 31 ->
  sent (rawSendMessage s)
  = (JS.fromCharCode 0x81
     :: (if JS.length s <? 126 then [JS.fromCharCode (JS.length s)]
         else if JS.length s <? 65536 then
           [JS.fromCharCode 126; JS.fromCharCode (JS.length s / 256);
            JS.fromCharCode (JS.length s mod 256)]
         else JS.fromCharCode 127 :: bigEndian32 (JS.length s) ++ bigEndian32 (JS.length s))
     ++ toJavaByteArray s)%list.
Proof.
  intros Hlen. assert (Hn : 0 <= JS.length s) by (unfold JS.length; lia).
  unfold sent, rawSendMessage. cbv zeta. rewrite bind_modify.
  destruct (JS.length s <? 126) eqn:H7; [| destruct (JS.length s <? 65536) eqn:H16].
  - apply Z.ltb_lt in H7.
    rewrite bind_modify. unfold modify. cbn [snd].
    rewrite o_sock_write_bytes, !o_sock_write_byte. cbn [o_sock app].
    rewrite !land_255 by lia. reflexivity.
  - apply Z.ltb_ge in H7. apply Z.ltb_lt in H16.
    repeat (rewrite ?bind_bind; rewrite bind_modify). unfold modify. cbn [snd].
    rewrite o_sock_write_bytes, !o_sock_write_byte. cbn [o_sock app].
    rewrite and_shr_byte_255, and_byte_255, land_255 by lia.
    change (Z.land 8 31) with 8. change (2 ^ 8) with 256.
    rewrite (Z.mod_small (JS.length s / 256)); [reflexivity |].
    split; [apply Z.div_pos; lia | apply Z.div_lt_upper_bound; lia].
  - apply Z.ltb_ge in H7. apply Z.ltb_ge in H16.
    repeat (rewrite ?bind_bind; rewrite bind_modify). unfold modify. cbn [snd].
    rewrite o_sock_write_bytes, !o_sock_write_byte. cbn [o_sock app].
    rewrite !and_shr_byte_255, !land_255 by lia.
    change (Z.land 56 31) with 24. change (Z.land 48 31) with 16.
    change (Z.land 40 31) with 8. change (Z.land 32 31) with 0.
    change (Z.land 24 31) with 24. change (Z.land 16 31) with 16.
    change (Z.land 8 31) with 8. change (Z.land 0 31) with 0.
    reflexivity.
Qed.

(** A run of frames that do not end the message, then one that does. *)
Lemma getMessage_last fs first mask s rest c :
  Forall nonFinal fs ->
  opCode first <> 0x8 -> isFinal first = true -> 0 < JS.length s < 2 ^ 31 ->
  getMessage (set_is (wireFrames fs ++ wireFrame first mask s ++ rest) c)
  = (Ok (Some (payloads fs +:+ s)), set_is rest (ponged first (pongedAll fs c))).
Proof.
  intros Hfs Hop Hfin [Hpos Hlen]. rewrite getMessage_run by exact Hfs.
  unfold try_catch. rewrite frames_S.
  rewrite (bind_Ok _ _ _ _ _ (frame_wireFrame first mask s _ rest _ Hop Hlen)).
  replace (JS.length s =? 0) with false by (symmetry; apply Z.eqb_neq; lia).
  now rewrite Hfin.
Qed.

(** Up to 65535 characters that are one byte each, [rawSendMessage] writes
    the frame a peer would: final, text, not masked. *)
Lemma rawSendMessage_wire {H : Host} s :
  JS.length s < 65536 ->
  toJavaByteArray s = list_ascii_of_string s ->
  sent (rawSendMessage s) = wireFrame (JS.fromCharCode 0x81) None s.
Proof.
  intros H16 Hbytes. rewrite rawSendMessage_sent by lia. rewrite Hbytes.
  unfold wireFrame, wireLength. change (bool_decide (is_Some None)) with false. cbv zeta iota.
  replace (JS.length s <? 65536) with true by (symmetry; apply Z.ltb_lt; lia).
  rewrite !Z.add_0_l. now destruct (JS.length s <? 126).
Qed.

(** X1. A message whose bytes in the charset of the runtime are its
    characters, one byte each (as for ASCII text), sent by
    [rawSendMessage] and read by [getMessage], comes back unchanged,
    whatever its length from 1 up to [2 ^ 31 - 1] (the three forms of the
    length field), and the bytes that follow the frame stay on the
    connection. *)
Theorem getMessage_rawSendMessage {H : Host} (s : string) (rest : list ascii) (c : Conn) :
  0 < JS.length s < 2 ^ 31 ->
  toJavaByteArray s = list_ascii_of_string s ->
  getMessage (set_is (sent (rawSendMessage s) ++ rest) c) = (Ok (Some s), set_is rest c).
Proof.
  intros [Hpos Hlen] Hbytes.
  assert (Hop : opCode (JS.fromCharCode 0x81) <> 0x8) by (vm_compute; discriminate).
  destruct (Z.ltb_spec (JS.length s) 65536) as [H16 | H16].
  - (* the frame is the one a peer would send *)
    rewrite rawSendMessage_wire by assumption.
    apply (getMessage_last [] (JS.fromCharCode 0x81) None s rest c);
      [constructor | exact Hop | reflexivity | lia].
  - (* the 64-bit form: the length is there twice *)
    rewrite rawSendMessage_sent by exact Hlen. rewrite Hbytes.
    replace (JS.length s <? 126) with false by (symmetry; apply Z.ltb_ge; lia).
    replace (JS.length s <? 65536) with false by (symmetry; apply Z.ltb_ge; lia).
    rewrite <- !app_comm_cons, <- app_assoc.
    assert (Hframe : frame EmptyString
                       (set_is (JS.fromCharCode 129 :: JS.fromCharCode 127
                                :: (bigEndian32 (JS.length s) ++ bigEndian32 (JS.length s))
                                   ++ list_ascii_of_string s ++ rest) c)
                     = (Ok (Some (true, s)), set_is rest c)).
    { rewrite frame_first by exact Hop.
      change (ponged (JS.fromCharCode 129) c) with c.
      rewrite bind_readByte. cbv zeta.
      change (JS.and (JS.charCode (JS.fromCharCode 127)) 127 =? 126) with false.
      change (JS.and (JS.charCode (JS.fromCharCode 127)) 127 =? 127) with true.
      change (JS.truthy (JS.and (JS.charCode (JS.fromCharCode 127)) 128)) with false.
      cbv iota.
      change (readLen64 8 0)
        with (readLen64 (List.length (bigEndian32 (JS.length s) ++ bigEndian32 (JS.length s))) 0).
      rewrite (bind_Ok _ _ _ _ _ (readLen64_bytes _ 0 _ _)).
      rewrite len64_value by discriminate.
      rewrite bigEndian_app, !bigEndian_bigEndian32 by lia.
      rewrite Z.mul_0_l, Z.add_0_l, Z.add_comm, to_int32_add_mul, to_int32_small by lia.
      rewrite (bind_Ok _ _ _ _ _ (payload_unmasked s rest _ EmptyString _ eq_refl)).
      replace (JS.length s =? 0) with false by (symmetry; apply Z.eqb_neq; lia).
      reflexivity. }
    unfold getMessage, try_catch. rewrite frames_S, (bind_Ok _ _ _ _ _ Hframe). reflexivity.
Qed.

Lemma getMessage_rawSendMessage_witness :
  getMessage (set_is (sent (@rawSendMessage exampleHost "hi") ++ [JS.fromCharCode 0x88])
                (mkConn [] (mkOut [] [] []) 80 EmptyString))
  = (Ok (Some "hi"), set_is [JS.fromCharCode 0x88] (mkConn [] (mkOut [] [] []) 80 EmptyString)).
Proof.
  apply (@getMessage_rawSendMessage exampleHost "hi" [JS.fromCharCode 0x88]
           (mkConn [] (mkOut [] [] []) 80 EmptyString)).
  - vm_compute. split; reflexivity.
  - reflexivity.
Defined.

(** X2. For a message of up to 65535 characters whose bytes in the
    charset of the runtime are its characters, one byte each, the frame
    [rawSendMessage] writes is the final, unmasked text frame of RFC 6455
    with the shortest length form. From 65536 characters on, the eight
    bytes of the length field are the thirty-two bits of the length
    written twice ([len >> 56] is [len >> 24], the shift count being taken
    modulo 32): the upper half of the field is not zero. The length that
    is written is that of the string, the body the bytes of the string in
    the charset of the runtime. *)
Theorem rawSendMessage_frame {H : Host} (s : string) :
  JS.length s < 2 ^ 31 ->
  (JS.length s < 65536 -> toJavaByteArray s = list_ascii_of_string s ->
   sent (rawSendMessage s) = wireFrame (JS.fromCharCode 0x81) None s) /\
  (65536 <= JS.length s ->
   sent (rawSendMessage s)
   = (JS.fromCharCode 0x81 :: JS.fromCharCode 0x7f
      :: bigEndian32 (JS.length s) ++ bigEndian32 (JS.length s)
      ++ toJavaByteArray s)%list /\
   wireFrame (JS.fromCharCode 0x81) None s
   = (JS.fromCharCode 0x81 :: JS.fromCharCode 0x7f
      :: bigEndian32 0 ++ bigEndian32 (JS.length s) ++ list_ascii_of_string s)%list).
Proof.
  intros Hlen. split; [apply rawSendMessage_wire |]. intros H16. split.
  - rewrite rawSendMessage_sent by exact Hlen.
    replace (JS.length s <? 126) with false by (symmetry; apply Z.ltb_ge; lia).
    replace (JS.length s <? 65536) with false by (symmetry; apply Z.ltb_ge; lia).
    now rewrite <- !app_comm_cons, <- app_assoc.
  - unfold wireFrame. change (bool_decide (is_Some None)) with false.
    destruct (wireLength_bytes (JS.length s) ltac:(lia)) as [-> _].
    now rewrite <- !app_comm_cons, <- app_assoc.
Qed.

Lemma rawSendMessage_frame_witness :
  sent (@rawSendMessage exampleHost "hi") = List.map JS.fromCharCode [0x81; 2; 104; 105].
Proof.
  destruct (@rawSendMessage_frame exampleHost "hi") as [Hshort _]; [vm_compute; reflexivity |].
  rewrite Hshort by (vm_compute; reflexivity). reflexivity.
Defined.

(** X3. One final frame as a peer sends it, with a payload of 1 to
    [2 ^ 31 - 1] bytes: whatever the form of its length, and whether it is
    masked or not, [getMessage] returns the payload, unmasked with the key
    of the frame, and leaves the bytes that follow on the connection. The
    opcode only matters in two ways: a close frame is excluded, and a ping
    is answered with a pong before its payload is read; the payload of a
    ping, a pong or a reserved opcode is returned like that of a data
    frame. *)
Theorem getMessage_wireFrame (first : ascii) (mask : option (ascii * ascii * ascii * ascii))
    (s : string) (rest : list ascii) (c : Conn) :
  opCode first <> 0x8 -> isFinal first = true -> 0 < JS.length s < 2 ^ 31 ->
  getMessage (set_is (wireFrame first mask s ++ rest) c)
  = (Ok (Some s), set_is rest (ponged first c)).
Proof.
  intros Hop Hfin Hlen.
  apply (getMessage_last [] first mask s rest c); [constructor | assumption ..].
Qed.

(** The masked text frame of RFC 6455, section 5.7. *)
Lemma getMessage_wireFrame_witness :
  getMessage (set_is (List.map JS.fromCharCode
                        [0x81; 0x85; 0x37; 0xfa; 0x21; 0x3d; 0x7f; 0x9f; 0x4d; 0x51; 0x58])
                (mkConn [] (mkOut [] [] []) 80 EmptyString))
  = (Ok (Some "Hello"), set_is [] (mkConn [] (mkOut [] [] []) 80 EmptyString)).
Proof.
  apply (getMessage_wireFrame (JS.fromCharCode 0x81)
           (Some (JS.fromCharCode 0x37, JS.fromCharCode 0xfa,
                  JS.fromCharCode 0x21, JS.fromCharCode 0x3d))
           "Hello" [] (mkConn [] (mkOut [] [] []) 80 EmptyString)).
  - vm_compute. discriminate.
  - reflexivity.
  - vm_compute. split; reflexivity.
Defined.

(** X4. A message in fragments: [getMessage] goes through the frames that
    do not end the message (FIN clear, or no payload), answering the pings
    among them, and returns the payloads of all the frames in their order
    as one string when it meets a frame with FIN set and a payload. *)
Theorem getMessage_joins_fragments (fs : list Frame) (first : ascii)
    (mask : option (ascii * ascii * ascii * ascii)) (s : string) (rest : list ascii) (c : Conn) :
  Forall nonFinal fs ->
  opCode first <> 0x8 -> isFinal first = true -> 0 < JS.length s < 2 ^ 31 ->
  getMessage (set_is (wireFrames fs ++ wireFrame first mask s ++ rest) c)
  = (Ok (Some (payloads fs +:+ s)), set_is rest (ponged first (pongedAll fs c))).
Proof. apply getMessage_last. Qed.

(** The fragmented message of RFC 6455, section 5.7, with a ping between
    its two fragments. *)
Lemma getMessage_joins_fragments_witness :
  getMessage (set_is (List.map JS.fromCharCode
                        [0x01; 0x03; 0x48; 0x65; 0x6c; 0x89; 0x00; 0x80; 0x02; 0x6c; 0x6f])
                (mkConn [] (mkOut [] [] []) 80 EmptyString))
  = (Ok (Some "Hello"),
     mkConn [] (mkOut (List.map JS.fromCharCode [0x8a; 0x00]) [] []) 80 EmptyString).
Proof.
  apply (getMessage_joins_fragments
           [(JS.fromCharCode 0x01, None, "Hel"); (JS.fromCharCode 0x89, None, EmptyString)]
           (JS.fromCharCode 0x80) None "lo" [] (mkConn [] (mkOut [] [] []) 80 EmptyString)).
  - constructor; [| constructor; [| constructor]].
    + split; [vm_compute; discriminate | split; [reflexivity | left; reflexivity]].
    + split; [vm_compute; discriminate | split; [reflexivity | right; reflexivity]].
  - vm_compute. discriminate.
  - reflexivity.
  - vm_compute. split; reflexivity.
Defined.

(** X5. A close frame ends the reading at its first byte: [getMessage]
    answers [false], the fragments collected so far are dropped, and the
    rest of the close frame (its length and its payload) stays unread on the
    connection. *)
Theorem getMessage_close (fs : list Frame) (first : ascii) (rest : list ascii) (c : Conn) :
  Forall nonFinal fs -> opCode first = 0x8 ->
  getMessage (set_is (wireFrames fs ++ first :: rest) c)
  = (Ok None, set_is rest (pongedAll fs c)).
Proof.
  intros Hfs Hop. rewrite getMessage_run by exact Hfs.
  unfold try_catch. rewrite frames_S.
  assert (Hframe : forall msg c0, frame msg (set_is (first :: rest) c0) = (Ok None, set_is rest c0)).
  { intros msg c0. unfold frame. rewrite bind_readByte. fold (opCode first). cbv zeta.
    rewrite Hop. reflexivity. }
  now rewrite (bind_Ok _ _ _ _ _ (Hframe _ _)).
Qed.

Lemma getMessage_close_witness :
  getMessage (set_is (List.map JS.fromCharCode [0x01; 0x03; 0x48; 0x65; 0x6c; 0x88; 0x02; 0x03; 0xe8])
                (mkConn [] (mkOut [] [] []) 80 EmptyString))
  = (Ok None,
     set_is (List.map JS.fromCharCode [0x02; 0x03; 0xe8])
       (mkConn [] (mkOut [] [] []) 80 EmptyString)).
Proof.
  apply (getMessage_close [(JS.fromCharCode 0x01, None, "Hel")] (JS.fromCharCode 0x88)
           (List.map JS.fromCharCode [0x02; 0x03; 0xe8])
           (mkConn [] (mkOut [] [] []) 80 EmptyString)).
  - constructor; [| constructor].
    split; [vm_compute; discriminate | split; [reflexivity | left; reflexivity]].
  - reflexivity.
Defined.

(** X6. [getMessage] never throws and always comes to an end: whatever the
    bytes on the connection, and wherever they stop, it answers a message
    or [false]; the failure of a read in the middle of a frame is answered
    with [false]. It never puts bytes back on the input. *)
Theorem getMessage_answers (c : Conn) :
  exists (r : option string) (c' : Conn),
    getMessage c = (Ok r, c') /\ (List.length (c_is c') <= List.length (c_is c))%nat.
Proof.
  destruct (getMessage c) as [[r | e |] c'] eqn:E.
  - exists r, c'. split; [reflexivity |]. exact (reads_getMessage _ _ _ E).
  - exfalso. unfold getMessage, try_catch in E.
    destruct (frames _ EmptyString c) as [[r | e' |] c1]; discriminate E.
  - exfalso. pose proof (halts_getMessage c) as Hh. rewrite E in Hh. now apply Hh.
Qed.


(** ** The response writer *)

Section ResponseFacts.
Context {H : Host}.
Implicit Types (st : Response.HS) (r : Response.t) (o : Out).

Lemma logged_nil o : logged [] o = o.
Proof. destruct o. unfold logged. cbn. now rewrite app_nil_r. Qed.

Lemma logged_app a b o : logged b (logged a o) = logged (a ++ b) o.
Proof. unfold logged. cbn. now rewrite app_assoc. Qed.

Lemma os_logged op r o :
  Response.os op (Response.mkHS r o) = (Ok tt, Response.mkHS r (logged [op] o)).
Proof. reflexivity. Qed.

Lemma update_Ok f r o :
  Response.update f (Response.mkHS r o) = (Ok tt, Response.mkHS (f r) o).
Proof. reflexivity. Qed.

Lemma bind_os {B} op (k : unit -> M Response.HS B) r o :
  bind (Response.os op) k (Response.mkHS r o) = k tt (Response.mkHS r (logged [op] o)).
Proof. reflexivity. Qed.

Lemma bind_update {B} f (k : unit -> M Response.HS B) r o :
  bind (Response.update f) k (Response.mkHS r o) = k tt (Response.mkHS (f r) o).
Proof. reflexivity. Qed.

Lemma bind_this {B} (k : Response.t -> M Response.HS B) r o :
  bind Response.this k (Response.mkHS r o) = k r (Response.mkHS r o).
Proof. reflexivity. Qed.

Ltac hs_steps :=
  repeat first [rewrite bind_bind | rewrite bind_os | rewrite bind_update
               | rewrite bind_this | rewrite bind_ret].

Lemma writelns_logged ls : forall r o,
  Response.writelns ls (Response.mkHS r o)
  = (Ok tt, Response.mkHS r (logged (List.map Writeln ls) o)).
Proof.
  induction ls as [| l ls IH]; intros r o.
  - cbn [Response.writelns List.map]. now rewrite logged_nil.
  - cbn [Response.writelns List.map]. rewrite bind_os, IH, logged_app. reflexivity.
Qed.

(** [sendHeaders] on a response whose headers have not been sent. *)
Lemma sendHeaders_first r o :
  Response.headersSent r = false ->
  Response.sendHeaders (Response.mkHS r o)
  = (Ok tt, Response.mkHS (Response.set_headersSent true r)
              (logged (List.map Writeln (headerBlock r)) o)).
Proof.
  intros Hs. unfold Response.sendHeaders. rewrite bind_this, Hs.
  rewrite !bind_os. rewrite (bind_Ok _ _ _ _ _ (writelns_logged _ _ _)).
  unfold headerBlock.
  destruct (Response.cookies r) as [cs |];
    [destruct (Response.truthy_string (Response.obj_get "Set-Cookie" (Response.headers r))) |].
  - rewrite bind_ret, bind_os, update_Ok, !logged_app. cbn [List.map app].
    rewrite !map_app. reflexivity.
  - rewrite (bind_Ok _ _ _ _ _ (writelns_logged _ _ _)).
    rewrite bind_os, update_Ok, !logged_app. cbn [List.map app].
    rewrite !map_app. cbn [List.map]. rewrite <- ?app_assoc. reflexivity.
  - rewrite bind_ret, bind_os, update_Ok, !logged_app. cbn [List.map app].
    rewrite !map_app. reflexivity.
Qed.

Lemma sendHeaders_sent r o :
  Response.headersSent r = true ->
  Response.sendHeaders (Response.mkHS r o) = (Ok tt, Response.mkHS r o).
Proof. intros Hs. unfold Response.sendHeaders. now rewrite bind_this, Hs. Qed.

Lemma write_more s r o :
  Response.headersSent r = true ->
  Response.write s (Response.mkHS r o) = (Ok tt, Response.mkHS r (logged (chunk s) o)).
Proof.
  intros Hs. unfold Response.write. rewrite bind_this, Hs, bind_ret.
  rewrite !bind_os, os_logged, !logged_app. reflexivity.
Qed.

Lemma write_first s r o :
  Response.headersSent r = false ->
  let r0 := Response.set_header "Transfer-Encoding" "Chunked" r in
  Response.write s (Response.mkHS r o)
  = (Ok tt, Response.mkHS (Response.set_chunked true (Response.set_headersSent true r0))
              (logged (List.map Writeln (headerBlock r0) ++ chunk s) o)).
Proof.
  intros Hs r0. unfold Response.write. rewrite bind_this, Hs.
  unfold Response.setHeader. rewrite !bind_bind, bind_update. fold r0.
  rewrite bind_bind, (bind_Ok _ _ _ _ _ (sendHeaders_first r0 o Hs)).
  rewrite bind_update, !bind_os, os_logged, !logged_app. reflexivity.
Qed.

Lemma writes_more ss : forall r o,
  Response.headersSent r = true ->
  writes ss (Response.mkHS r o) = (Ok tt, Response.mkHS r (logged (flat_map chunk ss) o)).
Proof.
  induction ss as [| s ss IH]; intros r o Hs.
  - cbn [writes fold_right flat_map]. now rewrite logged_nil.
  - cbn [writes fold_right flat_map]. fold (writes ss).
    rewrite (bind_Ok _ _ _ _ _ (write_more s r o Hs)), IH by exact Hs.
    now rewrite logged_app.
Qed.

Lemma set_chunked_same r : Response.set_chunked (Response.chunked r) r = r.
Proof. now destruct r. Qed.

Lemma destroy_chunked r o :
  Response.destroy (Response.mkHS r o)
  = (Ok tt, Response.mkHS (Response.set_chunked false r)
              (if Response.chunked r then logged [Writeln "0"; Writeln EmptyString; Flush] o
               else o)).
Proof.
  unfold Response.destroy, Response.flush. rewrite bind_this.
  destruct (Response.chunked r).
  - hs_steps. rewrite update_Ok, !logged_app. reflexivity.
  - rewrite bind_ret, update_Ok. reflexivity.
Qed.

(** A key that was set is there, with its value; the other keys stay. *)
Lemma obj_get_set {V} k (v : V) l : Response.obj_get k (Response.obj_set k v l) = Some v.
Proof.
  induction l as [| [k' v'] rest IH]; cbn [Response.obj_set Response.obj_get].
  - now rewrite String.eqb_refl.
  - destruct (String.eqb k k') eqn:E; cbn [Response.obj_get]; rewrite ?String.eqb_refl, ?E;
      [reflexivity | exact IH].
Qed.

Lemma obj_get_set_ne {V} k k' (v : V) l :
  k' <> k -> Response.obj_get k' (Response.obj_set k v l) = Response.obj_get k' l.
Proof.
  intros Hne. induction l as [| [k1 v1] rest IH]; cbn [Response.obj_set Response.obj_get].
  - apply String.eqb_neq in Hne. now rewrite Hne.
  - destruct (String.eqb k k1) eqn:E; cbn [Response.obj_get].
    + apply String.eqb_eq in E. subst k1. apply String.eqb_neq in Hne. now rewrite Hne.
    + destruct (String.eqb k' k1); [reflexivity | exact IH].
Qed.

Lemma obj_set_In {V} k (v : V) l : In (k, v) (Response.obj_set k v l).
Proof.
  induction l as [| [k' v'] rest IH]; cbn [Response.obj_set]; [now left |].
  destruct (String.eqb k k'); [now left | right; exact IH].
Qed.

Lemma obj_set_In_ne {V} k k' (v v' : V) l :
  k' <> k -> In (k', v') l -> In (k', v') (Response.obj_set k v l).
Proof.
  intros Hne. induction l as [| [k1 v1] rest IH]; cbn [Response.obj_set]; [intros [] |].
  intros [E | Hin].
  - inversion E; subst. apply String.eqb_neq in Hne. rewrite String.eqb_sym in Hne.
    rewrite Hne. now left.
  - destruct (String.eqb k k1); [now right | right; now apply IH].
Qed.

(** A header that is set is a line of the header block. *)
Lemma headerBlock_In r k v :
  In (k, v) (Response.headers r) -> In (k +:+ ": " +:+ v) (headerBlock r).
Proof.
  intros Hin. unfold headerBlock. right. right. apply in_or_app. left.
  apply in_map_iff. exists (k, v). now split.
Qed.

Lemma bodyBytes_app a b : bodyBytes (a ++ b) = (bodyBytes a ++ bodyBytes b)%list.
Proof. apply flat_map_app. Qed.

Lemma bodyBytes_Writeln ls : bodyBytes (List.map Writeln ls) = [].
Proof. induction ls as [| l ls IH]; [reflexivity | exact IH]. Qed.

Ltac body_tac :=
  unfold logged; cbn [o_os]; rewrite ?bodyBytes_app, ?bodyBytes_Writeln;
  cbn [bodyBytes flat_map app]; rewrite ?app_nil_r; try reflexivity.

(** X7. The header block is written at most once: [sendHeaders] never
    fails, leaves the response marked as sent, and a call on a response
    that is marked changes nothing and writes nothing. *)
Theorem sendHeaders_once (st : Response.HS) :
  let st1 := snd (Response.sendHeaders st) in
  fst (Response.sendHeaders st) = Ok tt /\
  Response.headersSent (Response.hs_res st1) = true /\
  Response.sendHeaders st1 = (Ok tt, st1).
Proof.
  destruct st as [r o]. cbv zeta.
  destruct (Response.headersSent r) eqn:Hs.
  - rewrite (sendHeaders_sent r o Hs). cbn [fst snd Response.hs_res].
    split; [reflexivity |]. split; [exact Hs |]. exact (sendHeaders_sent r o Hs).
  - rewrite (sendHeaders_first r o Hs). cbn [fst snd Response.hs_res].
    split; [reflexivity |]. split; [reflexivity |]. now apply sendHeaders_sent.
Qed.

(** X8. A chunked response: the first [write] on a response whose headers
    have not been sent sets [Transfer-Encoding: Chunked] and writes the
    header block; every [write] then writes one chunk (the length of the
    string in hexadecimal, the string, a flush); [destroy] writes the
    closing chunk of length 0 and the empty line. A second [destroy] writes
    nothing. *)
Theorem chunked_response (r : Response.t) (o : Out) (s : string) (ss : list string) :
  Response.headersSent r = false ->
  let r0 := Response.set_header "Transfer-Encoding" "Chunked" r in
  let final :=
    Response.mkHS (Response.set_chunked false (Response.set_headersSent true r0))
      (logged (List.map Writeln (headerBlock r0) ++ flat_map chunk (s :: ss)
               ++ [Writeln "0"; Writeln EmptyString; Flush]) o) in
  bind (Response.write s) (fun _ => bind (writes ss) (fun _ => Response.destroy))
    (Response.mkHS r o)
  = (Ok tt, final) /\
  In "Transfer-Encoding: Chunked" (headerBlock r0) /\
  Response.destroy final = (Ok tt, final).
Proof.
  intros Hs r0 final. split; [| split].
  - rewrite (bind_Ok _ _ _ _ _ (write_first s r o Hs)). fold r0.
    rewrite (bind_Ok _ _ _ _ _
               (writes_more ss (Response.set_chunked true (Response.set_headersSent true r0)) _
                  eq_refl)).
    rewrite destroy_chunked. cbn [Response.chunked Response.set_chunked].
    rewrite !logged_app. unfold final. cbn [flat_map]. now rewrite <- !app_assoc.
  - apply (headerBlock_In r0 "Transfer-Encoding" "Chunked"). apply obj_set_In.
  - unfold final. rewrite destroy_chunked. reflexivity.
Qed.

(** X9. [end] with a body: the [Content-Length] header is the number of
    bytes that are written as the body, the bytes of the string (of the
    lines joined by line feeds, for an array), compressed first if [gzip]
    is asked for, in which case [Content-Encoding: gzip] is set as well; on
    a response whose headers have not been sent both are lines of the
    header block, which goes out before the body. *)
Theorem end_content_length (r : Response.t) (o : Out) (body : Response.Body) (text : string)
    (gzip : bool) :
  (body = Response.BodyString text /\ text <> EmptyString \/
   exists lines, body = Response.BodyArray lines /\ text = Response.join_lines lines) ->
  Response.headersSent r = false ->
  let bytes := if gzip then gzip_compress (toJavaByteArray text) else toJavaByteArray text in
  let r1 := Response.set_header "Content-Length" (pretty (Z.of_nat (List.length bytes)))
              (if gzip then Response.set_header "Content-Encoding" "gzip" r else r) in
  Response.end_ (Some body) gzip (Response.mkHS r o)
  = (Ok tt, Response.mkHS (Response.set_headersSent true r1)
              (logged (List.map Writeln (headerBlock r1) ++ [Flush; WriteBytes bytes; Flush]) o)) /\
  In ("Content-Length: " +:+ pretty (Z.of_nat (List.length bytes))) (headerBlock r1) /\
  (gzip = true -> In "Content-Encoding: gzip" (headerBlock r1)).
Proof.
  intros Hbody Hs bytes r1.
  assert (Htext : match body with
                  | Response.BodyString s => Response.truthy_string (Some s)
                  | Response.BodyArray ls => Some (Response.join_lines ls)
                  end = Some text).
  { destruct Hbody as [[-> Hne] | (lines & -> & ->)]; [| reflexivity].
    cbn [Response.truthy_string]. destruct text; [now elim Hne | reflexivity]. }
  split; [| split].
  - unfold Response.end_. rewrite Htext. fold bytes.
    assert (Hs1 : Response.headersSent r1 = false) by (unfold r1; now destruct gzip).
    destruct gzip; hs_steps; fold r1;
      rewrite (bind_Ok _ _ _ _ _ (sendHeaders_first r1 o Hs1)); hs_steps;
      rewrite os_logged, !logged_app; reflexivity.
  - apply (headerBlock_In r1 "Content-Length"). apply obj_set_In.
  - intros ->. apply (headerBlock_In r1 "Content-Encoding" "gzip").
    apply obj_set_In_ne; [discriminate | apply obj_set_In].
Qed.

(** X10. [redirect] never returns: it sets the status 303 and the
    [Location] header, sends the header block without a body, and throws
    the stop signal. A URL that begins with [http://] is the location as it
    is; any other one, an [https://] URL included, is taken for a path and
    put after [http://], the host of the request, a colon and its port. *)
Theorem redirect_stops (url : string) (r : Response.t) (o : Out) :
  let location :=
    if String.eqb (String.substring 0 7 url) "http://" then url
    else "http://" +:+ Request.host (Response.req r) +:+ ":" +:+ Request.port (Response.req r)
         +:+ url in
  exists st',
    @Response.redirect H unit url (Response.mkHS r o) = (Throw RES_STOP, st') /\
    Response.status (Response.hs_res st') = 303 /\
    Response.obj_get "Location" (Response.headers (Response.hs_res st')) = Some location /\
    Response.headersSent (Response.hs_res st') = true /\
    bodyBytes (o_os (Response.hs_out st')) = bodyBytes (o_os o).
Proof.
  intros location. unfold Response.redirect. hs_steps.
  cbn [Response.req Response.set_status].
  assert (Hloc : (if negb (String.eqb (String.substring 0 7 url) "http://")
                  then "http://" +:+ Request.host (Response.req r) +:+ ":"
                       +:+ Request.port (Response.req r) +:+ url
                  else url) = location).
  { unfold location. now destruct (String.eqb _ "http://"). }
  rewrite Hloc. unfold Response.end_. hs_steps.
  set (r2 := Response.set_header "Location" location _).
  destruct (Response.headersSent r2) eqn:Hs.
  - rewrite (bind_Ok _ _ _ _ _ (sendHeaders_sent r2 o Hs)). hs_steps.
    eexists. split; [reflexivity |]. cbn [Response.hs_res Response.hs_out].
    repeat split; [apply obj_get_set | exact Hs |].
    unfold logged. cbn [o_os]. rewrite bodyBytes_app. cbn. now rewrite app_nil_r.
  - rewrite (bind_Ok _ _ _ _ _ (sendHeaders_first r2 o Hs)). hs_steps.
    eexists. split; [reflexivity |]. cbn [Response.hs_res Response.hs_out].
    repeat split; [apply obj_get_set |].
    rewrite logged_app. unfold logged. cbn [o_os].
    rewrite !bodyBytes_app, bodyBytes_Writeln. cbn. now rewrite app_nil_r.
Qed.

(** The copy loop of [sendFile] writes the whole content, in pieces. *)
Lemma copyFile_all fuel : forall content r o,
  (List.length content < fuel)%nat ->
  exists ops,
    Response.copyFile fuel content (Z.of_nat (List.length content)) (Response.mkHS r o)
    = (Ok tt, Response.mkHS r (logged ops o)) /\
    bodyBytes ops = content.
Proof.
  induction fuel as [| fuel IH]; intros content r o Hf; [lia |].
  cbn [Response.copyFile].
  destruct content as [| b content].
  - exists []. cbn [List.length]. change (Z.of_nat 0 >? 0) with false. cbv iota.
    rewrite logged_nil. split; reflexivity.
  - set (whole := b :: content) in *.
    replace (Z.of_nat (List.length whole) >? 0) with true
      by (symmetry; apply Z.gtb_lt; unfold whole; cbn [List.length]; lia).
    set (N := (4096 * 16)%nat).
    assert (HN : (0 < N)%nat)
      by exact (Nat.mul_pos_pos 4096 16 (Nat.lt_0_succ 4095) (Nat.lt_0_succ 15)).
    clearbody N.
    assert (Hchunk : (0 < List.length (firstn N whole))%nat).
    { rewrite length_firstn. unfold whole. cbn [List.length]. lia. }
    replace (List.length (firstn N whole) =? 0)%nat with false
      by (symmetry; apply Nat.eqb_neq; lia).
    replace (Z.of_nat (List.length (firstn N whole)) <=? 0) with false
      by (symmetry; apply Z.leb_gt; lia).
    rewrite bind_os.
    replace (Z.of_nat (List.length whole) - Z.of_nat (List.length (firstn N whole)))
      with (Z.of_nat (List.length (skipn N whole)))
      by (rewrite length_skipn, length_firstn; lia).
    destruct (IH (skipn N whole) r (logged [WriteBytes (firstn N whole)] o)) as (ops & E & Hb).
    { rewrite length_skipn. unfold whole in *. cbn [List.length] in *. lia. }
    exists (WriteBytes (firstn N whole) :: ops). split.
    + rewrite E, logged_app. reflexivity.
    + cbn [bodyBytes flat_map]. fold (bodyBytes ops). rewrite Hb. apply firstn_skipn.
Qed.

Lemma set_headersSent_same r :
  Response.headersSent r = true -> Response.set_headersSent true r = r.
Proof. destruct r. cbn [Response.headersSent]. now intros ->. Qed.

Lemma sendFileContent_all content r o :
  let r1 := Response.set_header "Content-Length" (pretty (Z.of_nat (List.length content)))
              (Response.set_status 200 r) in
  exists o',
    Response.sendFileContent content (Z.of_nat (List.length content)) (Response.mkHS r o)
    = (Ok tt, Response.mkHS (Response.set_headersSent true r1) o') /\
    bodyBytes (o_os o') = (bodyBytes (o_os o) ++ content)%list.
Proof.
  intros r1. unfold Response.sendFileContent, try_catch. hs_steps. fold r1.
  destruct (Response.headersSent r1) eqn:Hs.
  - rewrite (bind_Ok _ _ _ _ _ (sendHeaders_sent r1 o Hs)). hs_steps.
    destruct (copyFile_all (Datatypes.S (List.length content)) content r1
                (logged [Flush] o)) as (ops & E & Hb); [lia |].
    rewrite (bind_Ok _ _ _ _ _ E), os_logged, !logged_app.
    eexists. split.
    + now rewrite (set_headersSent_same r1 Hs).
    + unfold logged. cbn [o_os]. rewrite !bodyBytes_app, Hb. cbn. now rewrite app_nil_r.
  - rewrite (bind_Ok _ _ _ _ _ (sendHeaders_first r1 o Hs)). hs_steps.
    destruct (copyFile_all (Datatypes.S (List.length content)) content
                (Response.set_headersSent true r1)
                (logged [Flush] (logged (List.map Writeln (headerBlock r1)) o)))
      as (ops & E & Hb); [lia |].
    rewrite (bind_Ok _ _ _ _ _ E), os_logged, !logged_app.
    eexists. split; [reflexivity |].
    unfold logged. cbn [o_os]. rewrite !bodyBytes_app, bodyBytes_Writeln, Hb. cbn.
    now rewrite app_nil_r.
Qed.

(** X11. [sendFile] on a file that does not exist, or whose modification
    time is 0, throws the error [404] and touches neither the response nor
    the output. On any other file it returns, with the [Content-Type] of
    the extension ([text/plain] when the table has none), and either it has
    answered 304 and written no body byte, which it only does when a
    [modifiedSince] was given, or it has answered 200 with a
    [Content-Length] equal to the size of the file and has written the whole
    content as the body. *)
Theorem sendFile_outcome (filename : string) (since : option Response.ModifiedSince)
    (r : Response.t) (o : Out) :
  (files filename = None \/ (exists content, files filename = Some (0, content)) ->
   Response.sendFile filename since (Response.mkHS r o)
   = (Throw (ThrownError "404"), Response.mkHS r o)) /\
  (forall modified content,
     files filename = Some (modified, content) -> modified <> 0 ->
     exists r' o',
       Response.sendFile filename since (Response.mkHS r o) = (Ok tt, Response.mkHS r' o') /\
       Response.obj_get "Content-Type" (Response.headers r')
       = Some (default "text/plain"
                 (Response.truthy_string (mimeTypes (Response.extension filename)))) /\
       (Response.status r' = 304 /\ bodyBytes (o_os o') = bodyBytes (o_os o) /\
        Response.truthy_since since <> None
        \/
        Response.status r' = 200 /\
        bodyBytes (o_os o') = (bodyBytes (o_os o) ++ content)%list /\
        Response.obj_get "Content-Length" (Response.headers r')
        = Some (pretty (Z.of_nat (List.length content))))).
Proof.
  split.
  - intros [Hf | (content & Hf)]; unfold Response.sendFile; rewrite Hf; reflexivity.
  - intros modified content Hf Hm. unfold Response.sendFile. rewrite Hf.
    cbn [from_option id fst snd]. apply Z.eqb_neq in Hm. rewrite Hm. hs_steps.
    set (ctype := default "text/plain" _).
    set (r1 := Response.set_header "last-modified" _ (Response.set_header "Content-Type" ctype r)).
    assert (Hct : forall r2, Response.headers r2
                             = Response.obj_set "Content-Length"
                                 (pretty (Z.of_nat (List.length content))) (Response.headers r1) ->
                  Response.obj_get "Content-Type" (Response.headers r2) = Some ctype).
    { intros r2 ->. rewrite obj_get_set_ne by discriminate.
      unfold r1. cbn [Response.headers Response.set_header].
      rewrite obj_get_set_ne by discriminate. apply obj_get_set. }
    assert (Hfull : exists r' o',
              Response.sendFileContent content (Z.of_nat (List.length content))
                (Response.mkHS r1 o) = (Ok tt, Response.mkHS r' o') /\
              Response.obj_get "Content-Type" (Response.headers r') = Some ctype /\
              Response.status r' = 200 /\
              bodyBytes (o_os o') = (bodyBytes (o_os o) ++ content)%list /\
              Response.obj_get "Content-Length" (Response.headers r')
              = Some (pretty (Z.of_nat (List.length content)))).
    { destruct (sendFileContent_all content r1 o) as (o' & E & Hb).
      eexists _, o'. split; [exact E |]. split; [now apply Hct |].
      split; [reflexivity |]. split; [exact Hb |].
      cbn [Response.headers Response.set_headersSent Response.set_header Response.set_status].
      apply obj_get_set. }
    destruct (Response.truthy_since since) as [m |] eqn:Hsince.
    + destruct (Response.fileNotModified _ m).
      * hs_steps. set (r2 := Response.set_status 304 r1).
        assert (Hct2 : Response.obj_get "Content-Type" (Response.headers r2) = Some ctype).
        { unfold r2, r1. cbn [Response.headers Response.set_header Response.set_status].
          rewrite obj_get_set_ne by discriminate. apply obj_get_set. }
        destruct (Response.headersSent r2) eqn:Hs.
        -- rewrite (sendHeaders_sent r2 o Hs). exists r2, o.
           split; [reflexivity |]. split; [exact Hct2 |]. left.
           split; [reflexivity |]. split; [reflexivity | discriminate].
        -- rewrite (sendHeaders_first r2 o Hs). eexists _, _.
           split; [reflexivity |]. split; [exact Hct2 |]. left.
           split; [reflexivity |]. split; [| discriminate].
           body_tac.
      * destruct Hfull as (r' & o' & E & Hc & Hst & Hb & Hl).
        exists r', o'. split; [exact E |]. split; [exact Hc |]. right. auto.
    + destruct Hfull as (r' & o' & E & Hc & Hst & Hb & Hl).
      exists r', o'. split; [exact E |]. split; [exact Hc |]. right. auto.
Qed.

(** X12. [sendBytes] always returns, with the given [Content-Type]. When it
    answers 304 it has written no body byte, and that only happens when
    both a last-modified time (not 0) and a [modifiedSince] were given;
    otherwise it leaves the status as it was, sets [Content-Length] to the
    number of bytes and writes exactly these bytes as the body. *)
Theorem sendBytes_outcome (bytes : list ascii) (mimeType : string) (lastModified : option Z)
    (since : option Response.ModifiedSince) (r : Response.t) (o : Out) :
  exists r' o',
    Response.sendBytes bytes mimeType lastModified since (Response.mkHS r o)
    = (Ok tt, Response.mkHS r' o') /\
    Response.obj_get "Content-Type" (Response.headers r') = Some mimeType /\
    (Response.status r' = 304 /\ bodyBytes (o_os o') = bodyBytes (o_os o) /\
     (exists lm, lastModified = Some lm /\ lm <> 0) /\ Response.truthy_since since <> None
     \/
     Response.status r' = Response.status r /\
     bodyBytes (o_os o') = (bodyBytes (o_os o) ++ bytes)%list /\
     Response.obj_get "Content-Length" (Response.headers r')
     = Some (pretty (Z.of_nat (List.length bytes)))).
Proof.
  assert (Hcontent : forall r1,
    Response.obj_get "Content-Type" (Response.headers r1) = Some mimeType ->
    Response.status r1 = Response.status r ->
    exists r' o',
      bind (Response.update
              (Response.set_header "Content-Length" (pretty (Z.of_nat (List.length bytes)))))
        (fun _ => bind Response.sendHeaders (fun _ => bind Response.flush (fun _ =>
           bind (Response.os (WriteBytes bytes)) (fun _ => Response.os Flush))))
        (Response.mkHS r1 o)
      = (Ok tt, Response.mkHS r' o') /\
      Response.obj_get "Content-Type" (Response.headers r') = Some mimeType /\
      Response.status r' = Response.status r /\
      bodyBytes (o_os o') = (bodyBytes (o_os o) ++ bytes)%list /\
      Response.obj_get "Content-Length" (Response.headers r')
      = Some (pretty (Z.of_nat (List.length bytes)))).
  { intros r1 Hct Hst. hs_steps.
    set (r2 := Response.set_header "Content-Length" _ r1).
    assert (Hct2 : Response.obj_get "Content-Type" (Response.headers r2) = Some mimeType).
    { unfold r2. cbn [Response.headers Response.set_header].
      now rewrite obj_get_set_ne by discriminate. }
    assert (Hl2 : Response.obj_get "Content-Length" (Response.headers r2)
                  = Some (pretty (Z.of_nat (List.length bytes))))
      by (unfold r2; cbn [Response.headers Response.set_header]; apply obj_get_set).
    unfold Response.flush.
    destruct (Response.headersSent r2) eqn:Hs.
    - rewrite (bind_Ok _ _ _ _ _ (sendHeaders_sent r2 o Hs)). hs_steps.
      rewrite os_logged, !logged_app. exists r2. eexists.
      split; [reflexivity |]. split; [exact Hct2 |]. split; [exact Hst |]. split; [| exact Hl2].
      body_tac.
    - rewrite (bind_Ok _ _ _ _ _ (sendHeaders_first r2 o Hs)). hs_steps.
      rewrite os_logged, !logged_app. eexists _, _.
      split; [reflexivity |]. split; [exact Hct2 |]. split; [exact Hst |]. split; [| exact Hl2].
      body_tac. }
  assert (Hfinish : forall r1,
    Response.obj_get "Content-Type" (Response.headers r1) = Some mimeType ->
    Response.status r1 = Response.status r ->
    exists r' o',
      bind (Response.update
              (Response.set_header "Content-Length" (pretty (Z.of_nat (List.length bytes)))))
        (fun _ => bind Response.sendHeaders (fun _ => bind Response.flush (fun _ =>
           bind (Response.os (WriteBytes bytes)) (fun _ => Response.os Flush))))
        (Response.mkHS r1 o)
      = (Ok tt, Response.mkHS r' o') /\
      Response.obj_get "Content-Type" (Response.headers r') = Some mimeType /\
      (Response.status r' = 304 /\ bodyBytes (o_os o') = bodyBytes (o_os o) /\
       (exists lm, lastModified = Some lm /\ lm <> 0) /\ Response.truthy_since since <> None
       \/
       Response.status r' = Response.status r /\
       bodyBytes (o_os o') = (bodyBytes (o_os o) ++ bytes)%list /\
       Response.obj_get "Content-Length" (Response.headers r')
       = Some (pretty (Z.of_nat (List.length bytes))))).
  { intros r1 Hct Hst. destruct (Hcontent r1 Hct Hst) as (r' & o' & E & Hc & Hs' & Hb & Hl).
    exists r', o'. split; [exact E |]. split; [exact Hc |]. right. auto. }
  unfold Response.sendBytes. cbv zeta. hs_steps.
  set (r0 := Response.set_header "Content-Type" mimeType r).
  assert (Hct0 : Response.obj_get "Content-Type" (Response.headers r0) = Some mimeType)
    by (unfold r0; cbn [Response.headers Response.set_header]; apply obj_get_set).
  destruct lastModified as [lm |]; [| apply Hfinish; [exact Hct0 | reflexivity]].
  destruct (JS.truthy lm) eqn:Hlm; [| apply Hfinish; [exact Hct0 | reflexivity]].
  hs_steps. set (r1 := Response.set_header "last-modified" _ r0).
  assert (Hct1 : Response.obj_get "Content-Type" (Response.headers r1) = Some mimeType).
  { unfold r1. cbn [Response.headers Response.set_header].
    now rewrite obj_get_set_ne by discriminate. }
  destruct (Response.truthy_since since) as [m |] eqn:Hsince;
    [| apply Hfinish; [exact Hct1 | reflexivity]].
  destruct (Response.bytesNotModified _ m); [| apply Hfinish; [exact Hct1 | reflexivity]].
  hs_steps. set (r2 := Response.set_status 304 r1). unfold Response.flush.
  assert (Hlm' : exists lm', Some lm = Some lm' /\ lm' <> 0).
  { exists lm. split; [reflexivity |]. unfold JS.truthy in Hlm.
    intros ->. discriminate Hlm. }
  destruct (Response.headersSent r2) eqn:Hs.
  - rewrite (bind_Ok _ _ _ _ _ (sendHeaders_sent r2 o Hs)), os_logged.
    exists r2. eexists. split; [reflexivity |]. split; [exact Hct1 |]. left.
    split; [reflexivity |]. split; [| split; [exact Hlm' | discriminate]].
    body_tac.
  - rewrite (bind_Ok _ _ _ _ _ (sendHeaders_first r2 o Hs)), os_logged, logged_app.
    eexists _, _. split; [reflexivity |]. split; [exact Hct1 |]. left.
    split; [reflexivity |]. split; [| split; [exact Hlm' | discriminate]].
    body_tac.
Qed.

Lemma obj_set_set {V} k (v1 v2 : V) l :
  Response.obj_set k v2 (Response.obj_set k v1 l) = Response.obj_set k v2 l.
Proof.
  induction l as [| [k' v'] rest IH]; cbn [Response.obj_set].
  - now rewrite String.eqb_refl.
  - destruct (String.eqb k k') eqn:E; cbn [Response.obj_set].
    + now rewrite String.eqb_refl.
    + rewrite E. f_equal. exact IH.
Qed.

Lemma obj_extend_one {V} k (v : V) l : Response.obj_extend l [(k, v)] = Response.obj_set k v l.
Proof. reflexivity. Qed.




(** X14. A cookie that is set again is replaced, in its place: two calls of
    [setCookie] with the same name leave the response as the second alone
    does. On a response for which no [Set-Cookie] header was set by hand,
    the cookie is a line of the header block: its name, its encoded value
    and its path, which is [/] when none is given. *)
Theorem setCookie_last_wins (key v1 v2 : string) (e1 e2 : option Response.Expires)
    (p1 p2 d1 d2 : option string) (st : Response.HS) :
  bind (Response.setCookie key v1 e1 p1 d1) (fun _ => Response.setCookie key v2 e2 p2 d2) st
  = Response.setCookie key v2 e2 p2 d2 st /\
  (Response.truthy_string (Response.obj_get "Set-Cookie" (Response.headers (Response.hs_res st)))
   = None ->
   In ("Set-Cookie: " +:+ key +:+ "=" +:+ encodeURIComponent v2 +:+ "; Path=/")
      (headerBlock (Response.hs_res (snd (Response.setCookie key v2 None None None st))))).
Proof.
  destruct st as [r o]. split.
  - unfold Response.setCookie. rewrite bind_update, !update_Ok. f_equal. f_equal.
    unfold Response.set_cookie.
    cbn [Response.req Response.headersSent Response.status Response.contentLength
         Response.cookies Response.headers Response.proto Response.chunked from_option id].
    now rewrite obj_set_set.
  - cbn [Response.hs_res]. intros Hno. unfold Response.setCookie. rewrite update_Ok.
    cbn [snd Response.hs_res]. unfold headerBlock.
    cbn [Response.cookies Response.headers Response.set_cookie].
    rewrite Hno. right. right. apply in_or_app. right. apply in_or_app. left.
    apply in_map_iff. eexists (key, _). split; [| apply obj_set_In].
    unfold Response.cookieLine.
    cbn [fst snd Response.value Response.expires Response.path Response.domain
         Response.truthy_string JS.nonempty from_option id].
    clear. generalize (encodeURIComponent v2) as enc. intros enc.
    assert (Happ : forall a b c : string, (a +:+ b) +:+ c = a +:+ (b +:+ c)).
    { intros a b c. induction a as [| ch a IH]; [reflexivity |].
      rewrite !append_cons. f_equal. exact IH. }
    rewrite !Happ. repeat f_equal.
Qed.

End ResponseFacts.

Lemma chunked_response_witness :
  observed (bind (Response.write "hello")
              (fun _ => bind (writes ["!"]) (fun _ => Response.destroy)) exampleResponse)
  = (Ok tt, 200,
     [Writeln "HTTP/1.1 200 OK"; Writeln "Date: 0"; Writeln "Transfer-Encoding: Chunked";
      Writeln EmptyString;
      Writeln "5"; Writeln "hello"; Flush;
      Writeln "1"; Writeln "!"; Flush;
      Writeln "0"; Writeln EmptyString; Flush]).
Proof.
  destruct (@chunked_response exampleHost (Response.Response exampleRequest) (mkOut [] [] [])
              "hello" ["!"] eq_refl) as (E & _ & _).
  unfold exampleResponse. rewrite E. vm_compute. reflexivity.
Defined.

Lemma end_content_length_witness :
  observed (Response.end_ (Some (Response.BodyArray ["a"; "bc"])) false exampleResponse)
  = (Ok tt, 200,
     [Writeln "HTTP/1.1 200 OK"; Writeln "Date: 0"; Writeln "Content-Length: 4";
      Writeln EmptyString; Flush;
      WriteBytes (list_ascii_of_string (String "a" (String "010" "bc"))); Flush]).
Proof.
  destruct (@end_content_length exampleHost (Response.Response exampleRequest) (mkOut [] [] [])
              (Response.BodyArray ["a"; "bc"]) (Response.join_lines ["a"; "bc"]) false)
    as (E & _ & _); [right; now exists ["a"; "bc"] | reflexivity |].
  unfold exampleResponse. rewrite E. vm_compute. reflexivity.
Defined.

Lemma sendFile_outcome_witness :
  bodyBytes (o_os (Response.hs_out
                     (snd (@Response.sendFile exampleHost "index.html" None exampleResponse))))
  = list_ascii_of_string "hello" /\
  fst (@Response.sendFile exampleHost "missing.html" None exampleResponse)
  = Throw (ThrownError "404").
Proof.
  destruct (@sendFile_outcome exampleHost "index.html" None (Response.Response exampleRequest)
              (mkOut [] [] [])) as [_ Hfull].
  destruct (Hfull 1000000 (list_ascii_of_string "hello") eq_refl ltac:(discriminate))
    as (r' & o' & E & _ & [(_ & _ & Hno) | (_ & Hb & _)]); [now elim Hno |].
  destruct (@sendFile_outcome exampleHost "missing.html" None (Response.Response exampleRequest)
              (mkOut [] [] [])) as [Habsent _].
  unfold exampleResponse. rewrite E, Habsent by (left; reflexivity).
  split; [exact Hb | reflexivity].
Defined.


(** ** The parser as a whole *)

Section RequestOutcome.
Context {H : Host}.

Lemma only_reads_ret {A} (a : A) : only_reads (ret a).
Proof. intros c r c' [= _ <-]. now destruct c. Qed.

Lemma only_reads_throw {A} e : only_reads (@throw Conn A e).
Proof. intros c r c' [= _ <-]. now destruct c. Qed.

Lemma only_reads_diverge {A} : only_reads (@diverge Conn A).
Proof. intros c r c' [= _ <-]. now destruct c. Qed.

Lemma only_reads_get : only_reads (@get Conn).
Proof. intros c r c' [= _ <-]. now destruct c. Qed.

Lemma only_reads_lift {A} (x : result A) : only_reads (Request.lift x).
Proof. intros c r c' [= _ <-]. now destruct c. Qed.

Lemma only_reads_bind {A B} (m : M Conn A) (k : A -> M Conn B) :
  only_reads m -> (forall a, only_reads (k a)) -> only_reads (bind m k).
Proof.
  intros Hm Hk c r c' E.
  destruct (bind_inv _ _ _ _ _ E) as [(a & c1 & E1 & E2) | [(e & E1 & _) | (E1 & _)]].
  - apply Hm in E1. apply Hk in E2. rewrite E2, E1. reflexivity.
  - now apply Hm in E1.
  - now apply Hm in E1.
Qed.

Lemma only_reads_readLine : only_reads readLine.
Proof.
  intros c r c' E. unfold readLine in E. destruct (c_is c) as [| b rest].
  - inversion E. now destruct c'.
  - destruct (take_line (b :: rest)) as [l rest']. now inversion E.
Qed.

Lemma only_reads_read n : only_reads (read n).
Proof.
  intros c r c' E. unfold read in E. destruct (_ && _); inversion E; [reflexivity |].
  now destruct c'.
Qed.

Lemma only_reads_readHeaders n : forall hs, only_reads (Request.readHeaders n hs).
Proof.
  induction n as [| n IH]; intros hs; cbn [Request.readHeaders]; [apply only_reads_ret |].
  apply only_reads_bind; [apply only_reads_readLine |]. intros [l |]; [| apply only_reads_throw].
  destruct (_ =? 0)%nat; [apply only_reads_ret | apply IH].
Qed.

Lemma only_reads_skipHeaders fuel : only_reads (Request.skipHeaders fuel).
Proof.
  induction fuel as [| fuel IH]; cbn [Request.skipHeaders]; [apply only_reads_diverge |].
  apply only_reads_bind; [apply only_reads_readLine |]. intros [l |]; [| apply only_reads_throw].
  destruct (_ =? 0)%nat; [apply only_reads_ret | apply IH].
Qed.

Lemma only_reads_head : only_reads Request.head.
Proof.
  unfold Request.head.
  apply only_reads_bind; [apply only_reads_readLine |]. intros [line |]; [| apply only_reads_throw].
  cbv zeta. destruct (_ !! 1%nat); [| apply only_reads_throw].
  apply only_reads_bind; [apply only_reads_readHeaders |]. intros [done hs].
  apply only_reads_bind; [apply only_reads_get |]. intros c.
  apply only_reads_bind; [| intros; apply only_reads_ret].
  cbn [fst]. destruct done; [apply only_reads_ret | apply only_reads_skipHeaders].
Qed.

Lemma only_reads_body m hs data : only_reads (Request.body m hs data).
Proof.
  unfold Request.body. destruct (JStr.parseInt _ 10) as [n |]; [| apply only_reads_ret].
  destruct (JS.truthy n); [| apply only_reads_ret].
  destruct (n >? m); [apply only_reads_throw |].
  apply only_reads_bind; [apply only_reads_read | intros; apply only_reads_lift].
Qed.

Lemma only_reads_Request maxUpload : only_reads (Request.Request maxUpload).
Proof.
  unfold Request.Request. apply only_reads_bind; [apply only_reads_head |]. intros h.
  apply only_reads_bind; [apply only_reads_body | intros; apply only_reads_ret].
Qed.

(** *** The exceptions *)

Lemma throws_weaken {S A} (P Q : Exn -> Prop) (m : M S A) :
  (forall e, P e -> Q e) -> throws P m -> throws Q m.
Proof. intros HPQ Hm s e s' E. apply HPQ. eapply Hm. exact E. Qed.

Lemma request_error_EOF limit : request_error limit EOF.
Proof. now left. Qed.

Lemma request_error_TypeError limit : request_error limit Request.TypeError.
Proof. right. now left. Qed.

Lemma errors_readLine limit : throws (request_error limit) readLine.
Proof.
  intros c e c' E. unfold readLine in E. destruct (c_is c); [discriminate E |].
  destruct (take_line _). discriminate E.
Qed.

Lemma errors_read limit n : throws (request_error limit) (read n).
Proof.
  intros c e c' E. unfold read in E. destruct (_ && _); [discriminate E |].
  inversion E. apply request_error_EOF.
Qed.

Lemma errors_readHeaders limit n : forall hs,
  throws (request_error limit) (Request.readHeaders n hs).
Proof.
  induction n as [| n IH]; intros hs; cbn [Request.readHeaders]; [apply throws_ret |].
  apply throws_bind; [apply errors_readLine |]. intros [l |].
  - destruct (_ =? 0)%nat; [apply throws_ret | apply IH].
  - apply throws_throw, request_error_EOF.
Qed.

Lemma errors_skipHeaders limit fuel : throws (request_error limit) (Request.skipHeaders fuel).
Proof.
  induction fuel as [| fuel IH]; cbn [Request.skipHeaders]; [intros c e c' E; discriminate E |].
  apply throws_bind; [apply errors_readLine |]. intros [l |].
  - destruct (_ =? 0)%nat; [apply throws_ret | apply IH].
  - apply throws_throw, request_error_EOF.
Qed.

Lemma errors_head limit : throws (request_error limit) Request.head.
Proof.
  unfold Request.head.
  apply throws_bind; [apply errors_readLine |]. intros [line |];
    [| apply throws_throw, request_error_EOF].
  cbv zeta. destruct (_ !! 1%nat); [| apply throws_throw, request_error_TypeError].
  apply throws_bind; [apply errors_readHeaders |]. intros [done hs].
  apply throws_bind; [intros c e c' E; discriminate E |]. intros c.
  apply throws_bind; [| intros; apply throws_ret].
  cbn [fst]. destruct done; [apply throws_ret | apply errors_skipHeaders].
Qed.

Lemma errors_body limit hs data : throws (request_error limit) (Request.body limit hs data).
Proof.
  unfold Request.body. destruct (JStr.parseInt _ 10) as [n |]; [| apply throws_ret].
  destruct (JS.truthy n); [| apply throws_ret].
  destruct (n >? limit).
  - apply throws_throw. unfold request_error. tauto.
  - apply throws_bind; [apply errors_read |]. intros raw c e c' E.
    unfold Request.lift in E. inversion E as [[Hd Hc]].
    apply decode_Throw in Hd. unfold request_error. tauto.
Qed.

Lemma errors_Request maxUpload :
  throws (request_error (Request.effectiveMaxUpload maxUpload)) (Request.Request maxUpload).
Proof.
  unfold Request.Request. apply throws_bind; [apply errors_head |]. intros h.
  apply throws_bind; [apply errors_body | intros; apply throws_ret].
Qed.

(** X15. The constructor of a request always comes to an end, whatever the
    bytes on the connection. It ends with a request, and has then consumed
    at least one byte; or with one of five exceptions: the string [EOF]
    (the stream ended before the head or the body was complete), a
    TypeError (a request line without a URI, a malformed pair or part in the
    body), a URIError (a malformed escape in a urlencoded body), a
    SyntaxError (a JSON body that does not parse), or the error 413 of an
    upload over the limit. It changes nothing of the connection but the
    bytes still to come: it writes nothing. *)
Theorem Request_outcome (maxUpload : option Z) (c : Conn) :
  exists r c',
    Request.Request maxUpload c = (r, c') /\
    r <> Diverge /\
    c' = set_is (c_is c') c /\
    (List.length (c_is c') <= List.length (c_is c))%nat /\
    (forall req, r = Ok req -> (List.length (c_is c') < List.length (c_is c))%nat) /\
    (forall e, r = Throw e -> request_error (Request.effectiveMaxUpload maxUpload) e).
Proof.
  destruct (Request.Request maxUpload c) as [r c'] eqn:E. exists r, c'.
  split; [reflexivity |]. split; [| split; [| split; [| split]]].
  - pose proof (halts_Request maxUpload c) as Hh. now rewrite E in Hh.
  - exact (only_reads_Request maxUpload _ _ _ E).
  - exact (reads_Request maxUpload _ _ _ E).
  - intros req ->. exact (Request_Ok _ _ _ _ E).
  - intros e ->. exact (errors_Request maxUpload _ _ _ E).
Qed.

(** *** Normal forms *)

Lemma lower_idem c : JStr.lower (JStr.lower c) = JStr.lower c.
Proof. destruct c as [[] [] [] [] [] [] [] []]; reflexivity. Qed.

Lemma string_append_assoc (s t u : string) : (s +:+ t) +:+ u = s +:+ (t +:+ u).
Proof. induction s as [| c s IH]; [reflexivity |]. now rewrite !append_cons, IH. Qed.

Lemma toUpperCase_app s t :
  JStr.toUpperCase (s +:+ t) = JStr.toUpperCase s +:+ JStr.toUpperCase t.
Proof.
  induction s as [| c s IH]; [reflexivity |].
  rewrite append_cons. cbn [JStr.toUpperCase]. now rewrite IH, string_append_assoc.
Qed.

Lemma upper_idem c : JStr.toUpperCase (JStr.upper c) = JStr.upper c.
Proof. destruct c as [[] [] [] [] [] [] [] []]; reflexivity. Qed.

Lemma toLowerCase_idem s : JStr.toLowerCase (JStr.toLowerCase s) = JStr.toLowerCase s.
Proof.
  unfold JStr.toLowerCase. induction s as [| c s IH]; [reflexivity |].
  cbn [JStr.map]. now rewrite lower_idem, IH.
Qed.

Lemma toUpperCase_idem s : JStr.toUpperCase (JStr.toUpperCase s) = JStr.toUpperCase s.
Proof.
  induction s as [| c s IH]; [reflexivity |].
  cbn [JStr.toUpperCase]. now rewrite toUpperCase_app, upper_idem, IH.
Qed.

(** The header loop keeps at most one entry per line it reads, under a
    name in lower case. *)
Lemma readHeaders_keys n : forall hs c done hs' c',
  Request.readHeaders n hs c = (Ok (done, hs'), c') ->
  (forall k, is_Some (hs !! k) -> JStr.toLowerCase k = k) ->
  (forall k, is_Some (hs' !! k) -> JStr.toLowerCase k = k) /\
  (size hs' <= size hs + n)%nat.
Proof.
  induction n as [| n IH]; intros hs c done hs' c' E Hhs; cbn [Request.readHeaders] in E.
  - inversion E; subst. split; [exact Hhs | lia].
  - destruct (bind_inv _ _ _ _ _ E) as [(line & c1 & E1 & E2) | [(e & _ & Hr) | (_ & Hr)]];
      [| discriminate Hr | discriminate Hr].
    destruct line as [l |]; [| discriminate E2].
    destruct (String.length l =? 0)%nat.
    + inversion E2; subst. split; [exact Hhs | lia].
    + apply IH in E2.
      * destruct E2 as [Hk Hs]. split; [exact Hk |].
        etransitivity; [exact Hs |].
        match goal with |- context [size (<[?k := ?v]> hs)] =>
          pose proof (map_size_insert k v hs) as Hi; destruct (hs !! k) end;
          unfold id in Hi; lia.
      * intros k Hk. match type of Hk with is_Some (<[?k0 := _]> _ !! _) =>
          destruct (decide (k = k0)) as [-> | Hne] end.
        -- apply toLowerCase_idem.
        -- rewrite lookup_insert_ne in Hk by congruence. now apply Hhs.
Qed.

(** X16. The names and the case of what the constructor stores: every name
    in [req.headers] is in lower case, there are at most 64 of them (the
    header lines beyond the 64th are read and dropped), and the method and
    the protocol are in upper case. *)
Theorem Request_normal_forms (maxUpload : option Z) (c c' : Conn) (req : Request.t) :
  Request.Request maxUpload c = (Ok req, c') ->
  (forall name, is_Some (Request.headers req !! name) -> JStr.toLowerCase name = name) /\
  (size (Request.headers req) <= 64)%nat /\
  JStr.toUpperCase (Request.method req) = Request.method req /\
  JStr.toUpperCase (Request.proto req) = Request.proto req.
Proof.
  unfold Request.Request. intros E.
  destruct (bind_inv _ _ _ _ _ E) as [(h & c1 & E1 & E2) | [(e & _ & Hr) | (_ & Hr)]];
    [| discriminate Hr | discriminate Hr].
  destruct (bind_inv _ _ _ _ _ E2) as [(pd & c2 & _ & E3) | [(e & _ & Hr) | (_ & Hr)]];
    [| discriminate Hr | discriminate Hr].
  inversion E3; subst req c2. clear E3 E2 E.
  cbn [Request.build Request.headers Request.method Request.proto].
  unfold Request.head in E1.
  destruct (bind_inv _ _ _ _ _ E1) as [(line & c0 & _ & E2) | [(e & _ & Hr) | (_ & Hr)]];
    [| discriminate Hr | discriminate Hr].
  destruct line as [line |]; [| discriminate E2]. cbv zeta in E2.
  destruct (_ !! 1%nat) as [uri |]; [| discriminate E2].
  destruct (bind_inv _ _ _ _ _ E2) as [([done hs] & c3 & E3 & E4) | [(e & _ & Hr) | (_ & Hr)]];
    [| discriminate Hr | discriminate Hr].
  rewrite bind_get in E4.
  destruct (bind_inv _ _ _ _ _ E4) as [(u & c4 & _ & E5) | [(e & _ & Hr) | (_ & Hr)]];
    [| discriminate Hr | discriminate Hr].
  inversion E5; subst h c4. cbn [Request.h_headers Request.h_method Request.h_proto snd].
  apply readHeaders_keys in E3.
  - destruct E3 as [Hk Hs]. rewrite map_size_empty in Hs.
    split; [exact Hk |]. split; [lia |]. split; apply toUpperCase_idem.
  - intros k Hk. rewrite lookup_empty in Hk. now destruct Hk.
Qed.

(** *** Where the names of [req.data] come from *)

Lemma parseQuery_agree parts : forall acc,
  (forall k, snd acc !! k = Request.DString <$> fst acc !! k) ->
  forall k, snd (fold_left Request.queryPair parts acc) !! k
            = Request.DString <$> fst (fold_left Request.queryPair parts acc) !! k.
Proof.
  induction parts as [| part parts IH]; intros acc Hacc; [exact Hacc |].
  cbn [fold_left]. apply IH. intros k. unfold Request.queryPair.
  destruct (JStr.split _ part) as [| name [| value rest]]; try apply Hacc.
  destruct (decodeURIComponent _) as [v |]; [| apply Hacc].
  cbn [fst snd]. destruct (decide (k = name)) as [-> | Hne].
  - now rewrite !lookup_insert_eq.
  - rewrite !lookup_insert_ne by congruence. apply Hacc.
Qed.

Lemma parseCookies_over (d0 : gmap string Request.DataVal) cs : forall acc,
  (forall k, snd acc !! k = match fst acc !! k with
                            | Some v => Some (Request.DString v)
                            | None => d0 !! k
                            end) ->
  forall k, snd (Request.parseCookies cs acc) !! k
            = match fst (Request.parseCookies cs acc) !! k with
              | Some v => Some (Request.DString v)
              | None => d0 !! k
              end.
Proof.
  induction cs as [| cookie cs IH]; intros acc Hacc; [exact Hacc |].
  cbn [Request.parseCookies].
  destruct (JStr.split _ cookie) as [| name [| value rest]]; try exact Hacc.
  destruct (decodeURIComponent _) as [v |]; [| exact Hacc].
  apply IH. intros k. cbn [fst snd]. destruct (decide (k = name)) as [-> | Hne].
  - now rewrite !lookup_insert_eq.
  - rewrite !lookup_insert_ne by congruence. apply Hacc.
Qed.

(** What [head] stores in [data]: the cookies, and the parameters of the
    query string that no cookie hides. *)
Lemma head_data c h c' :
  Request.head c = (Ok h, c') ->
  forall name,
    Request.h_data h !! name
    = match Request.h_cookies h !! name with
      | Some v => Some (Request.DString v)
      | None => Request.DString <$> Request.h_queryParams h !! name
      end.
Proof.
  unfold Request.head. intros E1.
  destruct (bind_inv _ _ _ _ _ E1) as [(line & c0 & _ & E2) | [(e & _ & Hr) | (_ & Hr)]];
    [| discriminate Hr | discriminate Hr].
  destruct line as [line |]; [| discriminate E2]. cbv zeta in E2.
  destruct (_ !! 1%nat) as [uri |]; [| discriminate E2].
  destruct (bind_inv _ _ _ _ _ E2) as [([done hs] & c3 & E3 & E4) | [(e & _ & Hr) | (_ & Hr)]];
    [| discriminate Hr | discriminate Hr].
  rewrite bind_get in E4.
  destruct (bind_inv _ _ _ _ _ E4) as [(u & c4 & _ & E5) | [(e & _ & Hr) | (_ & Hr)]];
    [| discriminate Hr | discriminate Hr].
  inversion E5; subst h c4. clear. cbn [Request.h_data Request.h_cookies Request.h_queryParams snd].
  set (qd := match JStr.split (JStr.sep_string "?") uri !! 1%nat with
             | Some q => if JS.nonempty q then Request.parseQuery q (∅, ∅) else (∅, ∅)
             | None => (∅, ∅)
             end).
  assert (Hq : forall k, snd qd !! k = Request.DString <$> fst qd !! k).
  { unfold qd. destruct (_ !! 1%nat) as [q |]; [destruct (JS.nonempty q) |];
      try (intros k; cbn [fst snd]; now rewrite !lookup_empty).
    apply parseQuery_agree. intros k. cbn [fst snd]. now rewrite !lookup_empty. }
  assert (Hbase : forall k, snd ((∅ : gmap string string), snd qd) !! k
                   = match fst ((∅ : gmap string string), snd qd) !! k with
                     | Some v => Some (Request.DString v)
                     | None => snd qd !! k
                     end).
  { intros k. cbn [fst snd]. now rewrite lookup_empty. }
  intros name. rewrite <- Hq.
  destruct (Request.header hs "cookie") as [ck |]; [destruct (JS.nonempty ck) |];
    try apply Hbase.
  apply parseCookies_over. exact Hbase.
Qed.

Lemma body_without_length limit hs data c :
  Request.header hs "content-length" = None ->
  Request.body limit hs data c = (Ok (Request.PostUnset, data), c).
Proof. intros Hn. unfold Request.body. rewrite Hn. reflexivity. Qed.

(** X17. For a request without a [Content-Length] header, [req.data] holds
    exactly the cookies and the parameters of the query string, as strings:
    a name that is a cookie has the value of the cookie, also when the
    query string has a parameter of that name; any other name has the value
    of the parameter of the query string, if there is one. *)
Theorem data_of_query_and_cookies (maxUpload : option Z) (c c' : Conn) (req : Request.t) :
  Request.Request maxUpload c = (Ok req, c') ->
  Request.header (Request.headers req) "content-length" = None ->
  forall name,
    Request.data req !! name
    = match Request.cookies req !! name with
      | Some v => Some (Request.DString v)
      | None => Request.DString <$> Request.queryParams req !! name
      end.
Proof.
  unfold Request.Request. intros E Hn.
  destruct (bind_inv _ _ _ _ _ E) as [(h & c1 & E1 & E2) | [(e & _ & Hr) | (_ & Hr)]];
    [| discriminate Hr | discriminate Hr].
  destruct (bind_inv _ _ _ _ _ E2) as [(pd & c2 & E3 & E4) | [(e & _ & Hr) | (_ & Hr)]];
    [| discriminate Hr | discriminate Hr].
  inversion E4; subst req c2. cbn [Request.build Request.headers] in Hn.
  rewrite body_without_length in E3 by exact Hn. inversion E3; subst pd c1.
  cbn [Request.build Request.data Request.cookies Request.queryParams snd].
  now apply head_data with (c := c) (c' := c').
Qed.

End RequestOutcome.

Lemma Request_normal_forms_witness :
  match fst (@Request.Request exampleHost None
               (incoming ("get /a?x=1 http/1.1" +:+ CRLF +:+ "X-Custom: v" +:+ CRLF +:+ CRLF))) with
  | Ok req => JStr.toUpperCase (Request.method req) = Request.method req
  | _ => False
  end.
Proof.
  set (c := incoming _).
  assert (Hobs : match fst (@Request.Request exampleHost None c) with
                 | Ok req => true
                 | _ => false
                 end = true) by (vm_compute; reflexivity).
  destruct (@Request.Request exampleHost None c) as [[req | e |] c'] eqn:E;
    cbn [fst] in *; try discriminate Hobs.
  exact (proj1 (proj2 (proj2 (Request_normal_forms None c c' req E)))).
Defined.

Lemma data_of_query_and_cookies_witness :
  match fst (@Request.Request exampleHost None
               (incoming ("GET /a?x=1&y=2 HTTP/1.1" +:+ CRLF +:+ "Cookie: x=9" +:+ CRLF +:+ CRLF))) with
  | Ok req => (dataString (Request.data req) "x", dataString (Request.data req) "y")
              = (Some "9", Some "2")
  | _ => False
  end.
Proof.
  set (c := incoming _).
  assert (Hobs : match fst (@Request.Request exampleHost None c) with
                 | Ok req => (Request.header (Request.headers req) "content-length",
                              Request.cookies req !! "x", Request.cookies req !! "y",
                              Request.queryParams req !! "y")
                 | _ => (None, None, None, None)
                 end = (None, Some "9", None, Some "2")) by (vm_compute; reflexivity).
  destruct (@Request.Request exampleHost None c) as [[req | e |] c'] eqn:E;
    cbn [fst] in *; try discriminate Hobs.
  injection Hobs as Hn Hx Hy Hq.
  pose proof (data_of_query_and_cookies None c c' req E Hn) as Hd.
  unfold dataString. rewrite (Hd "x"), (Hd "y"), Hx, Hy, Hq. reflexivity.
Defined.

(** * The worker of a connection, the message loop and the routes of a server *)

(** ** The worker: failures *)

Section WorkerFailures.
Context {H : Host}.
Variable fn : Child.Handler.
Variable routes : gmap string Child.OnConnect.

Lemma report_Ok e p :
  WebSocket.on_conn (sending (modify (console_exception e))) p = (Ok tt, reported e p).
Proof. reflexivity. Qed.

(** The [catch] of the request loop, by the exception. *)
Lemma turn_caught e p p1 :
  Child.handleRequest fn routes p = (Throw e, p1) ->
  Child.turn fn routes p
  = if decide (e = THREAD_EXIT) then (Throw e, p1)
    else if decide (e = EOF) then (Ok false, p1)
    else if nullish e then (Throw Request.TypeError, p1)
    else if decide (e = RES_STOP) then (Ok true, p1)
    else (Ok false, reported e p1).
Proof.
  intros E. unfold Child.turn, try_catch. rewrite (bind_Throw _ _ _ _ _ E).
  destruct (decide (e = THREAD_EXIT)); [reflexivity |].
  destruct (decide (e = EOF)); [reflexivity |].
  destruct (nullish e); [reflexivity |].
  destruct (Child.hasDumpText e) eqn:Hd.
  - rewrite (bind_Ok _ _ _ _ _ (report_Ok e p1)).
    destruct (decide (e = RES_STOP)) as [-> |]; [discriminate Hd | reflexivity].
  - destruct (decide (e = RES_STOP)); [reflexivity |].
    now rewrite (bind_Ok _ _ _ _ _ (report_Ok e p1)).
Qed.

(** An exception that leaves a turn leaves the service of the connection:
    nothing is destroyed. *)
Lemma connection_thrown e p p1 :
  Child.turn fn routes p = (Throw e, p1) ->
  Child.connection fn routes p = (Throw e, p1).
Proof.
  intros E. unfold Child.connection. rewrite bind_get, requests_S.
  now rewrite (bind_Throw _ _ _ _ _ (bind_Throw _ _ _ _ _ E)).
Qed.

(** The exceptions of the parser are strings and errors. *)
Lemma request_error_not_nullish limit e : request_error limit e -> nullish e = false.
Proof. intros [-> | [-> | [-> | [-> | ->]]]]; reflexivity. Qed.

(** X18. When the constructor of the request throws, the handler is not
    called and nothing is sent. If it threw [EOF] (the peer closed, or
    the stream ended inside the head or the body), the connection is
    destroyed without a word; any other exception of the parser is reported
    on the console once, and the connection is destroyed. The bytes the
    parser had not read stay unread. *)
Theorem parse_failure_closes (p : WebSocket.Proc) (e : Exn) (c1 : Conn) :
  Request.Request None (WebSocket.p_conn p) = (Throw e, c1) ->
  Child.connection fn routes p
  = (Ok tt, WebSocket.fire WebSocket.Destroyed
              (if decide (e = EOF) then WebSocket.set_conn c1 p
               else reported e (WebSocket.set_conn c1 p))) /\
  c1 = set_is (c_is c1) (WebSocket.p_conn p).
Proof.
  intros E. split; [| exact (only_reads_Request None _ _ _ E)].
  assert (Hh : Child.handleRequest fn routes p = (Throw e, WebSocket.set_conn c1 p)).
  { unfold Child.handleRequest. apply bind_Throw. unfold WebSocket.on_conn. now rewrite E. }
  destruct (throws_Request None _ _ _ E) as [Hstop Hexit].
  pose proof (turn_caught e p _ Hh) as Ht.
  rewrite (request_error_not_nullish _ e (errors_Request None _ _ _ E)) in Ht.
  destruct (decide (e = THREAD_EXIT)); [contradiction |].
  destruct (decide (e = EOF)).
  - now apply connection_over.
  - destruct (decide (e = RES_STOP)); [contradiction |]. now apply connection_over.
Qed.

(** X19. When the handler of a parsed request (not an upgrade) throws
    anything but the stop signal, no [endRequest] is fired and the response
    is not finished ([destroy] is not called on it). [THREAD.EXIT] is
    thrown on, out of the service of the connection, which is then not
    destroyed. On [null] or [undefined] the catch clause itself fails,
    reading [e.dumpText]: a TypeError leaves the service of the
    connection, nothing is reported and the connection is not destroyed.
    [EOF] ends the request loop silently; any other exception is reported
    on the console once and ends the request loop. In the last two cases
    the connection is destroyed, with the bytes that follow the request
    unread. *)
Theorem handler_failure (p : WebSocket.Proc) (req : Request.t) (c1 : Conn) (e : Exn)
    (s : Response.HS) :
  Request.Request None (WebSocket.p_conn p) = (Ok req, c1) ->
  connectionOf req <> "upgrade" ->
  fn req (Response.mkHS (prepared req) (c_out c1)) = (Throw e, s) ->
  e <> RES_STOP ->
  let p1 := after_request p c1 req (Response.hs_out s) in
  Child.connection fn routes p
  = (if decide (e = THREAD_EXIT) then (Throw THREAD_EXIT, p1)
     else if nullish e then (Throw Request.TypeError, p1)
     else (Ok tt, WebSocket.fire WebSocket.Destroyed
                    (if decide (e = EOF) then p1 else reported e p1))) /\
  WebSocket.p_events p1 = (WebSocket.p_events p ++ [WebSocket.StartRequest req])%list /\
  c_is (WebSocket.p_conn p1) = c_is c1.
Proof.
  intros Hreq Hup Hfn Hstop p1. split; [| split; reflexivity].
  pose proof (handleRequest_threw fn routes p req c1 e s Hreq Hup Hfn) as Hh. fold p1 in Hh.
  pose proof (turn_caught e p _ Hh) as Ht.
  destruct (decide (e = THREAD_EXIT)) as [-> |]; [now apply connection_thrown |].
  destruct (decide (e = EOF)) as [-> |]; [now apply connection_over |].
  destruct (nullish e); [now apply connection_thrown |].
  destruct (decide (e = RES_STOP)); [contradiction |]. now apply connection_over.
Qed.


(** *** The service of a connection comes to an end *)

Lemma halts_on_conn {A} (m : M Conn A) : halts m -> halts (WebSocket.on_conn m).
Proof.
  intros Hm p. unfold WebSocket.on_conn. specialize (Hm (WebSocket.p_conn p)).
  now destruct (m (WebSocket.p_conn p)).
Qed.

Lemma halts_responding {A} (m : M Response.HS A) res :
  halts m -> halts (Child.responding m res).
Proof.
  intros Hm p. unfold Child.responding.
  specialize (Hm (Response.mkHS res (c_out (WebSocket.p_conn p)))).
  destruct (m _) as [[a | e |] s]; cbn [fst] in *; [discriminate | discriminate | congruence].
Qed.

Lemma halts_sendHeaders : halts Response.sendHeaders.
Proof.
  intros [r o]. destruct (Response.headersSent r) eqn:Hs.
  - now rewrite (sendHeaders_sent r o Hs).
  - now rewrite (sendHeaders_first r o Hs).
Qed.

Lemma halts_WebSocket n : halts (WebSocket.WebSocket n).
Proof.
  unfold WebSocket.WebSocket.
  apply halts_bind; [intros s; discriminate |]. intros res.
  apply halts_bind; [apply halts_modify |]. intros _.
  apply halts_bind; [apply halts_modify |]. intros _.
  apply halts_bind; [apply halts_sendHeaders |]. intros _.
  apply halts_bind; [apply halts_modify | intros; apply halts_ret].
Qed.

(** With listeners that come to an end, [run] comes to an end. *)
Lemma halts_run ws ls : listeners_halt ls -> halts (WebSocket.run ws ls).
Proof.
  intros Hls. unfold WebSocket.run.
  apply halts_bind; [apply halts_modify |]. intros _.
  apply halts_try_finally.
  - intros p. rewrite bind_get. unfold WebSocket.on_conn.
    pose proof (messages_total ls (Datatypes.S (List.length (c_is (WebSocket.p_conn p))))
                  (WebSocket.p_conn p) Hls ltac:(lia)) as Ht.
    now destruct (WebSocket.messages _ ls (WebSocket.p_conn p)).
  - apply halts_try_finally; [| apply halts_modify].
    apply halts_on_conn, halts_sending. destruct Hls as (_ & _ & Hc & Hfc).
    apply halts_bind; [exact Hc | intros; exact Hfc].
Qed.

(** Whatever [webSockets[part]] finds comes to an end when it is called,
    and so do the listeners it attaches. *)
Lemma lookupRoute_halts part onConnect :
  application_halts fn routes ->
  Child.lookupRoute routes part = Some onConnect ->
  forall ws, halts (onConnect ws) /\
             forall o ls o', onConnect ws o = (Ok ls, o') -> listeners_halt ls.
Proof.
  intros [_ Hroutes]. unfold Child.lookupRoute.
  destruct (routes !! part) as [f |] eqn:Hr.
  - intros [= <-]. now apply (Hroutes part f).
  - unfold Child.inherited.
    assert (Hnone : forall ws : WebSocket.t,
              halts (@ret Out _ Child.noListeners) /\
              forall o ls o', @ret Out _ Child.noListeners o = (Ok ls, o') -> listeners_halt ls).
    { intros ws. split; [apply halts_ret |]. intros o ls o' [= <- _].
      repeat split; intros; apply halts_ret. }
    destruct (bool_decide _); [intros [= <-]; exact Hnone |].
    destruct (engineProperty part) as [[] |]; [intros [= <-]; exact Hnone | | discriminate].
    intros [= <-] ws. split; [apply halts_throw | discriminate].
Qed.

Lemma halts_upgrade req res :
  application_halts fn routes -> halts (Child.upgrade routes req res).
Proof.
  intros Happ. unfold Child.upgrade.
  destruct (Request.header _ "upgrade"); [| apply halts_throw].
  destruct (negb _); [apply halts_ret |].
  destruct (Child.lookupRoute routes _) as [onConnect |] eqn:Hr; [| apply halts_ret].
  apply halts_bind; [intros p; discriminate |]. intros n.
  apply halts_bind; [apply halts_responding, halts_WebSocket |]. intros [ws res'].
  cbn [fst]. intros p.
  destruct (lookupRoute_halts _ _ Happ Hr ws) as [Hc Hls].
  unfold bind at 1. unfold WebSocket.on_conn at 1. unfold sending at 1.
  specialize (Hc (c_out (WebSocket.p_conn p))).
  destruct (onConnect ws (c_out (WebSocket.p_conn p))) as [[ls | e |] o'] eqn:Ec;
    cbn [fst] in *; [| discriminate | congruence].
  apply halts_bind; [apply halts_run; now apply (Hls _ _ _ Ec) | intros; apply halts_ret].
Qed.

Lemma halts_destroy : halts Response.destroy.
Proof. intros [r o]. now rewrite destroy_chunked. Qed.

Lemma halts_respond connection req res :
  application_halts fn routes -> halts (Child.respond fn connection req res).
Proof.
  intros Happ. unfold Child.respond. destruct (Child.prepare _ _) as [res0 ka].
  apply halts_bind; [apply halts_responding, Happ |]. intros [answer res'].
  cbn [fst snd].
  destruct answer; (apply halts_bind; [apply halts_responding, halts_destroy |
                                      intros; apply halts_ret]).
Qed.

Lemma halts_handleRequest :
  application_halts fn routes -> halts (Child.handleRequest fn routes).
Proof.
  intros Happ. unfold Child.handleRequest.
  apply halts_bind; [apply halts_on_conn, halts_Request |]. intros req.
  apply halts_bind; [apply halts_modify |]. intros _.
  destruct (String.eqb _ "upgrade"); [now apply halts_upgrade |].
  apply halts_bind; [now apply halts_respond | intros; apply halts_ret].
Qed.

Lemma halts_turn : application_halts fn routes -> halts (Child.turn fn routes).
Proof.
  intros Happ. unfold Child.turn. apply halts_try_catch.
  - apply halts_bind; [now apply halts_handleRequest |]. intros ka.
    apply halts_bind; [apply halts_modify | intros; apply halts_ret].
  - intros e.
    destruct (decide (e = THREAD_EXIT)); [apply halts_throw |].
    destruct (decide (e = EOF)); [apply halts_ret |].
    destruct (nullish e); [apply halts_throw |].
    destruct (Child.hasDumpText e);
      [apply halts_bind; [intros p; discriminate | intros; apply halts_ret] |].
    destruct (decide (e = RES_STOP)); [apply halts_ret |].
    apply halts_bind; [intros p; discriminate | intros; apply halts_ret].
Qed.

(** The request loop throws nothing but [THREAD.EXIT] and the TypeError of
    its own catch clause. *)
Lemma throws_turn :
  throws (fun e => e = THREAD_EXIT \/ e = Request.TypeError) (Child.turn fn routes).
Proof.
  intros p e p' E. unfold Child.turn, try_catch in E.
  destruct (bind _ _ p) as [[ka | e0 |] p1] eqn:Eb; [discriminate E | | discriminate E].
  destruct (decide (e0 = THREAD_EXIT)) as [-> |]; [left; now inversion E |].
  destruct (decide (e0 = EOF)); [discriminate E |].
  destruct (nullish e0); [right; now inversion E |].
  destruct (Child.hasDumpText e0); [discriminate E |].
  destruct (decide (e0 = RES_STOP)); discriminate E.
Qed.

Lemma requests_ends fuel : forall p,
  application_halts fn routes ->
  (List.length (c_is (WebSocket.p_conn p)) < fuel)%nat ->
  exists p', Child.requests fuel fn routes p = (Ok tt, p') \/
             Child.requests fuel fn routes p = (Throw THREAD_EXIT, p') \/
             Child.requests fuel fn routes p = (Throw Request.TypeError, p').
Proof.
  induction fuel as [| fuel IH]; intros p Happ Hf; [lia |].
  rewrite requests_S. unfold bind.
  pose proof (halts_turn Happ p) as Hh.
  destruct (Child.turn fn routes p) as [[[] | e |] p1] eqn:E; cbn [fst] in Hh.
  - apply turn_again in E. apply IH; [exact Happ | lia].
  - exists p1. now left.
  - apply throws_turn in E. destruct E as [-> | ->]; exists p1; [right; now left | now do 2 right].
  - now elim Hh.
Qed.

(** X21. With a request handler, connect callbacks and listeners that come
    to an end, the service of a connection comes to an end, whatever the
    peer sends: every turn of the request loop that is followed by another
    has consumed input. It ends with the connection destroyed, or with
    [THREAD.EXIT] thrown on, or with the TypeError of the catch clause of
    the request loop (which it throws when what it caught is [null] or
    [undefined]); no other exception leaves the request loop. *)
Theorem connection_ends (p : WebSocket.Proc) :
  application_halts fn routes ->
  exists p',
    Child.connection fn routes p = (Ok tt, WebSocket.fire WebSocket.Destroyed p') \/
    Child.connection fn routes p = (Throw THREAD_EXIT, p') \/
    Child.connection fn routes p = (Throw Request.TypeError, p').
Proof.
  intros Happ. unfold Child.connection. rewrite bind_get.
  destruct (requests_ends (Datatypes.S (List.length (c_is (WebSocket.p_conn p)))) p Happ
              ltac:(lia)) as (p' & [E | [E | E]]); exists p'.
  - left. now rewrite (bind_Ok _ _ _ _ _ E).
  - right. left. now rewrite (bind_Throw _ _ _ _ _ E).
  - right. right. now rewrite (bind_Throw _ _ _ _ _ E).
Qed.

(** *** Names that every object inherits *)

















End WorkerFailures.

(** ** The message loop: exceptions of listeners *)

Section ListenerErrors.
Context {H : Host}.

Lemma messages_never_throw fuel ls : throws (fun _ => False) (WebSocket.messages fuel ls).
Proof.
  induction fuel as [| fuel IH]; cbn [WebSocket.messages];
    [intros c e c' E; discriminate E |].
  apply throws_bind.
  - intros c e c' E. unfold WebSocketCodec.getMessage, try_catch in E.
    destruct (WebSocketCodec.frames _ EmptyString c) as [[r | e' |] c1]; discriminate E.
  - intros [m |]; [| apply throws_ret].
    apply throws_bind; [| intros; apply IH].
    intros c e c' E. unfold try_catch in E.
    destruct (sending _ c) as [[[] | e0 |] c1]; discriminate E.
Qed.

(** X22. An exception of a message listener never leaves [run]: whatever
    arrives on the connection, an exception that [run] ends with is one
    that the close listeners ([onclose], then the listeners of the [close]
    event) throw. *)
Theorem run_contains_listener_errors (ws : WebSocket.t) (ls : WebSocket.Listeners)
    (p p' : WebSocket.Proc) (e : Exn) :
  WebSocket.run ws ls p = (Throw e, p') ->
  exists o o',
    bind (WebSocket.onclose ls) (fun _ => WebSocket.fire_close ls) o = (Throw e, o').
Proof.
  unfold WebSocket.run. rewrite bind_modify. intros E.
  apply try_finally_inv in E.
  destruct E as [[_ Hr] | (r1 & p1 & rf & E1 & Hr1 & E2 & Hrf)]; [discriminate Hr |].
  assert (Hloop : forall e1, r1 <> Throw e1).
  { intros e1 ->. rewrite bind_get in E1. unfold WebSocket.on_conn in E1.
    destruct (WebSocket.messages _ ls _) as [r0 c0] eqn:Em. inversion E1; subst r0.
    exact (messages_never_throw _ _ _ _ _ Em). }
  apply try_finally_inv in E2.
  destruct E2 as [[_ ->] | (r2 & p2 & rd & E2 & Hr2 & E3 & Hrd)]; [discriminate Hrf |].
  unfold modify in E3. inversion E3; subst rd p'. subst rf.
  destruct r2 as [[] | e2 |]; [subst r1; now elim (Hloop e) | | now elim Hr2].
  inversion Hrf; subst e2.
  unfold WebSocket.on_conn, sending in E2.
  destruct (bind _ _ (c_out (WebSocket.p_conn p1))) as [r0 o'] eqn:Ec.
  inversion E2; subst r0. eauto.
Qed.

End ListenerErrors.

(** ** Server.js: the paths of the WebSocket callbacks *)

Section Routes.
Context {H : Host}.

Lemma prefix_empty s : String.prefix EmptyString s = true.
Proof. now destruct s. Qed.

Lemma contains_slash_snoc s c :
  JStr.contains "/" (s +:+ String c EmptyString)
  = JStr.contains "/" s || (if ascii_dec "/" c then true else false).
Proof.
  induction s as [| a s IH].
  - rewrite append_nil. cbn [JStr.contains String.prefix].
    destruct (ascii_dec "/" c); reflexivity.
  - rewrite append_cons. cbn [JStr.contains String.prefix]. rewrite IH.
    destruct (ascii_dec "/" a); [now rewrite !prefix_empty | reflexivity].
Qed.

(** The pieces of [split('/')] hold no slash. *)
Lemma split_slash s : forall cur,
  JStr.contains "/" cur = false ->
  Forall (fun piece => JStr.contains "/" piece = false)
         (JStr.split_go (JStr.sep_string "/") s O cur).
Proof.
  induction s as [| c s IH]; intros cur Hcur; cbn [JStr.split_go].
  - now constructor.
  - unfold JStr.sep_string at 1. cbn [String.prefix String.length].
    destruct (ascii_dec "/" c) as [<- | Hne].
    + destruct s; (constructor; [exact Hcur | apply IH; reflexivity]).
    + apply IH. rewrite contains_slash_snoc, Hcur.
      now destruct (ascii_dec "/" c).
Qed.

Lemma firstSegment_no_slash uri : JStr.contains "/" (Child.firstSegment uri) = false.
Proof.
  unfold Child.firstSegment. pose proof (split_slash uri EmptyString eq_refl) as Hs.
  fold (JStr.split (JStr.sep_string "/") uri) in Hs.
  destruct (JStr.split (JStr.sep_string "/") uri) as [| p0 [| p1 rest]].
  - reflexivity.
  - inversion Hs; subst. cbn. destruct (JS.nonempty p0); [assumption | reflexivity].
  - inversion Hs as [| ? ? H0 Hs']; subst. inversion Hs'; subst. cbn.
    destruct (JS.nonempty p0); assumption.
Qed.

Lemma upgrade_routes path onConnect (routes : gmap string Child.OnConnect) req res :
  JStr.contains "/" path = true ->
  Child.upgrade (<[path := onConnect]> routes) req res = Child.upgrade routes req res.
Proof.
  intros Hp. unfold Child.upgrade.
  destruct (Request.header _ "upgrade"); [| reflexivity].
  destruct (negb _); [reflexivity |].
  unfold Child.lookupRoute. rewrite lookup_insert_ne; [reflexivity |].
  intros ->. rewrite firstSegment_no_slash in Hp. discriminate.
Qed.

Lemma handleRequest_routes fn path onConnect (routes : gmap string Child.OnConnect) p :
  JStr.contains "/" path = true ->
  Child.handleRequest fn (<[path := onConnect]> routes) p = Child.handleRequest fn routes p.
Proof.
  intros Hp. unfold Child.handleRequest.
  destruct (WebSocket.on_conn (Request.Request None) p) as [[req | e |] p1] eqn:E.
  - rewrite !(bind_Ok _ _ _ _ _ E), !bind_modify.
    destruct (String.eqb _ "upgrade"); [| reflexivity]. now rewrite upgrade_routes.
  - now rewrite !(bind_Throw _ _ _ _ _ E).
  - now rewrite !(bind_Diverge _ _ _ _ E).
Qed.

Lemma requests_routes fn path onConnect (routes : gmap string Child.OnConnect) fuel :
  JStr.contains "/" path = true ->
  forall p, Child.requests fuel fn (<[path := onConnect]> routes) p
            = Child.requests fuel fn routes p.
Proof.
  intros Hp. induction fuel as [| fuel IH]; intros p; [reflexivity |].
  rewrite !requests_S.
  assert (Ht : Child.turn fn (<[path := onConnect]> routes) p = Child.turn fn routes p).
  { unfold Child.turn, try_catch, bind.
    now rewrite (handleRequest_routes fn path onConnect routes p Hp). }
  unfold bind. rewrite Ht.
  destruct (Child.turn fn routes p) as [[[] | e |] p1]; try reflexivity. apply IH.
Qed.

(** X23. A connect callback registered with [server.webSocket] under a
    path that holds a slash is never called: the worker looks the callbacks
    up under the first segment of the request path, which holds none, so
    the registration changes nothing in the service of any connection. *)
Theorem webSocket_path_with_slash (path : string) (onConnect : Child.OnConnect)
    (server : Server.t) (p : WebSocket.Proc) :
  JStr.contains "/" path = true ->
  Server.serve (Server.webSocket path onConnect server) p = Server.serve server p.
Proof.
  intros Hp. unfold Server.serve, Server.webSocket, Child.connection.
  cbn [Server.fn Server.webSockets]. rewrite !bind_get.
  unfold bind. now rewrite (requests_routes _ path onConnect _ _ Hp).
Qed.

End Routes.

(** *** Worked examples *)

Lemma parse_failure_closes_witness :
  let conn := @Child.connection exampleHost idle ∅ (accepted ("GET / HTTP/1.1" +:+ CRLF)) in
  (fst conn, trace (snd conn)) = (Ok tt, ["destroyed"]).
Proof.
  cbv zeta. set (p := @accepted exampleHost ("GET / HTTP/1.1" +:+ CRLF)).
  assert (Hobs : match fst (@Request.Request exampleHost None (WebSocket.p_conn p)) with
                 | Throw e => Some e
                 | _ => None
                 end = Some EOF) by (vm_compute; reflexivity).
  destruct (@Request.Request exampleHost None (WebSocket.p_conn p)) as [[req | e |] c1] eqn:E;
    cbn [fst] in Hobs; try discriminate Hobs.
  injection Hobs as ->.
  destruct (parse_failure_closes idle ∅ p EOF c1 E) as [-> _]. reflexivity.
Defined.

(** A handler that throws an error, and one that throws [null]. *)
Lemma handler_failure_witness :
  (exists p',
     @Child.connection exampleHost failing ∅ (accepted (keepAliveRequest +:+ keepAliveRequest))
     = (Ok tt, WebSocket.fire WebSocket.Destroyed p') /\
     o_console (c_out (WebSocket.p_conn p')) = [ThrownError "boom"] /\
     string_of_list_ascii (c_is (WebSocket.p_conn p')) = keepAliveRequest) /\
  (exists p',
     @Child.connection exampleHost throwingNull ∅ (accepted (keepAliveRequest +:+ keepAliveRequest))
     = (Throw Request.TypeError, p') /\
     o_console (c_out (WebSocket.p_conn p')) = [] /\
     List.length (WebSocket.p_events p') = 1%nat).
Proof.
  set (p := @accepted exampleHost (keepAliveRequest +:+ keepAliveRequest)).
  assert (Hobs : match @Request.Request exampleHost None (WebSocket.p_conn p) with
                 | (Ok req, c1) =>
                     (connectionOf req, c_out c1, string_of_list_ascii (c_is c1))
                 | _ => (EmptyString, mkOut [] [] [], EmptyString)
                 end = ("keep-alive", mkOut [] [] [], keepAliveRequest))
    by (vm_compute; reflexivity).
  destruct (@Request.Request exampleHost None (WebSocket.p_conn p)) as [[req | e |] c1] eqn:E;
    try discriminate Hobs.
  injection Hobs as Hconn Hout Hin.
  assert (Hup : connectionOf req <> "upgrade") by (rewrite Hconn; discriminate).
  split.
  - destruct (handler_failure failing ∅ p req c1 (ThrownError "boom")
                (Response.mkHS (prepared req) (c_out c1)) E Hup eq_refl ltac:(discriminate))
      as (Hc & _ & _).
    eexists. split; [exact Hc |]. cbn. rewrite Hout. split; [reflexivity | exact Hin].
  - destruct (handler_failure throwingNull ∅ p req c1 ThrownNull
                (Response.mkHS (prepared req) (c_out c1)) E Hup eq_refl ltac:(discriminate))
      as (Hc & _ & _).
    eexists. split; [exact Hc |]. cbn. rewrite Hout. split; reflexivity.
Defined.


Lemma connection_ends_witness :
  exists p',
    @Child.connection exampleHost idle ∅ (accepted keepAliveRequest)
    = (Ok tt, WebSocket.fire WebSocket.Destroyed p') \/
    @Child.connection exampleHost idle ∅ (accepted keepAliveRequest)
    = (Throw THREAD_EXIT, p') \/
    @Child.connection exampleHost idle ∅ (accepted keepAliveRequest)
    = (Throw Request.TypeError, p').
Proof.
  apply (@connection_ends exampleHost idle ∅ (accepted keepAliveRequest)).
  split.
  - intros req s. discriminate.
  - intros path onConnect Hr. rewrite lookup_empty in Hr. discriminate Hr.
Defined.


Lemma run_contains_listener_errors_witness :
  let ls := WebSocket.mkListeners
              (fun m => throw (ThrownError m)) (fun _ => ret tt)
              (throw (ThrownError "close listener")) (ret tt) in
  exists o o',
    bind (WebSocket.onclose ls) (fun _ => WebSocket.fire_close ls) o
    = (Throw (ThrownError "close listener"), o').
Proof.
  intros ls.
  set (ws := @WebSocket.mk exampleHost exampleRequest "socket-1").
  set (p := @accepted exampleHost
              (string_of_list_ascii
                 (List.map (fun z => ascii_of_N (Z.to_N z)) [0x81; 0x02; 104; 105; 0x88; 0x00]))).
  assert (Hr : fst (WebSocket.run ws ls p) = Throw (ThrownError "close listener"))
    by (vm_compute; reflexivity).
  apply (run_contains_listener_errors ws ls p (snd (WebSocket.run ws ls p))).
  destruct (WebSocket.run ws ls p) as [r p']. cbn [fst snd] in *. now subst r.
Defined.

Lemma webSocket_path_with_slash_witness :
  firstWritten (snd (@Server.serve exampleHost
                       (Server.webSocket "chat" quietSocket (Server.createServer idle))
                       (accepted upgradeRequest)))
  = Some (Writeln "HTTP/1.1 101 Switching Protocols") /\
  firstWritten (snd (@Server.serve exampleHost
                       (Server.webSocket "/chat" quietSocket (Server.createServer idle))
                       (accepted upgradeRequest)))
  = None.
Proof.
  split; [vm_compute; reflexivity |].
  rewrite (@webSocket_path_with_slash exampleHost "/chat" quietSocket (Server.createServer idle)
             (accepted upgradeRequest) eq_refl).
  vm_compute. reflexivity.
Defined.
